(** * LiDAR point-cloud viewer: loader, classification colours, orbit camera

    A shallow embedding of [src/loader.py], [src/cityscape_viewer.py],
    [src/renderer.py] and the renderer set-up of [src/main.py].

    Numbers are modelled the way the code has them: Python [float] and
    NumPy [float64] are IEEE-754 binary64, NumPy [float32] and the
    components of a [glm.vec3] are binary32.  Both are the Standard
    Library's [spec_float] (sign, mantissa, exponent, with signed zeros,
    infinities and NaN) with the correctly rounded operations of
    [SpecFloat], so NaN and overflow behave as they do at run time.

    The file has two parts: the embedding (definitions only), then the
    properties proved about it. *)

From Stdlib Require Import ZArith List Bool Lia.
From Stdlib Require Import SpecFloat.
From stdpp Require Import base option list sorting strings gmap.

Local Open Scope Z_scope.

(** ** Python exceptions *)

Inductive exn := IndexError | ValueError | ZeroDivisionError.

Inductive result (A : Type) :=
  | Ok (a : A)
  | Raise (e : exn).
Arguments Ok {A} a.
Arguments Raise {A} e.

#[global] Instance result_ret : MRet result := @Ok.
#[global] Instance result_fmap : FMap result := fun A B f m =>
  match m with
  | Ok a => Ok (f a)
  | Raise e => Raise e
  end.
#[global] Instance result_bind : MBind result := fun A B f m =>
  match m with
  | Ok a => f a
  | Raise e => Raise e
  end.

(** ** IEEE-754 binary64: Python [float], NumPy [float64] *)

Module F64.
Definition prec : Z := 53.
Definition emax : Z := 1024.
Definition t := spec_float.

Definition add : t -> t -> t := SFadd prec emax.
Definition sub : t -> t -> t := SFsub prec emax.
Definition mul : t -> t -> t := SFmul prec emax.
Definition div : t -> t -> t := SFdiv prec emax.
Definition sqrt : t -> t := SFsqrt prec emax.
Definition neg : t -> t := SFopp.
Definition abs : t -> t := SFabs.

(** Python's [a < b], [a <= b], [a > b], [a >= b]: false when either
    side is NaN. *)
Definition lt (a b : t) : bool := SFltb a b.
Definition le (a b : t) : bool := SFleb a b.
Definition gt (a b : t) : bool := SFltb b a.
Definition ge (a b : t) : bool := SFleb b a.

Definition isnan (a : t) : bool :=
  match a with S754_nan => true | _ => false end.

(** An integer used where a float is expected ([int] to [float]). *)
Definition of_Z (n : Z) : t := binary_normalize prec emax n 0 false.

(** A decimal literal [n/d] of the source text: the binary64 number
    nearest to the quotient, which is what a correctly rounded division of
    the two (exactly representable) integers gives. *)
Definition lit (n d : Z) : t := div (of_Z n) (of_Z d).

Definition zero : t := S754_zero false.
Definition inf : t := S754_infinity false.
Definition nan : t := S754_nan.

(** [bool(x)] of a float: false exactly for the two zeros. *)
Definition truthy (a : t) : bool :=
  match a with S754_zero _ => false | _ => true end.

(** Built-in [min(a, b)] and [max(a, b)] of Python: the first argument
    is kept unless the second compares strictly below (above) it. *)
Definition py_min (a b : t) : t := if lt b a then b else a.
Definition py_max (a b : t) : t := if gt b a then b else a.
End F64.

(** ** IEEE-754 binary32: NumPy [float32], components of [glm.vec3] *)

Module F32.
Definition prec : Z := 24.
Definition emax : Z := 128.
Definition t := spec_float.

Definition add : t -> t -> t := SFadd prec emax.
Definition sub : t -> t -> t := SFsub prec emax.
Definition mul : t -> t -> t := SFmul prec emax.
Definition div : t -> t -> t := SFdiv prec emax.
Definition sqrt : t -> t := SFsqrt prec emax.

(** The C cast [(float) x] of a double, [astype(np.float32)]. *)
Definition of_f64 (x : F64.t) : t :=
  match x with
  | S754_finite s m e => binary_round prec emax s m e
  | _ => x
  end.

(** The exact widening of a float to a double. *)
Definition to_f64 (x : t) : F64.t :=
  match x with
  | S754_finite s m e => binary_round F64.prec F64.emax s m e
  | _ => x
  end.

Definition one : t := of_f64 (F64.of_Z 1).
End F32.

(** ** The NumPy operations the program calls *)

Module Np.
(** [np.clip(x, lo, hi)] on floats: [min(max(x, lo), hi)] where both
    steps return their first argument when it is NaN. *)
Definition fmax_nan (a b : F64.t) : F64.t :=
  if F64.isnan a then a else if F64.gt a b then a else b.
Definition fmin_nan (a b : F64.t) : F64.t :=
  if F64.isnan a then a else if F64.lt a b then a else b.
Definition clip (x lo hi : F64.t) : F64.t :=
  fmin_nan (fmax_nan x lo) hi.

(** [np.minimum] / [np.maximum], the steps of the reductions
    [a.min()] and [a.max()]: NaN propagates. *)
Definition minimum (a b : F64.t) : F64.t :=
  if F64.le a b || F64.isnan a then a else b.
Definition maximum (a b : F64.t) : F64.t :=
  if F64.ge a b || F64.isnan a then a else b.

(** [a.min()], [a.max()]: a zero-size array raises [ValueError]. *)
Definition amin (a : list F64.t) : result F64.t :=
  match a with
  | [] => Raise ValueError
  | x :: r => Ok (foldl minimum x r)
  end.
Definition amax (a : list F64.t) : result F64.t :=
  match a with
  | [] => Raise ValueError
  | x :: r => Ok (foldl maximum x r)
  end.

(** [a.sum()] and [a.mean()].  NumPy adds pairwise in blocks; the order
    changes the rounding of a finite sum only, and the sum is written
    here as the plain left-to-right loop.  The mean of an empty array is
    [0.0 / 0], which is NaN (with a warning, not an exception). *)
Definition sum (a : list F64.t) : F64.t := foldl F64.add F64.zero a.
Definition mean (a : list F64.t) : F64.t :=
  F64.div (sum a) (F64.of_Z (Z.of_nat (length a))).

(** [a.std()]: [sqrt(mean(abs(a - a.mean()) ** 2))]. *)
Definition std (a : list F64.t) : F64.t :=
  let m := mean a in
  let dev := map (fun x => let d := F64.abs (F64.sub x m) in F64.mul d d) a in
  F64.sqrt (mean dev).

(** [np.floor] on a float64. *)
Definition floor (x : F64.t) : F64.t :=
  match x with
  | S754_finite s m e =>
      if 0 <=? e then x
      else
        let q := Z.shiftr (cond_Zopp s (Zpos m)) (- e) in
        if q =? 0 then S754_zero s else F64.of_Z q
  | _ => x
  end.

(** [astype(np.int32)] of a float64 holding an integral value.  A value
    outside the int32 range, an infinity or NaN has no defined C result;
    the x86-64 conversion instruction yields [-2^31], which is what is
    modelled. *)
Definition int32_min : Z := - 2 ^ 31.
Definition int32_max : Z := 2 ^ 31 - 1.
Definition astype_int32 (x : F64.t) : Z :=
  match x with
  | S754_zero _ => 0
  | S754_finite s m e =>
      let q := if 0 <=? e then cond_Zopp s (Zpos m) * 2 ^ e
               else Z.quot (cond_Zopp s (Zpos m)) (2 ^ (- e)) in
      if (int32_min <=? q) && (q <=? int32_max) then q else int32_min
  | _ => int32_min
  end.

(** Fancy indexing [a[idx]] with an integer index array: every index
    must be in range. *)
Definition take {A} (a : list A) (idx : list nat) : result (list A) :=
  mapM (fun i => match a !! i with Some x => Ok x | None => Raise IndexError end) idx.

(** Boolean-mask indexing [a[mask]]: the mask must be as long as the
    array. *)
Fixpoint compress {A} (mask : list bool) (a : list A) : list A :=
  match mask, a with
  | b :: mask', x :: a' => if b then x :: compress mask' a' else compress mask' a'
  | _, _ => []
  end.
Definition mask_index {A} (a : list A) (mask : list bool) : result (list A) :=
  if decide (length mask = length a) then Ok (compress mask a)
  else Raise IndexError.

(** *** [np.unique(a, axis=0, return_index=True)] on int32 rows

    NumPy views each row as one record, sorts the records with a stable
    argsort (records compare field by field, that is lexicographically),
    keeps the first record of every run of equal records, and returns
    with each kept record the index it had in the input. *)
Definition row : Type := Z * Z * Z.

Definition row_compare (a b : row) : comparison :=
  let '(a0, a1, a2) := a in
  let '(b0, b1, b2) := b in
  match a0 ?= b0 with
  | Eq => match a1 ?= b1 with
          | Eq => a2 ?= b2
          | c => c
          end
  | c => c
  end.

(** One step of a stable insertion: [x] goes before the first record
    that is not smaller than it.  Used from the right end of the input,
    so equal records keep their input order, as in NumPy's stable sort
    (any stable sort returns the same permutation). *)
Fixpoint insert_stable (x : row * nat) (l : list (row * nat)) : list (row * nat) :=
  match l with
  | [] => [x]
  | y :: l' =>
      match row_compare x.1 y.1 with
      | Gt => y :: insert_stable x l'
      | _ => x :: l
      end
  end.

Definition argsort_stable (a : list row) : list (row * nat) :=
  foldr insert_stable [] (imap (fun i r => (r, i)) a).

(** [mask[0] = True; mask[1:] = aux[1:] != aux[:-1]]. *)
Fixpoint run_heads (prev : option row) (l : list (row * nat)) : list (row * nat) :=
  match l with
  | [] => []
  | y :: l' =>
      if decide (prev = Some y.1) then run_heads (Some y.1) l'
      else y :: run_heads (Some y.1) l'
  end.

Definition unique_rows (a : list row) : list row * list nat :=
  let heads := run_heads None (argsort_stable a) in
  (heads.*1, heads.*2).
End Np.

(** ** [scipy.spatial.cKDTree], as far as [remove_outliers] uses it

    [cKDTree(data).query(x, k)] returns for every query point the Euclidean
    distances to its [k] nearest data points in ascending order; "missing
    neighbors are indicated with infinite distances".  The tree is an
    index structure only; the distances are those of the exhaustive
    search written here.  Data with a NaN or an infinite coordinate is
    rejected with [ValueError]. *)

Definition point : Type := F64.t * F64.t * F64.t.

Module Scipy.
Definition is_finite (x : F64.t) : bool :=
  match x with
  | S754_zero _ | S754_finite _ _ _ => true
  | _ => false
  end.

Definition point_finite (p : point) : bool :=
  is_finite p.1.1 && is_finite p.1.2 && is_finite p.2.

Definition sq (x : F64.t) : F64.t := F64.mul x x.

Definition distance (p q : point) : F64.t :=
  F64.sqrt (F64.add (F64.add (sq (F64.sub p.1.1 q.1.1))
                             (sq (F64.sub p.1.2 q.1.2)))
                    (sq (F64.sub p.2 q.2))).

Fixpoint insert_sorted (d : F64.t) (l : list F64.t) : list F64.t :=
  match l with
  | [] => [d]
  | y :: l' => if F64.le d y then d :: l else y :: insert_sorted d l'
  end.

Definition sort (l : list F64.t) : list F64.t := foldr insert_sorted [] l.

Definition query1 (data : list point) (k : nat) (x : point) : list F64.t :=
  take k (sort (map (distance x) data) ++ replicate k F64.inf).

Definition query (data x : list point) (k : nat) : result (list (list F64.t)) :=
  if forallb point_finite data && forallb point_finite x
  then Ok (map (query1 data k) x)
  else Raise ValueError.
End Scipy.

(** ** [src/loader.py] *)

(** An RGB triple; [float64] in [PointCloudLoader.load], [float32] in the
    arrays of [load_urban_las] and [height_colormap]. *)
Definition color : Type := spec_float * spec_float * spec_float.

(** What [laspy.read] hands to the loaders: the coordinates, the optional
    16-bit colour channels, the optional classification codes (all
    index-aligned with the coordinates) and the header fields that end up
    in the metadata. *)
Record LasData := {
  las_xyz : list point;
  las_rgb : option (list (Z * Z * Z));
  las_classification : option (list Z);
  las_name : string;
  las_version : string;
}.

Definition coords (axis : point -> F64.t) (points : list point) : list F64.t :=
  map axis points.

(** [(points[:, i].min(), points[:, i].max())] for the three axes. *)
Definition axis_bounds (points : list point) (axis : point -> F64.t)
  : result (F64.t * F64.t) :=
  lo ← Np.amin (coords axis points);
  hi ← Np.amax (coords axis points);
  Ok (lo, hi).

Definition xyz_bounds (points : list point)
  : result ((F64.t * F64.t) * (F64.t * F64.t) * (F64.t * F64.t)) :=
  bx ← axis_bounds points (fun p => p.1.1);
  by_ ← axis_bounds points (fun p => p.1.2);
  bz ← axis_bounds points (fun p => p.2);
  Ok (bx, by_, bz).

Module Loader.
(** The two settings of the loader.  [max_points] is held here for the
    limits that are not negative; what the sampling step does with any
    integer, a negative one included, is [load_limit_int] below. *)
Record PointCloudLoader := {
  max_points : option nat;
  downsample_voxel : option F64.t;
}.

Record Metadata := {
  filename : string;
  num_points : nat;
  bounds : (F64.t * F64.t) * (F64.t * F64.t) * (F64.t * F64.t);
  has_colors : bool;
  md_las_version : string;
}.

(** [np.floor(points / voxel_size).astype(np.int32)], one row. *)
Definition voxel_index (voxel_size : F64.t) (p : point) : Np.row :=
  let k c := Np.astype_int32 (Np.floor (F64.div c voxel_size)) in
  (k p.1.1, k p.1.2, k p.2).

Definition voxel_downsample {C} (points : list point) (colors : option (list C))
    (voxel_size : F64.t) : result (list point * option (list C)) :=
  let voxel_indices := map (voxel_index voxel_size) points in
  let unique_indices := (Np.unique_rows voxel_indices).2 in
  downsampled_points ← Np.take points unique_indices;
  downsampled_colors ←
    match colors with
    | Some c => Some <$> Np.take c unique_indices
    | None => Ok None
    end;
  Ok (downsampled_points, downsampled_colors).

(** [points - center], one row. *)
Definition point_sub (p c : point) : point :=
  (F64.sub p.1.1 c.1.1, F64.sub p.1.2 c.1.2, F64.sub p.2 c.2).

(** [points / max_extent], one row. *)
Definition point_div (p : point) (d : F64.t) : point :=
  (F64.div p.1.1 d, F64.div p.1.2 d, F64.div p.2 d).

(** The elements of an [(N, 3)] array in memory order. *)
Definition flat (points : list point) : list F64.t :=
  concat (map (fun p : point => [p.1.1; p.1.2; p.2]) points).

(** [points.mean(axis=0)] of an empty array is a row of NaN (with a
    warning), so [center_points] does not raise. *)
Definition center_points (points : list point) : list point * point :=
  let center := (Np.mean (coords (fun p => p.1.1) points),
                 Np.mean (coords (fun p => p.1.2) points),
                 Np.mean (coords (fun p => p.2) points)) in
  let centered_points := map (fun p => point_sub p center) points in
  (centered_points, center).

(** [np.abs(centered).max()] is the maximum over all the elements. *)
Definition normalize_points (points : list point) : result (list point * F64.t) :=
  let '(centered, center) := center_points points in
  max_extent ← Np.amax (map F64.abs (flat centered));
  let normalized :=
    if F64.gt max_extent (F64.of_Z 0)
    then map (fun p => point_div p max_extent) centered
    else centered in
  Ok (normalized, max_extent).

(** With [k = nb_neighbors + 1 = 1] the query returns a one-dimensional
    array and the slice [distances[:, 1:]] raises [IndexError]; the final
    report divides by [len(points)]. *)
Definition remove_outliers {C} (points : list point) (colors : option (list C))
    (nb_neighbors : nat) (std_ratio : F64.t)
  : result (list point * option (list C)) :=
  distances ← Scipy.query points points (S nb_neighbors);
  if decide (nb_neighbors = 0%nat) then Raise IndexError else
  let mean_distances := map (fun row => Np.mean (drop 1 row)) distances in
  let global_mean := Np.mean mean_distances in
  let global_std := Np.std mean_distances in
  let threshold := F64.add global_mean (F64.mul std_ratio global_std) in
  let mask := map (fun m => F64.lt m threshold) mean_distances in
  filtered_points ← Np.mask_index points mask;
  filtered_colors ←
    match colors with
    | Some c => Some <$> Np.mask_index c mask
    | None => Ok None
    end;
  if decide (length points = 0%nat) then Raise ZeroDivisionError else
  Ok (filtered_points, filtered_colors).

(** [truthy] of the two optional settings: [None], [0] and [0.0] are
    false, every other number is true. *)
Definition voxel_enabled (v : option F64.t) : bool :=
  match v with
  | Some x => F64.truthy x
  | None => false
  end.

Definition limit_enabled (m : option nat) : bool :=
  match m with
  | Some n => negb (Nat.eqb n 0)
  | None => false
  end.

(** The step "Apply downsampling if requested" of [load]. *)
Definition load_downsample {C} (downsample_voxel : option F64.t)
    (points : list point) (colors : option (list C))
  : result (list point * option (list C)) :=
  if voxel_enabled downsample_voxel
  then voxel_downsample points colors (default F64.zero downsample_voxel)
  else Ok (points, colors).

(** The block "Extract colors if available" of [load]: the 16-bit
    channels divided by [65535.0]. *)
Definition stored_colors (las : LasData) : option (list color) :=
  (fun rgb =>
     map (fun c : Z * Z * Z =>
            (F64.div (F64.of_Z c.1.1) (F64.of_Z 65535),
             F64.div (F64.of_Z c.1.2) (F64.of_Z 65535),
             F64.div (F64.of_Z c.2) (F64.of_Z 65535))) rgb)
  <$> las_rgb las.

Section Sampling.
(** [np.random.choice(n, m, replace=False)]: the indices drawn by the
    global random generator. *)
Variable random_choice : nat -> nat -> list nat.

(** The step "Limit number of points if requested" of [load]. *)
Definition load_limit {C} (max_points : option nat)
    (points : list point) (colors : option (list C))
  : result (list point * option (list C)) :=
  if limit_enabled max_points
     && Nat.ltb (default 0%nat max_points) (length points)
  then
    let indices := random_choice (length points) (default 0%nat max_points) in
    points' ← Np.take points indices;
    colors' ←
      match colors with
      | Some c => Some <$> Np.take c indices
      | None => Ok None
      end;
    Ok (points', colors')
  else Ok (points, colors).

(** The same step with any Python [int] as the limit, which is what
    [--max-points] ([type=int]) can hand over.  A negative limit is truthy
    and below every length, and [np.random.choice] rejects a negative
    sample size with [ValueError]. *)
Definition load_limit_int {C} (max_points : option Z)
    (points : list point) (colors : option (list C))
  : result (list point * option (list C)) :=
  if match max_points with Some n => negb (n =? 0) | None => false end
     && (default 0 max_points <? Z.of_nat (length points))
  then
    if default 0 max_points <? 0 then Raise ValueError else
    let indices :=
      random_choice (length points) (Z.to_nat (default 0 max_points)) in
    points' ← Np.take points indices;
    colors' ←
      match colors with
      | Some c => Some <$> Np.take c indices
      | None => Ok None
      end;
    Ok (points', colors')
  else Ok (points, colors).

(** [PointCloudLoader.load], from the parsed file on.  The progress
    report evaluates the bounds of the raw points, which raises on an
    empty file. *)
Definition load (self : PointCloudLoader) (las : LasData)
  : result (list point * option (list color) * Metadata) :=
  let points := las_xyz las in
  _ ← xyz_bounds points;
  let colors := stored_colors las in
  pc ← load_downsample (downsample_voxel self) points colors;
  pc ← load_limit (max_points self) pc.1 pc.2;
  b ← xyz_bounds pc.1;
  Ok (pc.1, pc.2,
      {| filename := las_name las;
         num_points := length pc.1;
         bounds := b;
         has_colors := bool_decide (is_Some pc.2);
         md_las_version := las_version las |}).

Definition load_las_file (las : LasData) (max_points : option nat)
    (downsample : option F64.t) (remove_outliers_flag : bool)
  : result (list point * option (list color) * Metadata) :=
  let loader := {| max_points := max_points; downsample_voxel := downsample |} in
  r ← load loader las;
  if remove_outliers_flag then
    pc ← remove_outliers r.1.1 r.1.2 20 (F64.of_Z 2);
    Ok (pc.1, pc.2, r.2)
  else Ok r.
End Sampling.
End Loader.

(** ** [src/cityscape_viewer.py] *)

Module Cityscape.
Definition rgb (r g b : Z) : F64.t * F64.t * F64.t :=
  (F64.lit r 10, F64.lit g 10, F64.lit b 10).

(** The table is written in tenths: [rgb 9 1 1] is [(0.9, 0.1, 0.1)]. *)
Definition CLASSIFICATION_COLORS : gmap Z (F64.t * F64.t * F64.t) :=
  list_to_map
    [ (0, rgb 5 5 5); (1, rgb 3 3 3); (2, rgb 6 4 2); (3, rgb 2 6 2);
      (4, rgb 1 7 1); (5, rgb 0 8 0); (6, rgb 9 1 1); (7, rgb 9 9 0);
      (9, rgb 0 5 9); (10, rgb 5 0 9); (11, rgb 3 3 3); (13, rgb 8 8 2);
      (14, rgb 9 5 0); (15, rgb 7 3 0); (17, rgb 4 4 4); (18, rgb 0 8 8) ].

Definition default_color : F64.t * F64.t * F64.t := rgb 5 5 5.

(** [CLASSIFICATION_COLORS.get(cls, (0.5, 0.5, 0.5))]. *)
Definition colorize (cls : Z) : F64.t * F64.t * F64.t :=
  default default_color (CLASSIFICATION_COLORS !! cls).

(** Assigning a tuple of Python floats to a row of a [float32] array. *)
Definition store_f32 (c : F64.t * F64.t * F64.t) : color :=
  (F32.of_f64 c.1.1, F32.of_f64 c.1.2, F32.of_f64 c.2).

(** [for i, cls in enumerate(las.classification): colors[i] = ...],
    on the array [colors] of [len(points)] rows. *)
Fixpoint fill_colors (i : nat) (classification : list Z) (colors : list color)
  : result (list color) :=
  match classification with
  | [] => Ok colors
  | cls :: rest =>
      if decide (i < length colors)%nat
      then fill_colors (S i) rest (<[i := store_f32 (colorize cls)]> colors)
      else Raise IndexError
  end.

Definition zero_color : color := (F64.zero, F64.zero, F64.zero).

(** The block "Check for classification data" of [load_urban_las]: the
    stored colour channels of the file are not read here or anywhere else
    in the function. *)
Definition classification_colors (las : LasData) : result (option (list color)) :=
  match las_classification las with
  | Some classification =>
      Some <$> fill_colors 0 classification
                 (replicate (length (las_xyz las)) zero_color)
  | None => Ok None
  end.

Record Metadata := {
  filename : string;
  num_points : nat;
  has_classification : bool;
}.

Section Sampling.
Variable random_choice : nat -> nat -> list nat.

Definition load_urban_las (las : LasData) (max_points : option nat)
    (downsample_voxel : option F64.t)
  : result (list point * option (list color) * Metadata) :=
  let points := las_xyz las in
  _ ← xyz_bounds points;
  colors ← classification_colors las;
  pc ← Loader.load_downsample downsample_voxel points colors;
  pc ← Loader.load_limit random_choice max_points pc.1 pc.2;
  Ok (pc.1, pc.2,
      {| filename := las_name las;
         num_points := length pc.1;
         has_classification := bool_decide (is_Some pc.2) |}).
End Sampling.
End Cityscape.

(** ** [glm.vec3]: three [float] components, arithmetic in binary32 *)

Module Glm.
Record vec3 := Vec3 { vx : F32.t; vy : F32.t; vz : F32.t }.

(** [glm.vec3(x, y, z)] from Python numbers. *)
Definition vec3_of (x y z : F64.t) : vec3 :=
  Vec3 (F32.of_f64 x) (F32.of_f64 y) (F32.of_f64 z).

Definition add (a b : vec3) : vec3 :=
  Vec3 (F32.add (vx a) (vx b)) (F32.add (vy a) (vy b)) (F32.add (vz a) (vz b)).
Definition sub (a b : vec3) : vec3 :=
  Vec3 (F32.sub (vx a) (vx b)) (F32.sub (vy a) (vy b)) (F32.sub (vz a) (vz b)).

(** [v * s] with a Python number [s]. *)
Definition scale (v : vec3) (s : F64.t) : vec3 :=
  let f := F32.of_f64 s in
  Vec3 (F32.mul (vx v) f) (F32.mul (vy v) f) (F32.mul (vz v) f).

Definition dot (a b : vec3) : F32.t :=
  F32.add (F32.add (F32.mul (vx a) (vx b)) (F32.mul (vy a) (vy b)))
          (F32.mul (vz a) (vz b)).

(** [glm.length] returns a Python float. *)
Definition length (v : vec3) : F64.t := F32.to_f64 (F32.sqrt (dot v v)).

Definition normalize (v : vec3) : vec3 :=
  let s := F32.div F32.one (F32.sqrt (dot v v)) in
  Vec3 (F32.mul (vx v) s) (F32.mul (vy v) s) (F32.mul (vz v) s).

Definition cross (a b : vec3) : vec3 :=
  Vec3 (F32.sub (F32.mul (vy a) (vz b)) (F32.mul (vy b) (vz a)))
       (F32.sub (F32.mul (vz a) (vx b)) (F32.mul (vz b) (vx a)))
       (F32.sub (F32.mul (vx a) (vy b)) (F32.mul (vx b) (vy a))).
End Glm.

(** ** [src/renderer.py] *)

Module Renderer.
Import Glm.

(** *** [class Camera] *)

Record Camera := {
  position : vec3;
  target : vec3;
  up : vec3;
  distance : F64.t;
  azimuth : F64.t;
  elevation : F64.t;
  rotation_speed : F64.t;
  zoom_speed : F64.t;
  pan_speed : F64.t;
}.

(** The nearest binary64 to pi and [np.radians(x) = x * (pi / 180.0)]. *)
Definition pi : F64.t := S754_finite false 7074237752028440 (-51).
Definition radians (x : F64.t) : F64.t :=
  F64.mul x (F64.div pi (F64.of_Z 180)).

Section Trig.
(** [np.cos] and [np.sin] of the platform's mathematical library. *)
Variables np_cos np_sin : F64.t -> F64.t.

Definition update_position (self : Camera) : Camera :=
  let az_rad := radians (azimuth self) in
  let el_rad := radians (elevation self) in
  let x := F64.mul (F64.mul (distance self) (np_cos el_rad)) (np_cos az_rad) in
  let y := F64.mul (F64.mul (distance self) (np_cos el_rad)) (np_sin az_rad) in
  let z := F64.mul (distance self) (np_sin el_rad) in
  {| position := add (target self) (vec3_of x y z);
     target := target self;
     up := up self;
     distance := distance self;
     azimuth := azimuth self;
     elevation := elevation self;
     rotation_speed := rotation_speed self;
     zoom_speed := zoom_speed self;
     pan_speed := pan_speed self |}.

(** [Camera(position=None, target=None)]. *)
Definition new_camera (position0 target0 : option vec3) : Camera :=
  let p := default (vec3_of (F64.of_Z 0) (F64.of_Z 0) (F64.of_Z 50)) position0 in
  let t := default (vec3_of (F64.of_Z 0) (F64.of_Z 0) (F64.of_Z 0)) target0 in
  update_position
    {| position := p;
       target := t;
       up := vec3_of (F64.of_Z 0) (F64.of_Z 0) (F64.of_Z 1);
       distance := length (sub p t);
       azimuth := F64.of_Z 45;
       elevation := F64.of_Z 30;
       rotation_speed := F64.lit 5 10;
       zoom_speed := F64.of_Z 2;
       pan_speed := F64.lit 1 10 |}.

Definition rotate (self : Camera) (delta_azimuth delta_elevation : F64.t) : Camera :=
  let az := F64.add (azimuth self) (F64.mul delta_azimuth (rotation_speed self)) in
  let el := F64.add (elevation self) (F64.mul delta_elevation (rotation_speed self)) in
  let el := Np.clip el (F64.of_Z (-89)) (F64.of_Z 89) in
  update_position
    {| position := position self;
       target := target self;
       up := up self;
       distance := distance self;
       azimuth := az;
       elevation := el;
       rotation_speed := rotation_speed self;
       zoom_speed := zoom_speed self;
       pan_speed := pan_speed self |}.

Definition zoom (self : Camera) (delta : F64.t) : Camera :=
  let d := F64.mul (distance self)
             (F64.sub (F64.of_Z 1)
                (F64.mul (F64.mul delta (zoom_speed self)) (F64.lit 1 10))) in
  let d := F64.py_max (F64.of_Z 1) (F64.py_min d (F64.of_Z 1000)) in
  update_position
    {| position := position self;
       target := target self;
       up := up self;
       distance := d;
       azimuth := azimuth self;
       elevation := elevation self;
       rotation_speed := rotation_speed self;
       zoom_speed := zoom_speed self;
       pan_speed := pan_speed self |}.

(** A sequence of [rotate] calls, each with its two arguments, and a
    sequence of [zoom] calls. *)
Definition rotate_calls (self : Camera) (calls : list (F64.t * F64.t)) : Camera :=
  foldl (fun c d => rotate c d.1 d.2) self calls.

Definition zoom_calls (self : Camera) (deltas : list F64.t) : Camera :=
  foldl zoom self deltas.

Definition pan (self : Camera) (delta_x delta_y : F64.t) : Camera :=
  let forward := normalize (sub (target self) (position self)) in
  let right := normalize (cross forward (up self)) in
  let up' := cross right forward in
  let step (v : vec3) (d : F64.t) :=
    scale (scale (scale (scale v d) (pan_speed self)) (distance self)) (F64.lit 1 100) in
  let move := add (step right delta_x) (step up' delta_y) in
  update_position
    {| position := position self;
       target := add (target self) move;
       up := up self;
       distance := distance self;
       azimuth := azimuth self;
       elevation := elevation self;
       rotation_speed := rotation_speed self;
       zoom_speed := zoom_speed self;
       pan_speed := pan_speed self |}.

(** *** [class PointCloudRenderer]: input state and callbacks *)

(** The GLFW constants the callbacks compare with. *)
Definition RELEASE : Z := 0.
Definition PRESS : Z := 1.
Definition REPEAT : Z := 2.
Definition MOUSE_BUTTON_LEFT : Z := 0.
Definition MOUSE_BUTTON_RIGHT : Z := 1.
Definition KEY_ESCAPE : Z := 256.
Definition KEY_W : Z := 87.
Definition KEY_S : Z := 83.
Definition KEY_R : Z := 82.
Definition KEY_EQUAL : Z := 61.
Definition KEY_MINUS : Z := 45.
Definition KEY_KP_ADD : Z := 334.
Definition KEY_KP_SUBTRACT : Z := 333.

Record PointCloudRenderer := {
  width : Z;
  height : Z;
  camera : Camera;
  mouse_pressed : bool;
  last_mouse_x : F64.t;
  last_mouse_y : F64.t;
  mouse_button : option Z;
  points : option (list (F32.t * F32.t * F32.t));
  colors : option (list color);
  point_size : F64.t;
  window_should_close : bool;
}.

(** The renderer as [__init__] leaves it. *)
Definition new_renderer (w h : Z) : PointCloudRenderer :=
  {| width := w;
     height := h;
     camera := new_camera None None;
     mouse_pressed := false;
     last_mouse_x := F64.of_Z 0;
     last_mouse_y := F64.of_Z 0;
     mouse_button := None;
     points := None;
     colors := None;
     point_size := F64.of_Z 2;
     window_should_close := false |}.

Definition set_camera (self : PointCloudRenderer) (c : Camera) : PointCloudRenderer :=
  {| width := width self;
     height := height self;
     camera := c;
     mouse_pressed := mouse_pressed self;
     last_mouse_x := last_mouse_x self;
     last_mouse_y := last_mouse_y self;
     mouse_button := mouse_button self;
     points := points self;
     colors := colors self;
     point_size := point_size self;
     window_should_close := window_should_close self |}.

Definition set_mouse (self : PointCloudRenderer) (pressed : bool)
    (button : option Z) (x y : F64.t) : PointCloudRenderer :=
  {| width := width self;
     height := height self;
     camera := camera self;
     mouse_pressed := pressed;
     last_mouse_x := x;
     last_mouse_y := y;
     mouse_button := button;
     points := points self;
     colors := colors self;
     point_size := point_size self;
     window_should_close := window_should_close self |}.

Definition set_point_size (self : PointCloudRenderer) (s : F64.t) : PointCloudRenderer :=
  {| width := width self;
     height := height self;
     camera := camera self;
     mouse_pressed := mouse_pressed self;
     last_mouse_x := last_mouse_x self;
     last_mouse_y := last_mouse_y self;
     mouse_button := mouse_button self;
     points := points self;
     colors := colors self;
     point_size := s;
     window_should_close := window_should_close self |}.

Definition set_should_close (self : PointCloudRenderer) : PointCloudRenderer :=
  {| width := width self;
     height := height self;
     camera := camera self;
     mouse_pressed := mouse_pressed self;
     last_mouse_x := last_mouse_x self;
     last_mouse_y := last_mouse_y self;
     mouse_button := mouse_button self;
     points := points self;
     colors := colors self;
     point_size := point_size self;
     window_should_close := true |}.

(** A call of a camera method, recorded with its arguments: each
    callback returns the new renderer together with the camera calls it
    made, in order. *)
Inductive camera_call :=
  | CallRotate (delta_azimuth delta_elevation : F64.t)
  | CallPan (delta_x delta_y : F64.t)
  | CallZoom (delta : F64.t).

(** [cursor] is what [glfw.get_cursor_pos(window)] returns during the
    callback. *)
Definition mouse_button_callback (self : PointCloudRenderer)
    (cursor : F64.t * F64.t) (button action : Z)
  : PointCloudRenderer * list camera_call :=
  if action =? PRESS then
    (set_mouse self true (Some button) cursor.1 cursor.2, [])
  else if action =? RELEASE then
    (set_mouse self false None (last_mouse_x self) (last_mouse_y self), [])
  else (self, []).

Definition mouse_move_callback (self : PointCloudRenderer) (xpos ypos : F64.t)
  : PointCloudRenderer * list camera_call :=
  if mouse_pressed self then
    let dx := F64.sub xpos (last_mouse_x self) in
    let dy := F64.sub ypos (last_mouse_y self) in
    let '(c, calls) :=
      if bool_decide (mouse_button self = Some MOUSE_BUTTON_LEFT) then
        (rotate (camera self) dx (F64.neg dy), [CallRotate dx (F64.neg dy)])
      else if bool_decide (mouse_button self = Some MOUSE_BUTTON_RIGHT) then
        (pan (camera self) (F64.neg dx) dy, [CallPan (F64.neg dx) dy])
      else (camera self, []) in
    (set_mouse (set_camera self c) (mouse_pressed self) (mouse_button self) xpos ypos,
     calls)
  else (self, []).

Definition scroll_callback (self : PointCloudRenderer) (xoffset yoffset : F64.t)
  : PointCloudRenderer * list camera_call :=
  (set_camera self (zoom (camera self) (F64.neg yoffset)),
   [CallZoom (F64.neg yoffset)]).

Definition key_callback (self : PointCloudRenderer) (key action : Z)
  : PointCloudRenderer * list camera_call :=
  if (action =? PRESS) || (action =? REPEAT) then
    if key =? KEY_ESCAPE then (set_should_close self, [])
    else if key =? KEY_W then
      (set_camera self (zoom (camera self) (F64.of_Z 1)), [CallZoom (F64.of_Z 1)])
    else if key =? KEY_S then
      (set_camera self (zoom (camera self) (F64.of_Z (-1))), [CallZoom (F64.of_Z (-1))])
    else if (key =? KEY_EQUAL) || (key =? KEY_KP_ADD) then
      (set_point_size self
         (F64.py_min (F64.add (point_size self) (F64.lit 5 10)) (F64.of_Z 10)), [])
    else if (key =? KEY_MINUS) || (key =? KEY_KP_SUBTRACT) then
      (set_point_size self
         (F64.py_max (F64.sub (point_size self) (F64.lit 5 10)) (F64.of_Z 1)), [])
    else if key =? KEY_R then (set_camera self (new_camera None None), [])
    else (self, [])
  else (self, []).

(** The input events GLFW delivers, and the callback each one runs. *)
Inductive event :=
  | MouseButton (cursor : F64.t * F64.t) (button action : Z)
  | CursorPos (xpos ypos : F64.t)
  | Scroll (xoffset yoffset : F64.t)
  | Key (key action : Z).

Definition handle (self : PointCloudRenderer) (ev : event)
  : PointCloudRenderer * list camera_call :=
  match ev with
  | MouseButton cursor button action => mouse_button_callback self cursor button action
  | CursorPos x y => mouse_move_callback self x y
  | Scroll x y => scroll_callback self x y
  | Key key action => key_callback self key action
  end.

Fixpoint poll_events (self : PointCloudRenderer) (evs : list event)
  : PointCloudRenderer * list camera_call :=
  match evs with
  | [] => (self, [])
  | ev :: rest =>
      let '(r, calls) := handle self ev in
      let '(r', calls') := poll_events r rest in
      (r', calls ++ calls')
  end.

(** *** [height_colormap] and [load_points] *)

(** The three [np.clip(...)] expressions, for one normalized height. *)
Definition colormap_rgb (n : F64.t) : F64.t * F64.t * F64.t :=
  let zero := F64.of_Z 0 in
  let one := F64.of_Z 1 in
  let half := F64.lit 5 10 in
  let k := F64.lit 15 10 in
  (Np.clip (F64.sub (F64.mul k n) half) zero one,
   Np.clip (F64.add (F64.mul (F64.of_Z (-2)) (F64.abs (F64.sub n half))) one) zero one,
   Np.clip (F64.sub (F64.mul k (F64.sub one n)) half) zero one).

Definition normalize_heights (heights : list F64.t) (h_min h_max : F64.t)
  : list F64.t :=
  if F64.gt h_max h_min
  then map (fun h => F64.div (F64.sub h h_min) (F64.sub h_max h_min)) heights
  else map (fun _ => F64.zero) heights.

Definition height_colormap (heights : list F64.t) : result (list color) :=
  h_min ← Np.amin heights;
  h_max ← Np.amax heights;
  let normalized := normalize_heights heights h_min h_max in
  Ok (map (fun n => Cityscape.store_f32 (colormap_rgb n)) normalized).

Definition astype_f32 (c : spec_float * spec_float * spec_float)
  : F32.t * F32.t * F32.t :=
  (F32.of_f64 c.1.1, F32.of_f64 c.1.2, F32.of_f64 c.2).

(** [bbox_size = points.max(axis=0) - points.min(axis=0)] and
    [max_dim = np.max(bbox_size)]. *)
Definition bbox_max_dim (pts : list point) : result F64.t :=
  b ← xyz_bounds pts;
  let bbox_size := [F64.sub b.1.1.2 b.1.1.1; F64.sub b.1.2.2 b.1.2.1;
                    F64.sub b.2.2 b.2.1] in
  Np.amax bbox_size.

Definition load_points (self : PointCloudRenderer) (pts : list point)
    (cols : option (list color)) : result PointCloudRenderer :=
  cols' ← match cols with
          | None => height_colormap (coords (fun p => p.2) pts)
          | Some c => Ok c
          end;
  let center := (Np.mean (coords (fun p => p.1.1) pts),
                 Np.mean (coords (fun p => p.1.2) pts),
                 Np.mean (coords (fun p => p.2) pts)) in
  max_dim ← bbox_max_dim pts;
  let c := camera self in
  let c' := update_position
    {| position := position c;
       target := vec3_of center.1.1 center.1.2 center.2;
       up := up c;
       distance := F64.mul max_dim (F64.lit 15 10);
       azimuth := azimuth c;
       elevation := elevation c;
       rotation_speed := rotation_speed c;
       zoom_speed := zoom_speed c;
       pan_speed := pan_speed c |} in
  Ok {| width := width self;
        height := height self;
        camera := c';
        mouse_pressed := mouse_pressed self;
        last_mouse_x := last_mouse_x self;
        last_mouse_y := last_mouse_y self;
        mouse_button := mouse_button self;
        points := Some (map astype_f32 pts);
        colors := Some (map astype_f32 cols');
        point_size := point_size self;
        window_should_close := window_should_close self |}.
End Trig.

(** *** Drawing: the OpenGL calls made, in order *)

Definition GL_POINTS : Z := 0.
Definition GL_LINES : Z := 1.
Definition GL_DEPTH_BUFFER_BIT : Z := 256.
Definition GL_COLOR_BUFFER_BIT : Z := 16384.
Definition GL_LESS : Z := 513.
Definition GL_SRC_ALPHA : Z := 770.
Definition GL_ONE_MINUS_SRC_ALPHA : Z := 771.
Definition GL_POINT_SMOOTH : Z := 2832.
Definition GL_DEPTH_TEST : Z := 2929.
Definition GL_BLEND : Z := 3042.
Definition GL_POINT_SMOOTH_HINT : Z := 3153.
Definition GL_NICEST : Z := 4354.
Definition GL_MODELVIEW : Z := 5888.
Definition GL_PROJECTION : Z := 5889.
Definition GL_VERSION : Z := 7938.

(** The calls, with their arguments as OpenGL receives them: a
    [GLfloat] is the Python number rounded to binary32, a [GLdouble] is the
    Python float itself.  [swap_buffers] is [glfw.swap_buffers]. *)
Inductive gl_call :=
  | glEnable (cap : Z)
  | glDepthFunc (func : Z)
  | glHint (target mode : Z)
  | glPointSize (size : F32.t)
  | glClearColor (r g b a : F32.t)
  | glBlendFunc (sfactor dfactor : Z)
  | glGetString (name : Z)
  | glViewport (x y w h : Z)
  | glClear (mask : Z)
  | glMatrixMode (mode : Z)
  | glLoadIdentity
  | gluPerspective (fovy aspect zNear zFar : F64.t)
  | glMultMatrixf (m : list F32.t)
  | glLineWidth (width : F32.t)
  | glBegin (mode : Z)
  | glColor3f (r g b : F32.t)
  | glVertex3f (x y z : F32.t)
  | glEnd
  | swap_buffers.

Definition setup_opengl (self : PointCloudRenderer) : list gl_call :=
  [glEnable GL_DEPTH_TEST;
   glDepthFunc GL_LESS;
   glEnable GL_POINT_SMOOTH;
   glHint GL_POINT_SMOOTH_HINT GL_NICEST;
   glPointSize (F32.of_f64 (point_size self));
   glClearColor (F32.of_f64 (F64.lit 1 10)) (F32.of_f64 (F64.lit 1 10))
     (F32.of_f64 (F64.lit 1 10)) (F32.of_f64 (F64.of_Z 1));
   glEnable GL_BLEND;
   glBlendFunc GL_SRC_ALPHA GL_ONE_MINUS_SRC_ALPHA].

(** The OpenGL calls of the [+] and [-] branches of [key_callback], which
    pass the new point size on; no other branch makes one. *)
Definition key_callback_gl (self : PointCloudRenderer) (key action : Z)
  : list gl_call :=
  if (action =? PRESS) || (action =? REPEAT) then
    if key =? KEY_ESCAPE then []
    else if key =? KEY_W then []
    else if key =? KEY_S then []
    else if (key =? KEY_EQUAL) || (key =? KEY_KP_ADD) then
      [glPointSize
         (F32.of_f64 (F64.py_min (F64.add (point_size self) (F64.lit 5 10))
                        (F64.of_Z 10)))]
    else if (key =? KEY_MINUS) || (key =? KEY_KP_SUBTRACT) then
      [glPointSize
         (F32.of_f64 (F64.py_max (F64.sub (point_size self) (F64.lit 5 10))
                        (F64.of_Z 1)))]
    else []
  else [].

Definition resize_callback (self : PointCloudRenderer) (w h : Z)
  : PointCloudRenderer * list gl_call :=
  ({| width := w;
      height := h;
      camera := camera self;
      mouse_pressed := mouse_pressed self;
      last_mouse_x := last_mouse_x self;
      last_mouse_y := last_mouse_y self;
      mouse_button := mouse_button self;
      points := points self;
      colors := colors self;
      point_size := point_size self;
      window_should_close := window_should_close self |},
   [glViewport 0 0 w h]).

(** [a / b] of two Python integers, [b] not zero: the binary64 number
    nearest to the quotient (window sizes are far below the integers whose
    quotient is beyond the binary64 range, where Python raises
    [OverflowError]). *)
Definition int_truediv (a b : Z) : F64.t :=
  let float_of n :=
    match n with
    | Z0 => S754_zero false
    | Zpos p => S754_finite false p 0
    | Zneg p => S754_finite true p 0
    end in
  F64.div (float_of a) (float_of b).

(** [setup_projection]: the calls made, and the exception that ends them
    if there is one.  The two matrix calls come before the division. *)
Definition setup_projection (self : PointCloudRenderer)
  : list gl_call * result unit :=
  let before := [glMatrixMode GL_PROJECTION; glLoadIdentity] in
  if height self =? 0 then (before, Raise ZeroDivisionError)
  else
    let aspect := int_truediv (width self) (height self) in
    (before ++ [gluPerspective (F64.of_Z 45) aspect (F64.lit 1 10) (F64.of_Z 10000)],
     Ok tt).

(** [render_points]: [zip] stops at the shorter of the two arrays. *)
Definition render_points (self : PointCloudRenderer) : list gl_call :=
  match points self, colors self with
  | Some ps, Some cs =>
      glBegin GL_POINTS
      :: flat_map (fun pc : (F32.t * F32.t * F32.t) * color =>
                     let '(point, color) := pc in
                     [glColor3f color.1.1 color.1.2 color.2;
                      glVertex3f point.1.1 point.1.2 point.2])
           (zip ps cs)
      ++ [glEnd]
  | _, _ => []
  end.

Definition render_axes (size : F64.t) : list gl_call :=
  let f := F32.of_f64 in
  let o := f (F64.of_Z 0) in
  let i := f (F64.of_Z 1) in
  [glLineWidth (f (F64.of_Z 2));
   glBegin GL_LINES;
   glColor3f i o o; glVertex3f o o o; glVertex3f (f size) o o;
   glColor3f o i o; glVertex3f o o o; glVertex3f o (f size) o;
   glColor3f o o i; glVertex3f o o o; glVertex3f o o (f size);
   glEnd;
   glLineWidth (f (F64.of_Z 1))].

Section View.
(** [np.array(glm.lookAt(position, target, up)).T.flatten().astype(np.float32)],
    the sixteen numbers handed to [glMultMatrixf]. *)
Variable view_array : vec3 -> vec3 -> vec3 -> list F32.t.

Definition setup_modelview (self : PointCloudRenderer) : list gl_call :=
  let c := camera self in
  [glMatrixMode GL_MODELVIEW;
   glLoadIdentity;
   glMultMatrixf (view_array (position c) (target c) (up c))].

(** [render]: one frame.  An exception in [setup_projection] ends the
    frame there. *)
Definition render (self : PointCloudRenderer) : list gl_call * result unit :=
  let clear := [glClear (Z.lor GL_COLOR_BUFFER_BIT GL_DEPTH_BUFFER_BIT)] in
  match setup_projection self with
  | (calls, Raise e) => (clear ++ calls, Raise e)
  | (calls, Ok _) =>
      (clear ++ calls ++ setup_modelview self ++ render_axes (F64.of_Z 5)
         ++ render_points self ++ [swap_buffers],
       Ok tt)
  end.
End View.
End Renderer.

(** ** [src/main.py], from "Create renderer" to the call of [run] *)

Module Main.
Section Trig.
Variables np_cos np_sin : F64.t -> F64.t.

(** The renderer as [main] hands it to [run], with the OpenGL calls made
    until then: the constructor sets OpenGL up (and asks for the version
    string), then [main] assigns [point_size] and loads the points. *)
Definition create_and_load (width height : Z) (point_size : F64.t)
    (points : list point) (colors : option (list color))
  : result (Renderer.PointCloudRenderer * list Renderer.gl_call) :=
  let renderer := Renderer.new_renderer np_cos np_sin width height in
  let calls := Renderer.setup_opengl renderer
               ++ [Renderer.glGetString Renderer.GL_VERSION] in
  let renderer := Renderer.set_point_size renderer point_size in
  renderer ← Renderer.load_points np_cos np_sin renderer points colors;
  Ok (renderer, calls).
End Trig.
End Main.

(** ** Vocabulary of the statements *)

(** Classes of floats. *)
Definition not_nan (x : spec_float) : Prop := x <> S754_nan.

Definition finite (x : spec_float) : Prop :=
  match x with
  | S754_zero _ | S754_finite _ _ _ => True
  | _ => False
  end.

Definition finite_nonzero (x : spec_float) : Prop :=
  match x with
  | S754_finite _ _ _ => True
  | _ => False
  end.

Definition is_zero (x : spec_float) : Prop :=
  match x with
  | S754_zero _ => True
  | _ => False
  end.

(** A float in the canonical form of binary64 (bounded mantissa and
    exponent), as every [float64] in memory is. *)
Definition valid64 (x : F64.t) : Prop := valid_binary F64.prec F64.emax x = true.

(** Not NaN, with sign bit [s]. *)
Definition signed (s : bool) (x : spec_float) : Prop :=
  match x with
  | S754_nan => False
  | S754_zero s' | S754_infinity s' | S754_finite s' _ _ => s' = s
  end.

Definition inf_or_nan (x : spec_float) : Prop :=
  x = S754_infinity false \/ x = S754_nan.

(** [lo <= x <= hi] and [lo < x < hi], as the floats compare. *)
Definition within (lo hi x : F64.t) : bool := F64.le lo x && F64.le x hi.
Definition strictly_within (lo hi x : F64.t) : bool := F64.lt lo x && F64.lt x hi.

(** An RGB triple with every component in [0, 1]. *)
Definition unit_rgb (c : spec_float * spec_float * spec_float) : bool :=
  within (F64.of_Z 0) (F64.of_Z 1) c.1.1
  && within (F64.of_Z 0) (F64.of_Z 1) c.1.2
  && within (F64.of_Z 0) (F64.of_Z 1) c.2.

(** A [float32] triple widened to [float64], the form in which its
    components compare with [float64] bounds. *)
Definition widen (c : color) : F64.t * F64.t * F64.t :=
  (F32.to_f64 c.1.1, F32.to_f64 c.1.2, F32.to_f64 c.2).

(** A point given by three integers, and by three decimal fractions. *)
Definition ipoint (x y z : Z) : point := (F64.of_Z x, F64.of_Z y, F64.of_Z z).
Definition dpoint (x y z d : Z) : point := (F64.lit x d, F64.lit y d, F64.lit z d).

(** The optional colour array is index-aligned with the points. *)
Definition aligned {A C} (points : list A) (colors : option (list C)) : Prop :=
  match colors with
  | Some c => length c = length points
  | None => True
  end.

(** Strict lexicographic order of voxel rows. *)
Definition row_lt (a b : Np.row) : Prop := Np.row_compare a b = Lt.

(** The integer part of a float, rounded down; an infinity and NaN have
    none. *)
Definition floor_Z (x : F64.t) : option Z :=
  match x with
  | S754_zero _ => Some 0
  | S754_finite s m e =>
      Some (if 0 <=? e then cond_Zopp s (Zpos m) * 2 ^ e
            else cond_Zopp s (Zpos m) / 2 ^ (- e))
  | _ => None
  end.

(** The voxel key of the specification: the integers
    floor(coordinate / voxel_size) of the three axes, with no cast to a
    machine integer. *)
Definition voxel_key (voxel_size : F64.t) (p : point) : option Np.row :=
  x ← floor_Z (F64.div p.1.1 voxel_size);
  y ← floor_Z (F64.div p.1.2 voxel_size);
  z ← floor_Z (F64.div p.2 voxel_size);
  Some (x, y, z).

(** An integer that an [int32] holds, and a cloud all of whose points have
    a voxel key of three such integers. *)
Definition int32 (n : Z) : Prop := Np.int32_min <= n <= Np.int32_max.

Definition int32_voxels (voxel_size : F64.t) (points : list point) : Prop :=
  Forall (fun p => exists k, voxel_key voxel_size p = Some k
                             /\ int32 k.1.1 /\ int32 k.1.2 /\ int32 k.2)
    points.

(** The order of the records [np.unique] sorts: by row, and among equal
    rows by the index in the input. *)
Definition rec_lt (x y : Np.row * nat) : Prop :=
  row_lt x.1 y.1 \/ (x.1 = y.1 /\ (x.2 < y.2)%nat).

(** [out] holds the elements of [a] at the indices [idx], in that order. *)
Definition picked {A} (a : list A) (idx : list nat) (out : list A) : Prop :=
  Forall2 (fun i x => a !! i = Some x) idx out.

Definition picked_opt {A} (a : option (list A)) (idx : list nat)
    (out : option (list A)) : Prop :=
  match a, out with
  | Some a', Some out' => picked a' idx out'
  | None, None => True
  | _, _ => False
  end.

(** The voxel dedup the specification words describe: walk the points in
    index order and keep a point when its voxel key has not been seen, so
    the output is in first-seen order. *)
Fixpoint first_seen_from (seen : list Np.row) (voxel_size : F64.t)
    (points : list point) : list point :=
  match points with
  | [] => []
  | p :: rest =>
      let k := Loader.voxel_index voxel_size p in
      if decide (k ∈ seen) then first_seen_from seen voxel_size rest
      else p :: first_seen_from (k :: seen) voxel_size rest
  end.

Definition first_seen_dedup (points : list point) (voxel_size : F64.t) : list point :=
  first_seen_from [] voxel_size points.

(** Stand-ins used only where a statement is evaluated on concrete input:
    truncated Taylor series for the cosine and sine of the mathematical
    library, and a draw that returns the first [m] indices.  Every general
    statement below holds for all functions in their place. *)
Definition taylor_cos (x : F64.t) : F64.t :=
  let x2 := F64.mul x x in
  F64.add (F64.sub (F64.of_Z 1) (F64.div x2 (F64.of_Z 2)))
          (F64.div (F64.mul x2 x2) (F64.of_Z 24)).

Definition taylor_sin (x : F64.t) : F64.t :=
  let x3 := F64.mul (F64.mul x x) x in
  F64.sub x (F64.div x3 (F64.of_Z 6)).

Definition draw_first (n m : nat) : list nat := seq 0 m.

(** The default camera and a fresh renderer under the stand-ins. *)
Definition camera0 : Renderer.Camera :=
  Renderer.new_camera taylor_cos taylor_sin None None.

Definition renderer0 : Renderer.PointCloudRenderer :=
  Renderer.new_renderer taylor_cos taylor_sin 1920 1080.

(** A one-point file that has both stored colours (pure blue) and a
    classification (building). *)
Definition blue_building : LasData :=
  {| las_xyz := [ipoint 0 0 0];
     las_rgb := Some [(0, 0, 65535)];
     las_classification := Some [6];
     las_name := "tile.las";
     las_version := "1.2" |}.

(** [las] with its stored colour channels removed. *)
Definition without_rgb (las : LasData) : LasData :=
  {| las_xyz := las_xyz las;
     las_rgb := None;
     las_classification := las_classification las;
     las_name := las_name las;
     las_version := las_version las |}.

(** What [np.random.choice(n, m, replace=False)] returns when [m <= n]:
    [m] distinct indices below [n]. *)
Definition valid_choice (random_choice : nat -> nat -> list nat) : Prop :=
  forall n m, (m <= n)%nat ->
    length (random_choice n m) = m
    /\ Forall (fun i => (i < n)%nat) (random_choice n m)
    /\ NoDup (random_choice n m).

(** [las] with its classification channel removed. *)
Definition without_classification (las : LasData) : LasData :=
  {| las_xyz := las_xyz las;
     las_rgb := las_rgb las;
     las_classification := None;
     las_name := las_name las;
     las_version := las_version las |}.

(** A file without points. *)
Definition empty_tile : LasData :=
  {| las_xyz := [];
     las_rgb := None;
     las_classification := None;
     las_name := "empty.las";
     las_version := "1.2" |}.

(** The renderer states reached through the renderer's own code: the one
    the constructor leaves, and every state reached from it by an input
    event or by a successful [load_points].  The assignment
    [renderer.point_size = args.point_size] of [main] is not one of these
    steps; it is [Main.create_and_load] that models it. *)
Inductive reachable (np_cos np_sin : F64.t -> F64.t)
  : Renderer.PointCloudRenderer -> Prop :=
  | reach_new w h :
      reachable np_cos np_sin (Renderer.new_renderer np_cos np_sin w h)
  | reach_event r ev :
      reachable np_cos np_sin r ->
      reachable np_cos np_sin (Renderer.handle np_cos np_sin r ev).1
  | reach_load r pts cols r' :
      reachable np_cos np_sin r ->
      Renderer.load_points np_cos np_sin r pts cols = Ok r' ->
      reachable np_cos np_sin r'.

(** The point sizes 1.0, 1.5, 2.0, ..., 10.0. *)
Definition point_sizes : list F64.t :=
  map (fun k => F64.lit k 2) (seqZ 2 19).

(** The binary64 numbers that the literals [0.0], [0.1], ..., [0.9] denote,
    by their bits: [0.9] is [0x1.ccccccccccccdp-1]. *)
Definition tenth (k : Z) : F64.t :=
  match k with
  | 0 => S754_zero false
  | 1 => S754_finite false 7205759403792794 (-56)
  | 2 => S754_finite false 7205759403792794 (-55)
  | 3 => S754_finite false 5404319552844595 (-54)
  | 4 => S754_finite false 7205759403792794 (-54)
  | 5 => S754_finite false 4503599627370496 (-53)
  | 6 => S754_finite false 5404319552844595 (-53)
  | 7 => S754_finite false 6305039478318694 (-53)
  | 8 => S754_finite false 7205759403792794 (-53)
  | 9 => S754_finite false 8106479329266893 (-53)
  | _ => S754_nan
  end.

(** An ESC key press or repeat. *)
Definition is_escape (ev : Renderer.event) : bool :=
  match ev with
  | Renderer.Key key action =>
      (key =? Renderer.KEY_ESCAPE)
      && ((action =? Renderer.PRESS) || (action =? Renderer.REPEAT))
  | _ => false
  end.

(** What a sequence of OpenGL calls draws: every [glVertex3f] emits its
    vertex in the colour that is current, and [glColor3f] changes the
    current colour. *)
Fixpoint drawn (current : color) (calls : list Renderer.gl_call)
  : list ((F32.t * F32.t * F32.t) * color) :=
  match calls with
  | [] => []
  | Renderer.glColor3f r g b :: rest => drawn (r, g, b) rest
  | Renderer.glVertex3f x y z :: rest => ((x, y, z), current) :: drawn current rest
  | _ :: rest => drawn current rest
  end.

(** The two ends of the height colour ramp, as [float32] triples. *)
Definition pure_blue : color := (F64.zero, F64.zero, F32.one).
Definition pure_red : color := (F32.one, F64.zero, F64.zero).

(** A three-point file with stored colours and a classification; at a
    voxel size of 0.05 its first two points share a voxel. *)
Definition small_tile : LasData :=
  {| las_xyz := [ipoint 0 0 0; dpoint 1 1 1 100; ipoint 10 0 0];
     las_rgb := Some [(65535, 0, 0); (0, 65535, 0); (0, 0, 65535)];
     las_classification := Some [2; 2; 6];
     las_name := "small.las";
     las_version := "1.2" |}.

(** A fresh renderer after [load_points] of the points of [small_tile],
    without colours. *)
Definition loaded0 : Renderer.PointCloudRenderer :=
  match Renderer.load_points taylor_cos taylor_sin renderer0 (las_xyz small_tile) None with
  | Ok r => r
  | Raise _ => renderer0
  end.

(** The point size OpenGL has after a sequence of calls: the argument of
    the last [glPointSize], if there is one. *)
Definition gl_point_size (calls : list Renderer.gl_call) : option F32.t :=
  last (omap (fun c => match c with
                       | Renderer.glPointSize size => Some size
                       | _ => None
                       end) calls).

(** What [render_axes] draws with its default size: three lines from the
    origin, 5 units long, in red, green and blue. *)
Definition axes_drawn : list ((F32.t * F32.t * F32.t) * color) :=
  let o := F32.of_f64 (F64.of_Z 0) in
  let i := F32.of_f64 (F64.of_Z 1) in
  let s := F32.of_f64 (F64.of_Z 5) in
  [((o, o, o), (i, o, o)); ((s, o, o), (i, o, o));
   ((o, o, o), (o, i, o)); ((o, s, o), (o, i, o));
   ((o, o, o), (o, o, i)); ((o, o, s), (o, o, i))].

(** Stand-in for the view matrix where a statement is evaluated on
    concrete input: the identity matrix. *)
Definition identity_view (_ _ _ : Glm.vec3) : list F32.t :=
  let o := F32.of_f64 (F64.of_Z 0) in
  let i := F32.of_f64 (F64.of_Z 1) in
  [i; o; o; o;  o; i; o; o;  o; o; i; o;  o; o; o; i].

(** What [main] hands to [run] for the points of [small_tile], a window
    of 1920 by 1080 and [--point-size 5]. *)
Definition viewed0 : Renderer.PointCloudRenderer * list Renderer.gl_call :=
  match Main.create_and_load taylor_cos taylor_sin 1920 1080 (F64.of_Z 5)
          (las_xyz small_tile) None with
  | Ok rc => rc
  | Raise _ => (renderer0, [])
  end.

(** A vector whose three components are zeros (of either sign), and the
    vector of three NaN. *)
Definition zero_vector (v : Glm.vec3) : Prop :=
  is_zero (Glm.vx v) /\ is_zero (Glm.vy v) /\ is_zero (Glm.vz v).

Definition nan_vector : Glm.vec3 := Glm.Vec3 F64.nan F64.nan F64.nan.

(** A fresh renderer after [load_points] of a single point. *)
Definition loaded_one : Renderer.PointCloudRenderer :=
  match Renderer.load_points taylor_cos taylor_sin renderer0 [ipoint 1 2 3] None with
  | Ok r => r
  | Raise _ => renderer0
  end.

(** * Properties *)

(** * Facts about the rounding of [SpecFloat] *)

Section Rounding.
Variables prec emax : Z.

Lemma iter_pos_invariant {A} (P : A -> Prop) (f : A -> A) :
  (forall a, P a -> P (f a)) -> forall n a, P a -> P (SpecFloat.iter_pos f n a).
Proof.
  intros Hf n. induction n as [n IH|n IH|]; intros a Ha; simpl; auto.
Qed.

Lemma shr_1_nonneg mrs : 0 <= shr_m mrs -> 0 <= shr_m (shr_1 mrs).
Proof.
  destruct mrs as [m r s]. simpl.
  destruct m as [|p|p]; [easy| |lia].
  destruct p; simpl; lia.
Qed.

Lemma shr_nonneg mrs e n : 0 <= shr_m mrs -> 0 <= shr_m (shr mrs e n).1.
Proof.
  intros H. destruct n; simpl; auto.
  apply (iter_pos_invariant (fun r => 0 <= shr_m r)); auto using shr_1_nonneg.
Qed.

Lemma shr_fexp_nonneg m e l : 0 <= m -> 0 <= shr_m (shr_fexp prec emax m e l).1.
Proof.
  intros H. unfold shr_fexp. apply shr_nonneg.
  destruct l as [|[]]; simpl; auto.
Qed.

Lemma round_nearest_even_nonneg m l : 0 <= m -> 0 <= round_nearest_even m l.
Proof.
  intros H. destruct l as [|[]]; simpl; try lia.
  destruct (Z.even m); lia.
Qed.

Lemma binary_round_aux_signed sx mx ex lx :
  0 <= mx -> signed sx (binary_round_aux prec emax sx mx ex lx).
Proof.
  intros H. unfold binary_round_aux.
  pose proof (shr_fexp_nonneg mx ex lx H) as H1.
  destruct (shr_fexp prec emax mx ex lx) as [mrs' e'].
  pose proof (shr_fexp_nonneg
                (round_nearest_even (shr_m mrs') (loc_of_shr_record mrs'))
                e' loc_Exact (round_nearest_even_nonneg _ _ H1)) as H2.
  destruct (shr_fexp prec emax _ e' loc_Exact) as [mrs'' e''].
  simpl in H2. destruct (shr_m mrs'') as [|p|p]; simpl; auto; try lia.
  destruct (e'' <=? emax - prec); simpl; auto.
Qed.

Lemma binary_round_signed sx mx ex : signed sx (binary_round prec emax sx mx ex).
Proof.
  unfold binary_round.
  destruct (shl_align mx ex _) as [mz ez].
  apply binary_round_aux_signed. lia.
Qed.

Lemma signed_not_nan s x : signed s x -> not_nan x.
Proof. destruct x; simpl; unfold not_nan; congruence. Qed.

Lemma binary_normalize_not_nan m e sz : not_nan (binary_normalize prec emax m e sz).
Proof.
  destruct m; simpl; [discriminate| |];
    eapply signed_not_nan, binary_round_signed.
Qed.

(** Sign of an integer converted to a float. *)
Lemma binary_normalize_nonneg m e : 0 <= m -> signed false (binary_normalize prec emax m e false).
Proof.
  destruct m; simpl; intros; [reflexivity| apply binary_round_signed | lia].
Qed.
(** ** Operations that cannot produce NaN *)

Lemma SFadd_not_nan x y :
  finite x -> not_nan y -> not_nan (SFadd prec emax x y).
Proof.
  destruct x as [sx|sx| |sx mx ex], y as [sy|sy| |sy my ey];
    simpl; try easy; intros _ _.
  - destruct sx, sy; discriminate.
  - apply binary_normalize_not_nan.
Qed.

Lemma SFsub_not_nan x y :
  finite x -> not_nan y -> not_nan (SFsub prec emax x y).
Proof.
  destruct x as [sx|sx| |sx mx ex], y as [sy|sy| |sy my ey];
    simpl; try easy; intros _ _.
  - destruct sx, sy; discriminate.
  - apply binary_normalize_not_nan.
Qed.

Lemma SFsub_not_nan_r x y :
  not_nan x -> finite y -> not_nan (SFsub prec emax x y).
Proof.
  destruct x as [sx|sx| |sx mx ex], y as [sy|sy| |sy my ey];
    simpl; try easy; intros _ _.
  - destruct sx, sy; discriminate.
  - apply binary_normalize_not_nan.
Qed.

Lemma SFadd_not_nan_r x y :
  not_nan x -> finite y -> not_nan (SFadd prec emax x y).
Proof.
  destruct x as [sx|sx| |sx mx ex], y as [sy|sy| |sy my ey];
    simpl; try easy; intros _ _.
  - destruct sx, sy; discriminate.
  - apply binary_normalize_not_nan.
Qed.

Lemma SFmul_not_nan x y :
  not_nan x -> finite_nonzero y -> not_nan (SFmul prec emax x y).
Proof.
  destruct x as [sx|sx| |sx mx ex], y as [sy|sy| |sy my ey];
    simpl; try easy; intros _ _.
  eapply signed_not_nan, binary_round_aux_signed. lia.
Qed.

Lemma SFmul_not_nan_l x y :
  finite_nonzero x -> not_nan y -> not_nan (SFmul prec emax x y).
Proof.
  destruct x as [sx|sx| |sx mx ex], y as [sy|sy| |sy my ey];
    simpl; try easy; intros _ _.
  eapply signed_not_nan, binary_round_aux_signed. lia.
Qed.

Lemma SFdiv_core_binary_nonneg m1 e1 m2 e2 :
  0 <= (SFdiv_core_binary prec emax (Zpos m1) e1 (Zpos m2) e2).1.1.
Proof.
  unfold SFdiv_core_binary.
  set (s := _ - _ - _).
  set (m' := match s with Z0 => _ | Zpos _ => _ | Zneg _ => _ end).
  assert (Hm : 0 <= m').
  { subst m'. destruct s; try lia. apply Z.shiftl_nonneg. lia. }
  pose proof (Z.div_eucl_eq m' (Zpos m2) ltac:(lia)) as Heq.
  pose proof (Z.mod_pos_bound m' (Zpos m2) ltac:(lia)) as Hr.
  unfold Z.modulo in Hr.
  destruct (Z.div_eucl m' (Z.pos m2)) as [q r]. simpl. nia.
Qed.

Lemma SFdiv_not_nan x y :
  not_nan x -> finite_nonzero y -> not_nan (SFdiv prec emax x y).
Proof.
  destruct x as [sx|sx| |sx mx ex], y as [sy|sy| |sy my ey];
    simpl; try easy; intros _ _.
  pose proof (SFdiv_core_binary_nonneg mx ex my ey) as H.
  destruct (SFdiv_core_binary prec emax _ ex _ ey) as [[mz ez] lz].
  eapply signed_not_nan, binary_round_aux_signed. exact H.
Qed.

Lemma SFabs_not_nan x : not_nan x -> not_nan (SFabs x).
Proof. destruct x; simpl; easy. Qed.
End Rounding.

(** ** Comparison *)

Lemma SFcompare_antisym x y :
  SFcompare y x = CompOpp <$> SFcompare x y.
Proof.
  destruct x as [sx|sx| |sx mx ex], y as [sy|sy| |sy my ey];
    simpl; try reflexivity; try (destruct sx; reflexivity);
    try (destruct sy; reflexivity); try (destruct sx, sy; reflexivity).
  f_equal.
  destruct sx, sy; simpl; try reflexivity;
    rewrite (Z.compare_antisym ex ey), !Pos.compare_cont_spec;
    rewrite (Pos.compare_antisym mx my);
    destruct (ex ?= ey); simpl; try reflexivity;
    destruct (mx ?= my)%positive; reflexivity.
Qed.

Lemma SFcompare_None x y :
  SFcompare x y = None -> x = S754_nan \/ y = S754_nan.
Proof.
  destruct x as [sx|sx| |sx mx ex], y as [sy|sy| |sy my ey];
    simpl; auto; discriminate.
Qed.

Lemma SFltb_false_SFleb x y :
  x <> S754_nan -> y <> S754_nan -> SFltb x y = false -> SFleb y x = true.
Proof.
  unfold SFltb, SFleb. intros Hx Hy. rewrite (SFcompare_antisym x y).
  destruct (SFcompare x y) as [[]|] eqn:E; simpl; try easy.
  apply SFcompare_None in E. tauto.
Qed.

Lemma SFltb_SFleb x y : SFltb x y = true -> SFleb x y = true.
Proof. unfold SFltb, SFleb. destruct (SFcompare x y) as [[]|]; easy. Qed.

Lemma SFltb_not_nan_l x y : SFltb x y = true -> x <> S754_nan.
Proof. intros H ->. discriminate. Qed.

Lemma SFltb_not_nan_r x y : SFltb x y = true -> y <> S754_nan.
Proof. intros H ->. destruct x; discriminate. Qed.

Lemma SFleb_not_nan_l x y : SFleb x y = true -> x <> S754_nan.
Proof. intros H ->. discriminate. Qed.

Lemma SFleb_not_nan_r x y : SFleb x y = true -> y <> S754_nan.
Proof. intros H ->. destruct x; discriminate. Qed.

(** * Digits and shifts *)

Lemma digits2_pos_bounds p :
  2 ^ (Zpos (digits2_pos p) - 1) <= Zpos p < 2 ^ Zpos (digits2_pos p).
Proof.
  induction p as [p IH|p IH|]; simpl digits2_pos.
  - rewrite Pos2Z.inj_succ.
    replace (Z.succ (Zpos (digits2_pos p)) - 1) with (Z.succ (Zpos (digits2_pos p) - 1)) by lia.
    rewrite !Z.pow_succ_r by lia. lia.
  - rewrite Pos2Z.inj_succ.
    replace (Z.succ (Zpos (digits2_pos p)) - 1) with (Z.succ (Zpos (digits2_pos p) - 1)) by lia.
    rewrite !Z.pow_succ_r by lia. lia.
  - simpl. lia.
Qed.

Lemma Zdigits2_bounds m :
  0 < m -> 0 < Zdigits2 m /\ 2 ^ (Zdigits2 m - 1) <= m < 2 ^ Zdigits2 m.
Proof.
  destruct m as [|p|p]; try lia. intros _. simpl.
  split; [lia|apply digits2_pos_bounds].
Qed.

Lemma Zdigits2_unique m d :
  2 ^ (d - 1) <= m < 2 ^ d -> 0 < m -> Zdigits2 m = d.
Proof.
  intros [H1 H2] Hm.
  destruct (Zdigits2_bounds m Hm) as (HD & B1 & B2).
  set (D := Zdigits2 m) in *.
  assert (0 < d).
  { destruct (Z.lt_trichotomy d 0) as [Hc|[Hc|Hc]]; try lia.
    - rewrite Z.pow_neg_r in H2; lia.
    - subst d. simpl in H2. lia. }
  destruct (Z.lt_trichotomy D d) as [Hc|[Hc|Hc]]; [|exact Hc|].
  - assert (2 ^ D <= 2 ^ (d - 1)) by (apply Z.pow_le_mono_r; lia). lia.
  - assert (2 ^ d <= 2 ^ (D - 1)) by (apply Z.pow_le_mono_r; lia). lia.
Qed.

Lemma Zdigits2_shr m n :
  0 < m -> 0 <= n < Zdigits2 m ->
  0 < m / 2 ^ n /\ Zdigits2 (m / 2 ^ n) = Zdigits2 m - n.
Proof.
  intros Hm Hn. destruct (Zdigits2_bounds m Hm) as (HD & B1 & B2).
  set (D := Zdigits2 m) in *.
  assert (Hp : 0 < 2 ^ n) by (apply Z.pow_pos_nonneg; lia).
  assert (E1 : 2 ^ (D - 1) = 2 ^ (D - n - 1) * 2 ^ n)
    by (rewrite <- Z.pow_add_r by lia; f_equal; lia).
  assert (E2 : 2 ^ D = 2 ^ (D - n) * 2 ^ n)
    by (rewrite <- Z.pow_add_r by lia; f_equal; lia).
  assert (L : 2 ^ (D - n - 1) <= m / 2 ^ n) by (apply Z.div_le_lower_bound; lia).
  assert (U : m / 2 ^ n < 2 ^ (D - n)) by (apply Z.div_lt_upper_bound; lia).
  assert (0 < 2 ^ (D - n - 1)) by (apply Z.pow_pos_nonneg; lia).
  split; [lia|]. apply Zdigits2_unique; [|lia]. split; [exact L|exact U].
Qed.

Lemma shr_all m n : 0 < m -> Zdigits2 m <= n -> m / 2 ^ n = 0.
Proof.
  intros Hm Hn. destruct (Zdigits2_bounds m Hm) as (HD & B1 & B2).
  apply Z.div_small. split; [lia|].
  assert (2 ^ Zdigits2 m <= 2 ^ n) by (apply Z.pow_le_mono_r; lia). lia.
Qed.

(** Adding one to a mantissa keeps the number of digits, unless the result
    is a power of two. *)
Lemma Zdigits2_succ m :
  0 < m ->
  Zdigits2 (m + 1) = Zdigits2 m
  \/ (m + 1 = 2 ^ Zdigits2 m /\ Zdigits2 (m + 1) = Zdigits2 m + 1).
Proof.
  intros Hm. destruct (Zdigits2_bounds m Hm) as (HD & B1 & B2).
  destruct (Z.eq_dec (m + 1) (2 ^ Zdigits2 m)) as [E|NE].
  - right. split; [exact E|]. apply Zdigits2_unique; [|lia].
    replace (Zdigits2 m + 1 - 1) with (Zdigits2 m) by lia.
    rewrite Z.pow_add_r by lia. lia.
  - left. apply Zdigits2_unique; lia.
Qed.

Lemma Zdigits2_pow2 d : 0 <= d -> Zdigits2 (2 ^ d) = d + 1.
Proof.
  intros Hd. assert (0 < 2 ^ d) by (apply Z.pow_pos_nonneg; lia).
  apply Zdigits2_unique; [|lia].
  replace (d + 1 - 1) with d by lia. rewrite Z.pow_add_r by lia. lia.
Qed.

Lemma round_nearest_even_bounds m l :
  m <= round_nearest_even m l <= m + 1.
Proof. destruct l as [|[]]; simpl; try lia. destruct (Z.even m); lia. Qed.

Lemma Zdigits2_shl m k :
  0 < m -> 0 <= k -> Zdigits2 (m * 2 ^ k) = Zdigits2 m + k.
Proof.
  intros Hm Hk. destruct (Zdigits2_bounds m Hm) as (HD & B1 & B2).
  assert (0 < 2 ^ k) by (apply Z.pow_pos_nonneg; lia).
  apply Zdigits2_unique; [|nia].
  replace (Zdigits2 m + k - 1) with (Zdigits2 m - 1 + k) by lia.
  rewrite !Z.pow_add_r by lia. nia.
Qed.

Lemma iter_xO_pow m d : Zpos (Pos.iter xO m d) = Zpos m * 2 ^ Zpos d.
Proof.
  induction d as [|d IH] using Pos.peano_ind.
  - simpl. lia.
  - rewrite Pos.iter_succ, Pos2Z.inj_xO, IH, Pos2Z.inj_succ, Z.pow_succ_r by lia. lia.
Qed.

Lemma shr_1_half mrs : 0 <= shr_m mrs -> shr_m (shr_1 mrs) = shr_m mrs / 2.
Proof.
  destruct mrs as [m r s]. cbn [shr_m]. intros H.
  destruct m as [|[p|p|]|p]; cbn [shr_1 shr_m]; try reflexivity; try lia.
  - apply (Z.div_unique (Zpos p~1) 2 (Zpos p) 1); lia.
  - apply (Z.div_unique (Zpos p~0) 2 (Zpos p) 0); lia.
Qed.

Lemma iter_shr_1_div n : forall mrs, 0 <= shr_m mrs ->
  shr_m (SpecFloat.iter_pos shr_1 n mrs) = shr_m mrs / 2 ^ Zpos n.
Proof.
  assert (Hpow : forall k, 0 < 2 ^ Zpos k) by (intros; now apply Z.pow_pos_nonneg).
  assert (Hdd : forall a b c, 0 < b -> 0 < c -> a / b / c = a / (b * c))
    by (intros; apply Z.div_div; lia).
  induction n as [n IH|n IH|]; intros mrs H; cbn [SpecFloat.iter_pos].
  - assert (H1 : 0 <= shr_m (shr_1 mrs)) by (rewrite shr_1_half by lia; apply Z.div_pos; lia).
    assert (H2 : 0 <= shr_m (SpecFloat.iter_pos shr_1 n (shr_1 mrs)))
      by (rewrite IH by lia; apply Z.div_pos; [lia|apply Hpow]).
    rewrite IH, IH, shr_1_half by lia.
    rewrite !Hdd by (try apply Hpow; try lia; pose proof (Hpow n); nia).
    f_equal. replace (Zpos n~1) with (Zpos n + Zpos n + 1) by lia.
    rewrite !Z.pow_add_r by lia. lia.
  - assert (H2 : 0 <= shr_m (SpecFloat.iter_pos shr_1 n mrs))
      by (rewrite IH by lia; apply Z.div_pos; [lia|apply Hpow]).
    rewrite IH, IH by lia.
    rewrite Hdd by apply Hpow.
    f_equal. replace (Zpos n~0) with (Zpos n + Zpos n) by lia.
    rewrite !Z.pow_add_r by lia. lia.
  - rewrite shr_1_half by lia. reflexivity.
Qed.

(** * What rounding returns *)

Section RoundSpec.
Variables prec emax : Z.
Hypothesis prec_pos : 0 < prec.

(** The arithmetic of [binary_round_aux] on an aligned input: [m1] is the
    shifted mantissa, [m2] its rounding, [m3], [e3] the result. *)
Lemma round_core mx ex m2 :
  0 < mx -> ex <= fexp prec emax (Zdigits2 mx + ex) ->
  mx / 2 ^ (fexp prec emax (Zdigits2 mx + ex) - ex) <= m2
    <= mx / 2 ^ (fexp prec emax (Zdigits2 mx + ex) - ex) + 1 ->
  0 < m2 ->
  let f := fexp prec emax (Zdigits2 mx + ex) in
  let n2 := Z.max 0 (fexp prec emax (Zdigits2 m2 + f) - f) in
  0 < m2 / 2 ^ n2
  /\ fexp prec emax (Zdigits2 (m2 / 2 ^ n2) + (f + n2)) = f + n2
  /\ (Zdigits2 (m2 / 2 ^ n2) + (f + n2) = Zdigits2 mx + ex
      \/ (m2 / 2 ^ n2 = 2 ^ (Zdigits2 (m2 / 2 ^ n2) - 1)
          /\ Zdigits2 (m2 / 2 ^ n2) + (f + n2)
             <= Z.max (Zdigits2 mx + ex) (emin prec emax) + 1)).
Proof.
  intros Hm Hal Hm2 Hpos. cbv zeta.
  destruct (Zdigits2_bounds mx Hm) as (HD & _).
  set (D := Zdigits2 mx) in *. set (mu := D + ex) in *.
  set (f := fexp prec emax mu) in *.
  set (n := f - ex) in *.
  assert (Hf : f = Z.max (mu - prec) (emin prec emax)) by reflexivity.
  assert (Hfe : forall k, fexp prec emax k = Z.max (k - prec) (emin prec emax))
    by reflexivity.
  destruct (Z_lt_le_dec n D) as [Hn|Hn].
  - (* the shifted mantissa is positive *)
    destruct (Zdigits2_shr mx n Hm ltac:(lia)) as [Hm1 HD1]. fold D in HD1.
    set (m1 := mx / 2 ^ n) in *.
    assert (Hsame : Zdigits2 m2 = D - n ->
                    0 < m2 / 2 ^ Z.max 0 (fexp prec emax (Zdigits2 m2 + f) - f)
                    /\ fexp prec emax
                         (Zdigits2 (m2 / 2 ^ Z.max 0 (fexp prec emax (Zdigits2 m2 + f) - f))
                          + (f + Z.max 0 (fexp prec emax (Zdigits2 m2 + f) - f)))
                       = f + Z.max 0 (fexp prec emax (Zdigits2 m2 + f) - f)
                    /\ Zdigits2 (m2 / 2 ^ Z.max 0 (fexp prec emax (Zdigits2 m2 + f) - f))
                       + (f + Z.max 0 (fexp prec emax (Zdigits2 m2 + f) - f)) = mu).
    { intros E. rewrite E.
      replace (D - n + f) with mu by lia. fold f.
      replace (Z.max 0 (f - f)) with 0 by lia.
      rewrite Z.pow_0_r, Z.div_1_r, E.
      replace (D - n + (f + 0)) with mu by lia. fold f. lia. }
    destruct (Z.eq_dec m2 m1) as [->|Hne].
    + destruct (Hsame HD1) as (A & B & C). auto.
    + assert (Em2 : m2 = m1 + 1) by lia.
      destruct (Zdigits2_succ m1 Hm1) as [E|[Ep E]].
      * rewrite <- Em2 in E. destruct (Hsame ltac:(lia)) as (A & B & C). auto.
      * rewrite <- Em2 in E, Ep. rewrite HD1 in E, Ep.
        rewrite E.
        replace (D - n + 1 + f) with (mu + 1) by lia.
        rewrite (Hfe (mu + 1)).
        destruct (Z_le_gt_dec (emin prec emax) (mu - prec)) as [Hnorm|Hsub].
        -- (* normal range: one more shift *)
           replace (Z.max 0 (Z.max (mu + 1 - prec) (emin prec emax) - f)) with 1 by lia.
           assert (Hdn : D - n = prec) by lia.
           assert (Hq : m2 / 2 ^ 1 = 2 ^ (prec - 1)).
           { rewrite Ep, Hdn. replace prec with (prec - 1 + 1) at 1 by lia.
             rewrite Z.pow_add_r by lia. apply Z.div_mul. lia. }
           rewrite Hq, Zdigits2_pow2 by lia.
           assert (0 < 2 ^ (prec - 1)) by (apply Z.pow_pos_nonneg; lia).
           split; [lia|]. split; [rewrite Hfe; lia|].
           right. split; [f_equal; lia|lia].
        -- (* subnormal range: the carry fits *)
           replace (Z.max 0 (Z.max (mu + 1 - prec) (emin prec emax) - f)) with 0 by lia.
           rewrite Z.pow_0_r, Z.div_1_r, E.
           split; [lia|]. split; [rewrite Hfe; lia|].
           right. split; [rewrite Ep; f_equal; lia|lia].
  - (* everything is shifted out; the rounding gives the least float *)
    assert (Hm1 : mx / 2 ^ n = 0) by (apply shr_all; lia).
    assert (Em2 : m2 = 1) by lia. subst m2.
    change (Zdigits2 1) with 1.
    assert (Hfm : f = emin prec emax) by lia.
    rewrite (Hfe (1 + f)).
    replace (Z.max 0 (Z.max (1 + f - prec) (emin prec emax) - f)) with 0 by lia.
    rewrite Z.pow_0_r, Z.div_1_r. change (Zdigits2 1) with 1.
    split; [lia|]. split; [rewrite Hfe; lia|].
    right. split; [reflexivity|lia].
Qed.

Lemma shr_fexp_value m e l :
  0 <= m ->
  shr_m (shr_fexp prec emax m e l).1
  = m / 2 ^ Z.max 0 (fexp prec emax (Zdigits2 m + e) - e)
  /\ (shr_fexp prec emax m e l).2
     = e + Z.max 0 (fexp prec emax (Zdigits2 m + e) - e).
Proof.
  intros Hm. unfold shr_fexp, shr.
  set (r := shr_record_of_loc m l).
  assert (Hr : shr_m r = m) by (subst r; destruct l as [|[]]; reflexivity).
  destruct (fexp prec emax (Zdigits2 m + e) - e) as [|n|n]; cbn [fst snd].
  - change (Z.max 0 0) with 0. rewrite Z.pow_0_r, Z.div_1_r. lia.
  - rewrite iter_shr_1_div by lia. rewrite Hr.
    replace (Z.max 0 (Zpos n)) with (Zpos n) by lia. lia.
  - replace (Z.max 0 (Zneg n)) with 0 by lia. rewrite Z.pow_0_r, Z.div_1_r. lia.
Qed.

(** What [binary_round_aux] returns on an aligned input of magnitude
    [mu = digits + exponent]: a zero, or a canonical mantissa and exponent
    (an infinity when that exponent is too large) of the same magnitude, or
    a power of two of at most the next magnitude. *)
Lemma binary_round_aux_spec sx mx ex lx :
  0 < mx -> ex <= fexp prec emax (Zdigits2 mx + ex) ->
  binary_round_aux prec emax sx mx ex lx = S754_zero sx
  \/ exists m3 e3,
       binary_round_aux prec emax sx mx ex lx
       = (if e3 <=? emax - prec then S754_finite sx m3 e3 else S754_infinity sx)
       /\ canonical_mantissa prec emax m3 e3 = true
       /\ (Zpos (digits2_pos m3) + e3 = Zdigits2 mx + ex
           \/ (Zpos m3 = 2 ^ (Zpos (digits2_pos m3) - 1)
               /\ Zpos (digits2_pos m3) + e3
                  <= Z.max (Zdigits2 mx + ex) (emin prec emax) + 1)).
Proof.
  intros Hm Hal. unfold binary_round_aux.
  destruct (shr_fexp_value mx ex lx ltac:(lia)) as [V1 E1].
  destruct (shr_fexp prec emax mx ex lx) as [mrs' e']. cbn [fst snd] in *.
  replace (Z.max 0 (fexp prec emax (Zdigits2 mx + ex) - ex))
    with (fexp prec emax (Zdigits2 mx + ex) - ex) in * by lia.
  replace (ex + (fexp prec emax (Zdigits2 mx + ex) - ex))
    with (fexp prec emax (Zdigits2 mx + ex)) in E1 by lia.
  pose proof (round_nearest_even_bounds (shr_m mrs') (loc_of_shr_record mrs')) as Hr.
  set (m2 := round_nearest_even (shr_m mrs') (loc_of_shr_record mrs')) in *.
  assert (H1 : 0 <= shr_m mrs').
  { rewrite V1. apply Z.div_pos; [lia|]. apply Z.pow_pos_nonneg; lia. }
  destruct (shr_fexp_value m2 e' loc_Exact ltac:(lia)) as [V2 E2].
  destruct (shr_fexp prec emax m2 e' loc_Exact) as [mrs'' e'']. cbn [fst snd] in *.
  destruct (Z.eq_dec m2 0) as [Z2|NZ2].
  - left. rewrite Z2 in V2. rewrite Z.div_0_l in V2; [now rewrite V2|].
    apply Z.pow_nonzero; lia.
  - right. rewrite V1 in Hr. subst e'.
    destruct (round_core mx ex m2 Hm Hal Hr ltac:(lia)) as (P & C & M).
    rewrite <- V2 in P, C, M. rewrite <- E2 in C, M.
    destruct (shr_m mrs'') as [|m3|m3]; try lia.
    exists m3, e''. split; [reflexivity|]. split; [|exact M].
    unfold canonical_mantissa. now apply Z.eqb_eq.
Qed.

(** [binary_round] first aligns its input. *)
Lemma shl_align_fexp mx ex :
  let a := shl_align mx ex (fexp prec emax (Zpos (digits2_pos mx) + ex)) in
  a.2 <= fexp prec emax (Zdigits2 (Zpos a.1) + a.2)
  /\ Zdigits2 (Zpos a.1) + a.2 = Zpos (digits2_pos mx) + ex
  /\ (fexp prec emax (Zpos (digits2_pos mx) + ex) <= ex ->
      a.2 = fexp prec emax (Zpos (digits2_pos mx) + ex)
      /\ Zpos a.1 = Zpos mx * 2 ^ (ex - a.2)).
Proof.
  cbv zeta. unfold shl_align.
  set (f := fexp prec emax (Zpos (digits2_pos mx) + ex)).
  destruct (f - ex) as [|d|d] eqn:E; cbn [fst snd].
  - change (Zdigits2 (Zpos mx)) with (Zpos (digits2_pos mx)). fold f.
    split; [lia|]. split; [reflexivity|]. intros _. split; [lia|].
    replace (ex - ex) with 0 by lia. simpl. lia.
  - change (Zdigits2 (Zpos mx)) with (Zpos (digits2_pos mx)). fold f.
    split; [lia|]. split; [reflexivity|]. lia.
  - rewrite iter_xO_pow.
    rewrite Zdigits2_shl by lia.
    change (Zdigits2 (Zpos mx)) with (Zpos (digits2_pos mx)).
    replace (Zpos (digits2_pos mx) + Zpos d + f) with (Zpos (digits2_pos mx) + ex) by lia.
    fold f. split; [lia|]. split; [lia|]. intros _. split; [reflexivity|].
    f_equal. f_equal. lia.
Qed.

Lemma binary_round_spec sx mx ex :
  binary_round prec emax sx mx ex = S754_zero sx
  \/ exists m3 e3,
       binary_round prec emax sx mx ex
       = (if e3 <=? emax - prec then S754_finite sx m3 e3 else S754_infinity sx)
       /\ canonical_mantissa prec emax m3 e3 = true
       /\ (Zpos (digits2_pos m3) + e3 = Zpos (digits2_pos mx) + ex
           \/ (Zpos m3 = 2 ^ (Zpos (digits2_pos m3) - 1)
               /\ Zpos (digits2_pos m3) + e3
                  <= Z.max (Zpos (digits2_pos mx) + ex) (emin prec emax) + 1)).
Proof.
  unfold binary_round.
  destruct (shl_align_fexp mx ex) as (Hal & Hmu & _).
  destruct (shl_align mx ex _) as [mz ez]. cbn [fst snd] in *.
  rewrite <- Hmu. apply binary_round_aux_spec; [lia|exact Hal].
Qed.

Lemma binary_round_valid sx mx ex :
  valid_binary prec emax (binary_round prec emax sx mx ex) = true.
Proof.
  destruct (binary_round_spec sx mx ex) as [->|(m3 & e3 & -> & C & _)]; [reflexivity|].
  destruct (e3 <=? emax - prec) eqn:E; [|reflexivity].
  simpl. unfold bounded. now rewrite C, E.
Qed.

Lemma binary_normalize_valid m e sz :
  valid_binary prec emax (binary_normalize prec emax m e sz) = true.
Proof. destruct m; [reflexivity| |]; apply binary_round_valid. Qed.

(** When the input has no more digits than the format holds,
    [binary_round] is exact. *)
Lemma binary_round_exact sx mx ex :
  fexp prec emax (Zpos (digits2_pos mx) + ex) <= ex ->
  exists m3,
    binary_round prec emax sx mx ex
    = (if fexp prec emax (Zpos (digits2_pos mx) + ex) <=? emax - prec
       then S754_finite sx m3 (fexp prec emax (Zpos (digits2_pos mx) + ex))
       else S754_infinity sx)
    /\ Zpos m3 = Zpos mx * 2 ^ (ex - fexp prec emax (Zpos (digits2_pos mx) + ex)).
Proof.
  intros Hle. unfold binary_round.
  destruct (shl_align_fexp mx ex) as (_ & Hmu & Hex).
  destruct (Hex Hle) as [He Hm]. clear Hex.
  destruct (shl_align mx ex _) as [mz ez]. cbn [fst snd] in *.
  exists mz. split; [|now rewrite <- He].
  unfold binary_round_aux.
  destruct (shr_fexp_value (Zpos mz) ez loc_Exact ltac:(lia)) as [V1 E1].
  rewrite Hmu, <- He in V1, E1.
  replace (Z.max 0 (ez - ez)) with 0 in * by lia.
  rewrite Z.pow_0_r, Z.div_1_r in V1. rewrite Z.add_0_r in E1.
  assert (L1 : loc_of_shr_record (shr_fexp prec emax (Zpos mz) ez loc_Exact).1 = loc_Exact).
  { unfold shr_fexp, shr. rewrite Hmu, <- He, Z.sub_diag. reflexivity. }
  destruct (shr_fexp prec emax (Zpos mz) ez loc_Exact) as [mrs' e']. cbn [fst snd] in *.
  rewrite L1, V1. subst e'. cbn [round_nearest_even].
  destruct (shr_fexp_value (Zpos mz) ez loc_Exact ltac:(lia)) as [V2 E2].
  rewrite Hmu, <- He in V2, E2.
  replace (Z.max 0 (ez - ez)) with 0 in * by lia.
  rewrite Z.pow_0_r, Z.div_1_r in V2. rewrite Z.add_0_r in E2.
  destruct (shr_fexp prec emax (Zpos mz) ez loc_Exact) as [mrs'' e'']. cbn [fst snd] in *.
  rewrite V2, E2, <- He. reflexivity.
Qed.

(** ** Rounding a non-zero number at an exponent of at least [emin] *)

(** After the shift of [shr_fexp] a positive mantissa whose exponent is at
    least [emin] stays positive, and so does the exponent bound. *)
Lemma shr_fexp_pos m e l :
  0 < m -> emin prec emax <= e ->
  0 < shr_m (shr_fexp prec emax m e l).1
  /\ emin prec emax <= (shr_fexp prec emax m e l).2.
Proof.
  intros Hm He. unfold shr_fexp, shr.
  set (r := shr_record_of_loc m l).
  assert (Hr : shr_m r = m) by (subst r; destruct l as [|[]]; reflexivity).
  destruct m as [|p|p]; try lia. cbn [Zdigits2].
  pose proof (digits2_pos_bounds p) as [Hlo _].
  set (D := Zpos (digits2_pos p)) in *.
  unfold fexp.
  destruct (Z.max (D + e - prec) (emin prec emax) - e) as [|n|n] eqn:En; cbn [fst snd].
  - rewrite Hr. lia.
  - rewrite iter_shr_1_div by lia. rewrite Hr. split; [|lia].
    assert (Hn : Zpos n <= D - 1) by lia.
    assert (2 ^ Zpos n <= 2 ^ (D - 1)) by (apply Z.pow_le_mono_r; lia).
    assert (0 < 2 ^ Zpos n) by (now apply Z.pow_pos_nonneg).
    apply Z.div_str_pos. lia.
  - rewrite Hr. lia.
Qed.

Lemma round_nearest_even_ge m l : m <= round_nearest_even m l.
Proof. destruct l as [|[]]; simpl; try lia. destruct (Z.even m); lia. Qed.

Lemma binary_round_aux_nonzero sx mx ex lx :
  0 < mx -> emin prec emax <= ex ->
  ~ is_zero (binary_round_aux prec emax sx mx ex lx).
Proof.
  intros Hm He. unfold binary_round_aux.
  destruct (shr_fexp_pos mx ex lx Hm He) as [H1 H1e].
  destruct (shr_fexp prec emax mx ex lx) as [mrs' e']. cbn [fst snd] in *.
  pose proof (round_nearest_even_ge (shr_m mrs') (loc_of_shr_record mrs')) as Hge.
  destruct (shr_fexp_pos (round_nearest_even (shr_m mrs') (loc_of_shr_record mrs'))
              e' loc_Exact ltac:(lia) H1e) as [H2 _].
  destruct (shr_fexp prec emax _ e' loc_Exact) as [mrs'' e'']. cbn [fst snd] in *.
  destruct (shr_m mrs'') as [|p|p]; try lia.
  destruct (e'' <=? emax - prec); simpl; tauto.
Qed.

Lemma binary_round_nonzero sx mx ex :
  emin prec emax <= ex -> ~ is_zero (binary_round prec emax sx mx ex).
Proof.
  intros He. unfold binary_round, shl_align.
  set (f := fexp prec emax (Zpos (digits2_pos mx) + ex)).
  assert (Hf : emin prec emax <= f) by (subst f; unfold fexp; lia).
  destruct (f - ex) as [|d|d] eqn:Ed; apply binary_round_aux_nonzero; lia.
Qed.

Lemma binary_normalize_nonzero m e sz :
  m <> 0 -> emin prec emax <= e -> ~ is_zero (binary_normalize prec emax m e sz).
Proof.
  intros Hm He. destruct m; [easy| |]; now apply binary_round_nonzero.
Qed.

Lemma shl_align_value mx ex ez :
  ez <= ex -> Zpos (shl_align mx ex ez).1 = Zpos mx * 2 ^ (ex - ez).
Proof.
  intros H. unfold shl_align.
  destruct (ez - ex) as [|d|d] eqn:E; cbn [fst].
  - replace (ex - ez) with 0 by lia. simpl. lia.
  - lia.
  - rewrite iter_xO_pow. f_equal. f_equal. lia.
Qed.

Lemma canonical_emin m e :
  canonical_mantissa prec emax m e = true -> emin prec emax <= e.
Proof. unfold canonical_mantissa, fexp. intros H%Z.eqb_eq. lia. Qed.

(** Two canonical mantissas at different exponents denote different
    numbers. *)
Lemma canonical_scaled_ne mx ex my ey :
  canonical_mantissa prec emax mx ex = true ->
  canonical_mantissa prec emax my ey = true ->
  ex < ey -> Zpos mx <> Zpos my * 2 ^ (ey - ex).
Proof.
  unfold canonical_mantissa, fexp. intros Hx%Z.eqb_eq Hy%Z.eqb_eq Hlt E.
  pose proof (digits2_pos_bounds mx) as [Hx1 Hx2].
  pose proof (digits2_pos_bounds my) as [Hy1 Hy2].
  set (Dx := Zpos (digits2_pos mx)) in *. set (Dy := Zpos (digits2_pos my)) in *.
  assert (HDx : 0 < Dx) by (subst Dx; lia).
  assert (HDy : 0 < Dy) by (subst Dy; lia).
  set (k := ey - ex) in *.
  assert (Hk : 0 < 2 ^ k) by (apply Z.pow_pos_nonneg; lia).
  assert (Dx = Dy + k); [|lia].
  assert (B1 : 2 ^ (Dy - 1 + k) <= Zpos mx) by (rewrite Z.pow_add_r by lia; nia).
  assert (B2 : Zpos mx < 2 ^ (Dy + k)) by (rewrite Z.pow_add_r by lia; nia).
  destruct (Z.lt_trichotomy Dx (Dy + k)) as [Hc|[Hc|Hc]]; [|exact Hc|].
  - assert (2 ^ Dx <= 2 ^ (Dy - 1 + k)) by (apply Z.pow_le_mono_r; lia). lia.
  - assert (2 ^ (Dy + k) <= 2 ^ (Dx - 1)) by (apply Z.pow_le_mono_r; lia). lia.
Qed.

Lemma aligned_mantissas_differ mx ex my ey :
  canonical_mantissa prec emax mx ex = true ->
  canonical_mantissa prec emax my ey = true ->
  (ex <> ey \/ mx <> my) ->
  Zpos (shl_align mx ex (Z.min ex ey)).1 <> Zpos (shl_align my ey (Z.min ex ey)).1.
Proof.
  intros Hx Hy Hne.
  rewrite !shl_align_value by lia.
  destruct (Z.lt_trichotomy ex ey) as [Hc|[Hc|Hc]].
  - rewrite Z.min_l by lia. rewrite Z.sub_diag, Z.mul_1_r.
    now apply canonical_scaled_ne.
  - subst ey. rewrite Z.min_id, Z.sub_diag, !Z.mul_1_r.
    destruct Hne as [?|Hne]; [easy|]. congruence.
  - rewrite Z.min_r by lia. rewrite Z.sub_diag, Z.mul_1_r.
    intros E. symmetry in E. revert E. now apply canonical_scaled_ne.
Qed.

(** The difference of two valid finite floats is not a zero when the
    first compares above the second. *)
Lemma SFsub_nonzero x y :
  valid_binary prec emax x = true -> valid_binary prec emax y = true ->
  finite x -> finite y -> SFltb y x = true ->
  ~ is_zero (SFsub prec emax x y).
Proof.
  destruct x as [sx|sx| |sx mx ex], y as [sy|sy| |sy my ey];
    simpl; try easy; intros Vx Vy _ _ Hlt.
  apply andb_true_iff in Vx as [Cx _]. apply andb_true_iff in Vy as [Cy _].
  pose proof (canonical_emin _ _ Cx). pose proof (canonical_emin _ _ Cy).
  apply binary_normalize_nonzero; [|lia].
  assert (Hpx : 0 < Zpos (shl_align mx ex (Z.min ex ey)).1) by lia.
  assert (Hpy : 0 < Zpos (shl_align my ey (Z.min ex ey)).1) by lia.
  assert (Hne : sx = sy -> ex <> ey \/ mx <> my).
  { intros ->. unfold SFltb in Hlt. simpl in Hlt.
    destruct (Z.compare_spec ey ex) as [->|?|?]; [right|left; lia|left; lia].
    rewrite Pos.compare_cont_spec in Hlt. simpl in Hlt.
    intros ->. rewrite Pos.compare_refl in Hlt. destruct sy; discriminate. }
  pose proof (aligned_mantissas_differ mx ex my ey Cx Cy) as Hd.
  destruct sx, sy; simpl; try lia; specialize (Hd (Hne eq_refl)); lia.
Qed.

End RoundSpec.


(** * The [float32] store keeps the unit interval *)

Lemma unit_or_magnitude m e :
  valid64 (S754_finite false m e) ->
  F64.le (S754_finite false m e) (F64.of_Z 1) = true ->
  (m = 4503599627370496%positive /\ e = -52) \/ Zpos (digits2_pos m) + e <= 0.
Proof.
  unfold valid64, valid_binary, bounded, canonical_mantissa, fexp, emin, F64.prec, F64.emax.
  intros [C _]%andb_true_iff. apply Z.eqb_eq in C.
  change (F64.of_Z 1) with (S754_finite false 4503599627370496 (-52)).
  unfold F64.le, SFleb, SFcompare.
  destruct (Z.compare_spec e (-52)) as [->|Hlt|Hgt]; [|right; lia|discriminate].
  rewrite Pos.compare_cont_spec. simpl Pos.switch_Eq.
  destruct (Pos.compare_spec m 4503599627370496) as [->|Hlt|Hgt]; [now left| |discriminate].
  intros _. exfalso. apply Pos2Z.pos_lt_pos in Hlt.
  assert (HD : Zpos (digits2_pos m) = 53) by (clear -C; lia).
  pose proof (digits2_pos_bounds m) as [B1 _]. rewrite HD in B1.
  change (2 ^ (53 - 1)) with 4503599627370496 in B1.
  clear -B1 Hlt. lia.
Qed.

Lemma store_f32_within_unit x :
  valid64 x ->
  within (F64.of_Z 0) (F64.of_Z 1) x = true ->
  within (F64.of_Z 0) (F64.of_Z 1) (F32.to_f64 (F32.of_f64 x)) = true.
Proof.
  intros V H. destruct x as [s|s| |s m e].
  - destruct s; vm_compute; reflexivity.
  - destruct s; vm_compute in H; discriminate.
  - vm_compute in H. discriminate.
  - destruct s; [vm_compute in H; discriminate|].
    apply andb_true_iff in H as [_ H].
    destruct (unit_or_magnitude m e V H) as [[-> ->]|Hmu]; [vm_compute; reflexivity|].
    unfold F32.of_f64.
    destruct (binary_round_spec F32.prec F32.emax eq_refl false m e)
      as [->|(m3 & e3 & -> & C & M)]; [vm_compute; reflexivity|].
    unfold canonical_mantissa, fexp, emin, F32.prec, F32.emax in *.
    apply Z.eqb_eq in C.
    assert (Hmu3 : Zpos (digits2_pos m3) + e3 <= 1) by lia.
    replace (e3 <=? 128 - 24) with true by (symmetry; apply Z.leb_le; lia).
    unfold F32.to_f64.
    destruct (binary_round_exact F64.prec F64.emax false m3 e3) as (m4 & -> & Hm4).
    { unfold fexp, emin, F64.prec, F64.emax. lia. }
    unfold fexp, emin, F64.prec, F64.emax in *.
    set (f := Z.max (Zpos (digits2_pos m3) + e3 - 53) (3 - 1024 - 53)) in *.
    replace (f <=? 1024 - 53) with true by (symmetry; apply Z.leb_le; lia).
    unfold within. apply andb_true_iff. split; [reflexivity|].
    change (F64.of_Z 1) with (S754_finite false 4503599627370496 (-52)).
    unfold F64.le, SFleb, SFcompare.
    destruct (Z.compare_spec f (-52)) as [Ef|Hlt|Hgt]; [|reflexivity|lia].
    assert (Hd : Zpos (digits2_pos m3) + e3 = 1) by lia.
    destruct M as [M|[Mp _]]; [lia|].
    assert (He3 : e3 = -23) by lia.
    assert (HD3 : Zpos (digits2_pos m3) = 24) by lia.
    rewrite HD3 in Mp. rewrite Mp, He3, Ef in Hm4.
    change (2 ^ (24 - 1) * 2 ^ (-23 - -52)) with (Zpos 4503599627370496) in Hm4.
    injection Hm4 as ->. reflexivity.
Qed.

(** Storing a value that already is a [float32] changes nothing. *)
Lemma of_f64_idempotent x : F32.of_f64 (F32.of_f64 x) = F32.of_f64 x.
Proof.
  destruct x as [s|s| |s m e]; try reflexivity.
  cbn [F32.of_f64].
  destruct (binary_round_spec F32.prec F32.emax eq_refl s m e)
    as [->|(m3 & e3 & -> & C & _)]; [reflexivity|].
  destruct (e3 <=? F32.emax - F32.prec) eqn:E; [|reflexivity].
  cbn [F32.of_f64].
  unfold canonical_mantissa in C. apply Z.eqb_eq in C.
  destruct (binary_round_exact F32.prec F32.emax s m3 e3) as (m4 & -> & Hm4); [lia|].
  rewrite C in *. rewrite E. f_equal.
  rewrite Z.sub_diag, Z.pow_0_r, Z.mul_1_r in Hm4. now injection Hm4.
Qed.

(** ** Valid results *)

Lemma sub_valid a b : valid64 b -> finite_nonzero b -> valid64 (F64.sub a b).
Proof.
  unfold valid64.
  destruct a as [sa|sa| |sa ma ea], b as [sb|sb| |sb mb eb];
    simpl; try easy; intros V _.
  apply binary_normalize_valid. reflexivity.
Qed.

Lemma add_valid a b : valid64 b -> finite_nonzero b -> valid64 (F64.add a b).
Proof.
  unfold valid64.
  destruct a as [sa|sa| |sa ma ea], b as [sb|sb| |sb mb eb];
    simpl; try easy; intros V _.
  apply binary_normalize_valid. reflexivity.
Qed.

Lemma clip_valid x lo hi :
  valid64 x -> valid64 lo -> valid64 hi -> valid64 (Np.clip x lo hi).
Proof.
  intros Vx Vlo Vhi. unfold Np.clip, Np.fmin_nan, Np.fmax_nan.
  destruct (F64.isnan x); [destruct (F64.isnan x); [exact Vx|]|].
  - destruct (F64.lt x hi); assumption.
  - destruct (F64.gt x lo).
    + destruct (F64.isnan x); [exact Vx|]. destruct (F64.lt x hi); assumption.
    + destruct (F64.isnan lo); [exact Vlo|]. destruct (F64.lt lo hi); assumption.
Qed.

(** * The orbit camera *)

Lemma clip_within x lo hi :
  not_nan x -> within lo hi lo = true -> within lo hi hi = true ->
  within lo hi (Np.clip x lo hi) = true.
Proof.
  unfold within, Np.clip, Np.fmax_nan, Np.fmin_nan, F64.gt, F64.lt, F64.le.
  intros Hx Hlo Hhi.
  apply andb_true_iff in Hlo as [Hll Hlh].
  assert (F64.isnan x = false) as -> by (destruct x; try reflexivity; now destruct Hx).
  assert (F64.isnan lo = false) as Hnl by (destruct lo; try reflexivity; discriminate).
  destruct (SFltb lo x) eqn:E1.
  - assert (F64.isnan x = false) as -> by (destruct x; try reflexivity; now destruct Hx).
    destruct (SFltb x hi) eqn:E2; [|exact Hhi].
    now rewrite (SFltb_SFleb _ _ E1), (SFltb_SFleb _ _ E2).
  - rewrite Hnl. destruct (SFltb lo hi); [|exact Hhi].
    now rewrite Hll, Hlh.
Qed.

Lemma within_finite lo hi x :
  finite lo -> finite hi -> within lo hi x = true -> finite x.
Proof.
  unfold within, F64.le, SFleb.
  destruct x as [s|s| |s m e]; simpl; try easy.
  - destruct lo, hi, s; simpl; easy.
  - destruct lo; simpl; easy.
Qed.

(** Python's [max(1.0, min(d, 1000.0))] lands in the interval for every
    float [d], NaN included. *)
Lemma py_clamp_within lo hi d :
  within lo hi lo = true -> within lo hi hi = true ->
  within lo hi (F64.py_max lo (F64.py_min d hi)) = true.
Proof.
  unfold within, F64.py_max, F64.py_min, F64.gt, F64.lt, F64.le.
  intros Hlo Hhi.
  destruct (SFltb hi d) eqn:E1.
  - destruct (SFltb lo hi); assumption.
  - destruct (SFltb lo d) eqn:E2; [|assumption].
    rewrite (SFltb_SFleb _ _ E2). simpl.
    apply SFltb_false_SFleb; trivial.
    + apply andb_true_iff in Hhi as [_ H]. eapply SFleb_not_nan_l, H.
    + eapply SFltb_not_nan_r, E2.
Qed.

(** The reductions of a non-empty array do not raise. *)
Lemma xyz_bounds_cons p pts :
  exists b, xyz_bounds (p :: pts) = Ok b.
Proof. unfold xyz_bounds, axis_bounds, coords. simpl. eauto. Qed.

Lemma bbox_max_dim_cons p pts :
  exists m, Renderer.bbox_max_dim (p :: pts) = Ok m.
Proof.
  unfold Renderer.bbox_max_dim.
  destruct (xyz_bounds_cons p pts) as [b ->]. simpl. eauto.
Qed.

Lemma height_colormap_cons h heights :
  exists cs, Renderer.height_colormap (h :: heights) = Ok cs
             /\ length cs = length (h :: heights).
Proof.
  unfold Renderer.height_colormap.
  cbn [Np.amin Np.amax mbind result_bind].
  eexists. split; [reflexivity|].
  rewrite length_map. unfold Renderer.normalize_heights.
  destruct (F64.gt _ _); now rewrite length_map.
Qed.

Section Camera.
Import Renderer.
Variables np_cos np_sin : F64.t -> F64.t.

Local Abbreviation rotate := (Renderer.rotate np_cos np_sin).
Local Abbreviation zoom := (Renderer.zoom np_cos np_sin).
Local Abbreviation rotate_calls := (Renderer.rotate_calls np_cos np_sin).
Local Abbreviation zoom_calls := (Renderer.zoom_calls np_cos np_sin).
Local Abbreviation new_camera := (Renderer.new_camera np_cos np_sin).
Local Abbreviation load_points := (Renderer.load_points np_cos np_sin).
Local Abbreviation poll_events := (Renderer.poll_events np_cos np_sin).

Lemma rotate_elevation c da de :
  rotation_speed c = F64.lit 5 10 -> finite (elevation c) -> not_nan de ->
  within (F64.of_Z (-89)) (F64.of_Z 89) (elevation (rotate c da de)) = true.
Proof.
  intros Hs Hf Hde. simpl. rewrite Hs.
  apply clip_within; [|reflexivity|reflexivity].
  apply SFadd_not_nan; [exact Hf|].
  apply SFmul_not_nan; [exact Hde|exact I].
Qed.

Lemma rotate_azimuth c da de :
  azimuth (rotate c da de) = F64.add (azimuth c) (F64.mul da (rotation_speed c)).
Proof. reflexivity. Qed.

Lemma rotate_speed c da de : rotation_speed (rotate c da de) = rotation_speed c.
Proof. reflexivity. Qed.

Lemma rotate_calls_invariant calls : forall c,
  rotation_speed c = F64.lit 5 10 ->
  within (F64.of_Z (-89)) (F64.of_Z 89) (elevation c) = true ->
  Forall (fun d : F64.t * F64.t => not_nan d.2) calls ->
  within (F64.of_Z (-89)) (F64.of_Z 89) (elevation (rotate_calls c calls)) = true
  /\ azimuth (rotate_calls c calls)
     = foldl (fun az d => F64.add az (F64.mul d.1 (F64.lit 5 10))) (azimuth c) calls.
Proof.
  induction calls as [|d calls IH]; intros c Hs He Hall.
  - now split.
  - inversion Hall as [|? ? Hd Hrest]; subst.
    change (rotate_calls c (d :: calls)) with (rotate_calls (rotate c d.1 d.2) calls).
    destruct (IH (rotate c d.1 d.2)) as [IH1 IH2]; trivial.
    + apply rotate_elevation; trivial.
      eapply within_finite; [| |exact He]; exact I.
    + split; [exact IH1|].
      rewrite IH2, rotate_azimuth, Hs. reflexivity.
Qed.

Lemma zoom_distance c delta :
  within (F64.of_Z 1) (F64.of_Z 1000) (distance (zoom c delta)) = true.
Proof. simpl. now apply py_clamp_within. Qed.

Lemma zoom_calls_distance deltas : forall c,
  within (F64.of_Z 1) (F64.of_Z 1000) (distance c) = true ->
  within (F64.of_Z 1) (F64.of_Z 1000) (distance (zoom_calls c deltas)) = true.
Proof.
  induction deltas as [|d deltas IH]; intros c Hc; [exact Hc|].
  change (zoom_calls c (d :: deltas)) with (zoom_calls (zoom c d) deltas).
  apply IH, zoom_distance.
Qed.

Lemma load_points_distance self p pts cols :
  exists r m,
    load_points self (p :: pts) cols = Ok r
    /\ bbox_max_dim (p :: pts) = Ok m
    /\ distance (camera r) = F64.mul m (F64.lit 15 10).
Proof.
  unfold Renderer.load_points.
  destruct (bbox_max_dim_cons p pts) as [m Hm]. rewrite Hm.
  destruct cols as [c|].
  - simpl. eauto.
  - destruct (height_colormap_cons p.2 (coords (fun q => q.2) pts)) as [cs [Hcs _]].
    change (coords (fun q : point => q.2) (p :: pts))
      with (p.2 :: coords (fun q : point => q.2) pts).
    rewrite Hcs. simpl. eauto.
Qed.

(** C5 (as amended).  Started from the default camera, any sequence of
    [rotate] calls whose elevation arguments are not NaN leaves the elevation
    in the closed interval [-89, 89] (the bounds themselves are reached),
    and the azimuth is the plain running sum [45 + sum (dAzimuth * 0.5)],
    never clamped. *)
Theorem rotate_clamps_elevation_closed (calls : list (F64.t * F64.t)) :
  Forall (fun d : F64.t * F64.t => not_nan d.2) calls ->
  let c := rotate_calls (new_camera None None) calls in
  within (F64.of_Z (-89)) (F64.of_Z 89) (elevation c) = true
  /\ azimuth c
     = foldl (fun az d => F64.add az (F64.mul d.1 (F64.lit 5 10))) (F64.of_Z 45) calls.
Proof.
  intros Hall. apply (rotate_calls_invariant calls (new_camera None None)); trivial.
Qed.

(** C6 (as amended).  [zoom] leaves the distance in [1.0, 1000.0] for every
    camera and every delta (NaN and the infinities included), so does any
    sequence of [zoom] calls from the default camera, whose distance is
    50.0; [load_points] on a non-empty cloud succeeds and sets the distance
    to 1.5 times the largest bounding-box extent, without a clamp. *)
Theorem zoom_clamps_distance_load_points_sets_it :
  (forall c delta,
     within (F64.of_Z 1) (F64.of_Z 1000) (distance (zoom c delta)) = true)
  /\ distance (new_camera None None) = F64.of_Z 50
  /\ (forall deltas,
       within (F64.of_Z 1) (F64.of_Z 1000)
         (distance (zoom_calls (new_camera None None) deltas)) = true)
  /\ (forall self pts cols, pts <> [] ->
       exists r m,
         load_points self pts cols = Ok r
         /\ bbox_max_dim pts = Ok m
         /\ distance (camera r) = F64.mul m (F64.lit 15 10)).
Proof.
  split; [exact zoom_distance|]. split; [vm_compute; reflexivity|]. split.
  - intros deltas. now apply zoom_calls_distance.
  - intros self [|p pts] cols Hne; [easy|]. apply load_points_distance.
Qed.

(** C9.  Press the left button with the cursor at (100, 100), move the
    cursor to (110, 90), release: whatever state the renderer was in, the
    callbacks call [camera.rotate] exactly once, with (10, 10), make no
    other camera call, and leave the renderer with no button pressed. *)
Theorem left_drag_rotates_once (self : PointCloudRenderer) :
  let events :=
    [MouseButton (F64.of_Z 100, F64.of_Z 100) MOUSE_BUTTON_LEFT PRESS;
     CursorPos (F64.of_Z 110) (F64.of_Z 90);
     MouseButton (F64.of_Z 110, F64.of_Z 90) MOUSE_BUTTON_LEFT RELEASE] in
  (poll_events self events).2 = [CallRotate (F64.of_Z 10) (F64.of_Z 10)]
  /\ camera (poll_events self events).1
     = rotate (camera self) (F64.of_Z 10) (F64.of_Z 10)
  /\ mouse_pressed (poll_events self events).1 = false
  /\ mouse_button (poll_events self events).1 = None.
Proof.
  assert (Hdx : F64.sub (F64.of_Z 110) (F64.of_Z 100) = F64.of_Z 10)
    by (vm_compute; reflexivity).
  assert (Hdy : F64.neg (F64.sub (F64.of_Z 90) (F64.of_Z 100)) = F64.of_Z 10)
    by (vm_compute; reflexivity).
  cbv zeta.
  unfold Renderer.poll_events, handle, mouse_button_callback, mouse_move_callback.
  cbn [Z.eqb PRESS RELEASE Pos.eqb set_mouse set_camera mouse_pressed
       last_mouse_x last_mouse_y mouse_button camera fst snd].
  rewrite bool_decide_eq_true_2 by reflexivity.
  rewrite Hdx, Hdy. cbn. repeat split; reflexivity.
Qed.
End Camera.

(** The theorem at two calls, the second of which overshoots the upper
    bound. *)
Lemma rotate_clamps_elevation_closed_witness :
  Forall (fun d : F64.t * F64.t => not_nan d.2)
    [(F64.of_Z 10, F64.of_Z 10); (F64.lit (-75) 10, F64.of_Z 400)]
  /\ within (F64.of_Z (-89)) (F64.of_Z 89)
       (Renderer.elevation
          (Renderer.rotate_calls taylor_cos taylor_sin camera0
             [(F64.of_Z 10, F64.of_Z 10); (F64.lit (-75) 10, F64.of_Z 400)])) = true.
Proof.
  assert (H : Forall (fun d : F64.t * F64.t => not_nan d.2)
                [(F64.of_Z 10, F64.of_Z 10); (F64.lit (-75) 10, F64.of_Z 400)])
    by (repeat constructor; discriminate).
  split; [exact H|].
  exact (proj1 (rotate_clamps_elevation_closed taylor_cos taylor_sin _ H)).
Defined.

(** C5, as stated, fails: one call [rotate(0, 200)] on the default camera
    raises the elevation to 130, which the clamp sets to exactly 89; 89 is
    not strictly below 89.  (And a NaN argument goes through the clamp
    unchanged.) *)
Lemma rotate_reaches_the_bound :
  Renderer.elevation
    (Renderer.rotate taylor_cos taylor_sin camera0 (F64.of_Z 0) (F64.of_Z 200))
  = F64.of_Z 89
  /\ strictly_within (F64.of_Z (-89)) (F64.of_Z 89)
       (Renderer.elevation
          (Renderer.rotate taylor_cos taylor_sin camera0 (F64.of_Z 0) (F64.of_Z 200)))
     = false
  /\ Renderer.elevation
       (Renderer.rotate taylor_cos taylor_sin camera0 (F64.of_Z 0) F64.nan)
     = F64.nan.
Proof. repeat split; vm_compute; reflexivity. Qed.

(** The theorem at a cloud of two points 1000 apart. *)
Lemma zoom_clamps_distance_load_points_sets_it_witness :
  [ipoint 0 0 0; ipoint 1000 0 0] <> []
  /\ exists r m,
       Renderer.load_points taylor_cos taylor_sin renderer0
         [ipoint 0 0 0; ipoint 1000 0 0] None = Ok r
       /\ Renderer.bbox_max_dim [ipoint 0 0 0; ipoint 1000 0 0] = Ok m
       /\ Renderer.distance (Renderer.camera r) = F64.mul m (F64.lit 15 10).
Proof.
  assert (H : [ipoint 0 0 0; ipoint 1000 0 0] <> []) by discriminate.
  split; [exact H|].
  exact (proj2 (proj2 (proj2
           (zoom_clamps_distance_load_points_sets_it taylor_cos taylor_sin)))
           renderer0 _ None H).
Defined.

(** C6, as stated, fails: loading two points 1000 apart sets the distance
    to 1500, outside [1, 1000]. *)
Lemma load_points_leaves_the_clamp :
  exists r,
    Renderer.load_points taylor_cos taylor_sin renderer0
      [ipoint 0 0 0; ipoint 1000 0 0] None = Ok r
    /\ Renderer.distance (Renderer.camera r) = F64.of_Z 1500
    /\ within (F64.of_Z 1) (F64.of_Z 1000) (Renderer.distance (Renderer.camera r)) = false.
Proof.
  eexists. split; [vm_compute; reflexivity|]. split; vm_compute; reflexivity.
Qed.

(** * [np.unique] on rows: sorted, first occurrences *)

Ltac cases_compare :=
  repeat match goal with
         | |- context [Z.compare ?x ?y] => destruct (Z.compare_spec x y)
         | H : context [Z.compare ?x ?y] |- _ => destruct (Z.compare_spec x y)
         end.

Lemma row_compare_eq a b : Np.row_compare a b = Eq -> a = b.
Proof.
  destruct a as [[a0 a1] a2], b as [[b0 b1] b2]. unfold Np.row_compare.
  cases_compare; intros; subst; try easy.
Qed.

Lemma row_compare_refl a : Np.row_compare a a = Eq.
Proof.
  destruct a as [[a0 a1] a2]. unfold Np.row_compare.
  now rewrite !Z.compare_refl.
Qed.

Lemma row_compare_antisym a b :
  Np.row_compare b a = CompOpp (Np.row_compare a b).
Proof.
  destruct a as [[a0 a1] a2], b as [[b0 b1] b2]. unfold Np.row_compare.
  rewrite (Z.compare_antisym a0 b0), (Z.compare_antisym a1 b1),
    (Z.compare_antisym a2 b2).
  destruct (a0 ?= b0), (a1 ?= b1), (a2 ?= b2); reflexivity.
Qed.

Lemma row_lt_trans a b c : row_lt a b -> row_lt b c -> row_lt a c.
Proof.
  destruct a as [[a0 a1] a2], b as [[b0 b1] b2], c as [[c0 c1] c2].
  unfold row_lt, Np.row_compare.
  cases_compare; intros; subst; try easy; try lia.
Qed.

Lemma row_lt_irrefl a : ~ row_lt a a.
Proof. unfold row_lt. now rewrite row_compare_refl. Qed.

Lemma rec_lt_trans x y z : rec_lt x y -> rec_lt y z -> rec_lt x z.
Proof.
  intros [Hxy|[Exy Hxy]] [Hyz|[Eyz Hyz]]; unfold rec_lt.
  - left. eapply row_lt_trans; eassumption.
  - left. now rewrite <- Eyz.
  - left. now rewrite Exy.
  - right. split; [congruence|lia].
Qed.

(** *** The stable sort *)

Lemma insert_stable_perm x l : Np.insert_stable x l ≡ₚ x :: l.
Proof.
  induction l as [|y l IH]; simpl; [reflexivity|].
  destruct (Np.row_compare x.1 y.1); try reflexivity.
  rewrite IH. apply Permutation_swap.
Qed.

Lemma insert_stable_sorted x l :
  StronglySorted rec_lt l ->
  Forall (fun y => (x.2 < y.2)%nat) l ->
  StronglySorted rec_lt (Np.insert_stable x l).
Proof.
  induction l as [|y l IH]; simpl; intros Hs Hx.
  - repeat constructor.
  - apply StronglySorted_inv in Hs as [Hs Hy].
    apply Forall_cons in Hx as [Hxy Hx].
    assert (Hhead : Np.row_compare x.1 y.1 <> Gt ->
                    StronglySorted rec_lt (x :: y :: l)).
    { intros Hc.
      assert (Hxy' : rec_lt x y).
      { destruct (Np.row_compare x.1 y.1) eqn:E; [|now left|easy].
        right. split; [now apply row_compare_eq|exact Hxy]. }
      constructor; [now constructor|].
      constructor; [exact Hxy'|].
      eapply Forall_impl; [exact Hy|]. intros z Hz.
      eapply rec_lt_trans; eassumption. }
    destruct (Np.row_compare x.1 y.1) eqn:E; try (apply Hhead; congruence).
    constructor; [now apply IH|].
    rewrite insert_stable_perm. constructor; [|exact Hy].
    left. unfold row_lt. now rewrite row_compare_antisym, E.
Qed.

(** The records of the input from index [k] on. *)
Lemma argsort_from_spec (a : list Np.row) : forall k,
  let s := foldr Np.insert_stable [] (imap (fun i r => (r, (k + i)%nat)) a) in
  StronglySorted rec_lt s
  /\ s ≡ₚ imap (fun i r => (r, (k + i)%nat)) a
  /\ Forall (fun y => (k <= y.2)%nat) s.
Proof.
  induction a as [|r a IH]; intros k; simpl.
  - repeat split; constructor.
  - rewrite (imap_ext _ (fun i r => (r, (S k + i)%nat))) by (intros; unfold compose; simpl; f_equal; lia).
    destruct (IH (S k)) as (Hs & Hp & Hk).
    set (s := foldr Np.insert_stable [] _) in *.
    split; [|split].
    + apply insert_stable_sorted; [exact Hs|].
      eapply Forall_impl; [exact Hk|]. simpl. intros; lia.
    + rewrite insert_stable_perm, Hp. reflexivity.
    + rewrite insert_stable_perm. constructor; [simpl; lia|].
      eapply Forall_impl; [exact Hk|]. simpl. intros; lia.
Qed.

Lemma argsort_stable_sorted a : StronglySorted rec_lt (Np.argsort_stable a).
Proof. apply (argsort_from_spec a 0). Qed.

Lemma elem_of_argsort_stable a r i :
  (r, i) ∈ Np.argsort_stable a <-> a !! i = Some r.
Proof.
  unfold Np.argsort_stable.
  destruct (argsort_from_spec a 0) as (_ & Hp & _). simpl in Hp.
  rewrite Hp, elem_of_lookup_imap. split.
  - intros (j & y & E & Hj). now inversion E; subst.
  - intros H. now exists i, r.
Qed.

(** *** The heads of the runs *)

Lemma run_heads_spec s : StronglySorted rec_lt s -> forall prev,
  (forall r0, prev = Some r0 -> Forall (fun y => r0 = y.1 \/ row_lt r0 y.1) s) ->
  Forall (fun y => y ∈ s /\ prev <> Some y.1
                   /\ Forall (fun z => z.1 = y.1 -> (y.2 <= z.2)%nat) s)
         (Np.run_heads prev s)
  /\ Forall (fun z => prev = Some z.1 \/ z.1 ∈ (Np.run_heads prev s).*1) s
  /\ StronglySorted row_lt (Np.run_heads prev s).*1
  /\ (forall r0, prev = Some r0 ->
      Forall (fun y => row_lt r0 y.1) (Np.run_heads prev s)).
Proof.
  induction 1 as [|y s Hs IH Hy]; intros prev Hprev; simpl.
  - repeat split; constructor.
  - assert (Hle : forall r0, Some y.1 = Some r0 ->
                  Forall (fun z => r0 = z.1 \/ row_lt r0 z.1) s).
    { intros r0 [= <-]. eapply Forall_impl; [exact Hy|].
      intros z [Hz|[Hz _]]; auto. }
    destruct (IH (Some y.1) Hle) as (I1 & I2 & I3 & I4).
    specialize (I4 _ eq_refl).
    destruct (decide (prev = Some y.1)) as [->|Hne].
    + split; [|split; [|split]]; trivial.
      * eapply Forall_impl; [exact I1|]. intros e (He & Hk & Hmin).
        split; [now right|]. split; [exact Hk|].
        constructor; [|exact Hmin]. intros E. congruence.
      * constructor; [now left|]. exact I2.
      * intros r0 [= <-]. exact I4.
    + assert (Hr0 : forall r0, prev = Some r0 -> row_lt r0 y.1).
      { intros r0 ->. specialize (Hprev _ eq_refl).
        apply Forall_cons in Hprev as [[E|Hlt] _]; [congruence|exact Hlt]. }
      split; [|split; [|split]].
      * constructor.
        -- split; [now left|]. split; [exact Hne|].
           constructor; [lia|]. eapply Forall_impl; [exact Hy|].
           intros z [Hz|[_ Hz]] E; [|lia].
           rewrite E in Hz. now apply row_lt_irrefl in Hz.
        -- rewrite Forall_forall in I4.
           eapply Forall_impl with (P := fun e => e ∈ Np.run_heads (Some y.1) s /\ _);
             [apply Forall_and; split; [apply Forall_forall; intros e He; exact He|exact I1]|].
           intros e (Hin & He & Hk & Hmin).
           split; [now right|]. split.
           ++ intros E. specialize (Hr0 _ E).
              specialize (I4 _ Hin).
              apply (row_lt_irrefl e.1). eapply row_lt_trans; eassumption.
           ++ constructor; [|exact Hmin]. intros E. congruence.
      * constructor; [right; simpl; now left|].
        eapply Forall_impl; [exact I2|]. intros z [[= E]|Hz]; right; simpl.
        -- rewrite E. now left.
        -- now right.
      * simpl. constructor; [exact I3|].
        apply Forall_fmap. exact I4.
      * intros r0 E. specialize (Hr0 _ E). constructor; [exact Hr0|].
        eapply Forall_impl; [exact I4|]. intros e He.
        eapply row_lt_trans; eassumption.
Qed.

(** What [np.unique(a, axis=0, return_index=True)] returns: the distinct
    rows in ascending order, each with the index of its first occurrence. *)
Lemma unique_rows_spec (a : list Np.row) :
  Forall2 (fun i k => a !! i = Some k /\ forall j, (j < i)%nat -> a !! j <> Some k)
          (Np.unique_rows a).2 (Np.unique_rows a).1
  /\ StronglySorted row_lt (Np.unique_rows a).1
  /\ (forall j k, a !! j = Some k -> k ∈ (Np.unique_rows a).1).
Proof.
  unfold Np.unique_rows. simpl.
  destruct (run_heads_spec _ (argsort_stable_sorted a) None) as (H1 & H2 & H3 & _);
    [discriminate|].
  split; [|split; [exact H3|]].
  - apply Forall2_fmap, Forall_Forall2_diag.
    eapply Forall_impl; [exact H1|].
    intros [r i] (Hin & _ & Hmin). simpl in *.
    apply elem_of_argsort_stable in Hin. split; [exact Hin|].
    intros j Hj Hjr. apply elem_of_argsort_stable in Hjr.
    rewrite Forall_forall in Hmin. specialize (Hmin _ Hjr eq_refl). simpl in Hmin. lia.
  - intros j k Hjk. apply elem_of_argsort_stable in Hjk.
    rewrite Forall_forall in H2. destruct (H2 _ Hjk) as [?|?]; [discriminate|assumption].
Qed.

(** *** Rows that are already strictly ascending *)

Lemma argsort_from_sorted ks : StronglySorted row_lt ks -> forall k,
  foldr Np.insert_stable [] (imap (fun i r => (r, (k + i)%nat)) ks)
  = imap (fun i r => (r, (k + i)%nat)) ks.
Proof.
  induction 1 as [|x ks Hs IH Hx]; intros k; simpl; [reflexivity|].
  rewrite (imap_ext _ (fun i r => (r, (S k + i)%nat)))
    by (intros; unfold compose; simpl; f_equal; lia).
  rewrite IH. destruct ks as [|y ks]; simpl; [reflexivity|].
  apply Forall_cons in Hx as [Hxy _]. unfold row_lt in Hxy. now rewrite Hxy.
Qed.

Lemma run_heads_sorted l : StronglySorted row_lt l.*1 -> forall prev,
  (forall r0, prev = Some r0 -> Forall (row_lt r0) l.*1) ->
  Np.run_heads prev l = l.
Proof.
  induction l as [|y l IH]; simpl; intros Hs prev Hprev; [reflexivity|].
  apply StronglySorted_inv in Hs as [Hs Hy].
  destruct (decide (prev = Some y.1)) as [E|_].
  - specialize (Hprev _ E). apply Forall_cons in Hprev as [Hyy _].
    now apply row_lt_irrefl in Hyy.
  - f_equal. apply IH; [exact Hs|]. now intros r0 [= <-].
Qed.

Lemma imap_pairs_fst (ks : list Np.row) : forall k,
  (imap (fun i r => (r, (k + i)%nat)) ks).*1 = ks.
Proof.
  induction ks as [|x ks IH]; intros k; simpl; [reflexivity|].
  rewrite (imap_ext _ (fun i r => (r, (S k + i)%nat)))
    by (intros; unfold compose; simpl; f_equal; lia).
  now rewrite IH.
Qed.

Lemma imap_pairs_snd (ks : list Np.row) : forall k,
  (imap (fun i r => (r, (k + i)%nat)) ks).*2 = seq k (length ks).
Proof.
  induction ks as [|x ks IH]; intros k; simpl; [reflexivity|].
  rewrite (imap_ext _ (fun i r => (r, (S k + i)%nat)))
    by (intros; unfold compose; simpl; f_equal; lia).
  rewrite IH. f_equal. lia.
Qed.

Lemma unique_rows_sorted ks :
  StronglySorted row_lt ks -> Np.unique_rows ks = (ks, seq 0 (length ks)).
Proof.
  intros Hs. unfold Np.unique_rows.
  assert (Hsort : Np.argsort_stable ks = imap (fun i r => (r, (0 + i)%nat)) ks)
    by exact (argsort_from_sorted ks Hs 0).
  rewrite Hsort, run_heads_sorted.
  - now rewrite imap_pairs_fst, imap_pairs_snd.
  - now rewrite imap_pairs_fst.
  - discriminate.
Qed.

(** *** Fancy indexing *)

Lemma take_cons {A} (a : list A) i idx :
  Np.take a (i :: idx)
  = match a !! i with
    | Some x => match Np.take a idx with
                | Ok out => Ok (x :: out)
                | Raise e => Raise e
                end
    | None => Raise IndexError
    end.
Proof. unfold Np.take. simpl. destruct (a !! i); reflexivity. Qed.

Lemma take_in_range {A} (a : list A) idx :
  Forall (fun i => (i < length a)%nat) idx ->
  exists out, Np.take a idx = Ok out /\ picked a idx out.
Proof.
  induction 1 as [|i idx Hi _ (out & Hout & Hp)].
  - exists []. split; [reflexivity|constructor].
  - destruct (lookup_lt_is_Some_2 a i Hi) as [x Hx].
    exists (x :: out). rewrite take_cons, Hx, Hout.
    split; [reflexivity|now constructor].
Qed.

Lemma take_all_from {A} (a : list A) : forall pre,
  Np.take (pre ++ a) (seq (length pre) (length a)) = Ok a.
Proof.
  induction a as [|x a IH]; intros pre; [reflexivity|].
  simpl seq. rewrite take_cons.
  rewrite lookup_app_r by lia. rewrite Nat.sub_diag. simpl.
  specialize (IH (pre ++ [x])).
  rewrite <- app_assoc, length_app in IH. simpl in IH.
  rewrite Nat.add_1_r in IH. now rewrite IH.
Qed.

Lemma take_all {A} (a : list A) : Np.take a (seq 0 (length a)) = Ok a.
Proof. apply (take_all_from a []). Qed.

Lemma picked_length {A} (a : list A) idx out :
  picked a idx out -> length out = length idx.
Proof. intros H. symmetry. eapply Forall2_length, H. Qed.

(** * Voxel downsampling *)

Lemma map_is_fmap {A B} (f : A -> B) (l : list A) : map f l = f <$> l.
Proof. reflexivity. Qed.

Lemma picked_keys {A K} (f : A -> K) (a : list A) idx out ks
    (R : nat -> K -> Prop) :
  picked a idx out ->
  Forall2 (fun i k => map f a !! i = Some k /\ R i k) idx ks ->
  map f out = ks.
Proof.
  intros Hp. revert ks. induction Hp as [|i x idx out Hx _ IH]; intros ks Hk.
  - now inversion Hk.
  - inversion Hk as [|? k ? ks' [Hik _] Hrest]; subst. simpl.
    rewrite map_is_fmap, list_lookup_fmap, Hx in Hik. injection Hik as <-.
    f_equal. now apply IH.
Qed.

Lemma voxel_downsample_spec {C} (points : list point) (colors : option (list C)) v :
  aligned points colors ->
  exists pts' cols',
    Loader.voxel_downsample points colors v = Ok (pts', cols')
    /\ picked points (Np.unique_rows (map (Loader.voxel_index v) points)).2 pts'
    /\ picked_opt colors (Np.unique_rows (map (Loader.voxel_index v) points)).2 cols'
    /\ map (Loader.voxel_index v) pts'
       = (Np.unique_rows (map (Loader.voxel_index v) points)).1.
Proof.
  intros Hal. unfold Loader.voxel_downsample.
  set (ks := map (Loader.voxel_index v) points).
  destruct (unique_rows_spec ks) as (F2 & _ & _).
  set (idx := (Np.unique_rows ks).2) in *.
  assert (Hrange : Forall (fun i => (i < length points)%nat) idx).
  { clear -F2. induction F2 as [|i k idx uk [Hi _] _ IH]; constructor; [|exact IH].
    apply lookup_lt_Some in Hi. subst ks. now rewrite length_map in Hi. }
  destruct (take_in_range points idx Hrange) as (pts' & Hpts & Hpick).
  rewrite Hpts. cbn [mbind result_bind].
  destruct colors as [c|]; simpl in Hal.
  - rewrite <- Hal in Hrange.
    destruct (take_in_range c idx Hrange) as (c' & Hc & Hcpick).
    rewrite Hc. exists pts', (Some c'). repeat split; trivial.
    exact (picked_keys _ _ _ _ _ _ Hpick F2).
  - exists pts', None. repeat split; trivial.
    exact (picked_keys _ _ _ _ _ _ Hpick F2).
Qed.

Lemma astype_of_Z k : k <> 0 -> int32 k -> Np.astype_int32 (F64.of_Z k) = k.
Proof.
  intros Hk0 [Hlo Hhi]. unfold Np.int32_min, Np.int32_max in *.
  change (2 ^ 31) with 2147483648 in *.
  assert (Hexact : forall s p, Zpos p <= 2147483648 ->
            Np.astype_int32 (binary_round F64.prec F64.emax s p 0)
            = (if (- 2147483648 <=? cond_Zopp s (Zpos p))
                  && (cond_Zopp s (Zpos p) <=? 2147483648 - 1)
               then cond_Zopp s (Zpos p) else - 2147483648)).
  { intros s p Hp. pose proof (digits2_pos_bounds p) as [B1 _].
    assert (Hd : Zpos (digits2_pos p) <= 32).
    { assert (H : 2 ^ (Zpos (digits2_pos p) - 1) < 2 ^ 32)
        by (change (2 ^ 32) with 4294967296; lia).
      apply Z.pow_lt_mono_r_iff in H; lia. }
    destruct (binary_round_exact F64.prec F64.emax s p 0) as (m3 & -> & Hm3).
    { unfold fexp, emin, F64.prec, F64.emax. lia. }
    unfold fexp, emin, F64.prec, F64.emax in *.
    replace (Z.max (Zpos (digits2_pos p) + 0 - 53) (3 - 1024 - 53))
      with (Zpos (digits2_pos p) - 53) in * by lia.
    replace (Zpos (digits2_pos p) - 53 <=? 1024 - 53) with true
      by (symmetry; apply Z.leb_le; lia).
    unfold Np.astype_int32, Np.int32_min, Np.int32_max.
    change (2 ^ 31) with 2147483648.
    replace (0 <=? Zpos (digits2_pos p) - 53) with false
      by (symmetry; apply Z.leb_gt; lia).
    replace (- (Zpos (digits2_pos p) - 53)) with (0 - (Zpos (digits2_pos p) - 53))
      by lia.
    assert (Hpow : 0 < 2 ^ (0 - (Zpos (digits2_pos p) - 53)))
      by (apply Z.pow_pos_nonneg; lia).
    assert (Hq : Z.quot (cond_Zopp s (Zpos m3)) (2 ^ (0 - (Zpos (digits2_pos p) - 53)))
                 = cond_Zopp s (Zpos p)).
    { rewrite Hm3. destruct s; cbn [cond_Zopp].
      - rewrite Z.quot_opp_l by lia. f_equal. apply Z.quot_mul. lia.
      - apply Z.quot_mul. lia. }
    rewrite Hq. reflexivity. }
  unfold F64.of_Z, binary_normalize.
  destruct k as [|p|p]; [easy| |]; rewrite Hexact by lia; cbn [cond_Zopp].
  - replace (- 2147483648 <=? Zpos p) with true by (symmetry; apply Z.leb_le; lia).
    replace (Zpos p <=? 2147483648 - 1) with true by (symmetry; apply Z.leb_le; lia).
    reflexivity.
  - replace (- 2147483648 <=? - Zpos p) with true by (symmetry; apply Z.leb_le; lia).
    replace (- Zpos p <=? 2147483648 - 1) with true by (symmetry; apply Z.leb_le; lia).
    reflexivity.
Qed.

(** Within the [int32] range the cast of the floor is the floor. *)
Lemma astype_floor x k :
  floor_Z x = Some k -> int32 k -> Np.astype_int32 (Np.floor x) = k.
Proof.
  destruct x as [s|s| |s m e]; simpl; intros E Hk; try discriminate E.
  - now injection E as <-.
  - injection E as E. destruct (0 <=? e) eqn:He.
    + cbn [Np.astype_int32]. rewrite He, E.
      destruct Hk as [Hlo Hhi].
      replace (Np.int32_min <=? k) with true by (symmetry; now apply Z.leb_le).
      replace (k <=? Np.int32_max) with true by (symmetry; now apply Z.leb_le).
      reflexivity.
    + apply Z.leb_gt in He. rewrite Z.shiftr_div_pow2 by lia. rewrite E.
      destruct (k =? 0) eqn:Ek.
      * apply Z.eqb_eq in Ek. now subst k.
      * apply Z.eqb_neq in Ek. now apply astype_of_Z.
Qed.

Lemma voxel_index_key v p k :
  voxel_key v p = Some k -> int32 k.1.1 -> int32 k.1.2 -> int32 k.2 ->
  Loader.voxel_index v p = k.
Proof.
  unfold voxel_key, Loader.voxel_index. intros E Hx Hy Hz.
  destruct (floor_Z (F64.div p.1.1 v)) as [x|] eqn:Ex; [|discriminate E].
  destruct (floor_Z (F64.div p.1.2 v)) as [y|] eqn:Ey; [|discriminate E].
  destruct (floor_Z (F64.div p.2 v)) as [z|] eqn:Ez; [|discriminate E].
  injection E as <-. cbn [fst snd] in *.
  now rewrite (astype_floor _ _ Ex Hx), (astype_floor _ _ Ey Hy), (astype_floor _ _ Ez Hz).
Qed.

Lemma int32_voxels_key v points :
  int32_voxels v points ->
  Forall (fun p => voxel_key v p = Some (Loader.voxel_index v p)) points.
Proof.
  intros H. eapply Forall_impl; [exact H|]. intros p (k & E & Hx & Hy & Hz).
  now rewrite (voxel_index_key v p k E Hx Hy Hz).
Qed.

(** C2 (as amended).  For a cloud whose voxel keys
    floor(coordinate / voxel_size) are integers that an [int32] holds,
    [voxel_downsample] returns the points (and colours) at a list of indices
    [idx] such that: the voxel keys of the output are strictly ascending in
    lexicographic order (so no two retained points share a key); every
    retained point is the first point of its voxel in input order; every
    voxel of the input has its retained point. *)
Theorem voxel_downsample_first_point_sorted_by_key {C}
    (points : list point) (colors : option (list C)) (v : F64.t) :
  aligned points colors ->
  int32_voxels v points ->
  exists idx pts' cols' keys,
    Loader.voxel_downsample points colors v = Ok (pts', cols')
    /\ picked points idx pts'
    /\ picked_opt colors idx cols'
    /\ Forall2 (fun p k => voxel_key v p = Some k) pts' keys
    /\ StronglySorted row_lt keys
    /\ Forall (fun i => forall j p q,
                 (j < i)%nat -> points !! i = Some p -> points !! j = Some q ->
                 voxel_key v q <> voxel_key v p) idx
    /\ (forall q, q ∈ points ->
        exists p, p ∈ pts' /\ voxel_key v p = voxel_key v q).
Proof.
  intros Hal Hrange.
  pose proof (int32_voxels_key v points Hrange) as Hkey.
  rewrite Forall_forall in Hkey.
  destruct (voxel_downsample_spec points colors v Hal)
    as (pts' & cols' & Hrun & Hp & Hc & Hk).
  destruct (unique_rows_spec (map (Loader.voxel_index v) points)) as (F2 & Hs & Hcov).
  assert (Hsub : forall p, p ∈ pts' -> p ∈ points).
  { clear -Hp. induction Hp as [|i x idx out Hx _ IH]; intros p Hin.
    - now apply elem_of_nil in Hin.
    - apply elem_of_cons in Hin as [->|Hin]; [|now apply IH].
      now apply list_elem_of_lookup_2 in Hx. }
  exists (Np.unique_rows (map (Loader.voxel_index v) points)).2, pts', cols',
    (map (Loader.voxel_index v) pts').
  repeat split; trivial.
  - rewrite map_is_fmap. apply Forall2_fmap_r, Forall_Forall2_diag.
    apply Forall_forall. intros p Hin. apply Hkey, Hsub, Hin.
  - now rewrite Hk.
  - clear -F2 Hkey. induction F2 as [|i k idx uk [Hi Hfirst] _ IH]; constructor; [|exact IH].
    intros j p q Hj Hp Hq E. apply (Hfirst j Hj).
    rewrite map_is_fmap, list_lookup_fmap in Hi |- *.
    rewrite Hp in Hi. rewrite Hq. simpl in *.
    rewrite (Hkey p), (Hkey q) in E by (eapply list_elem_of_lookup_2; eassumption).
    congruence.
  - intros q Hq. pose proof Hq as Hq'. apply list_elem_of_lookup in Hq as [j Hj].
    assert (Hin : Loader.voxel_index v q ∈ map (Loader.voxel_index v) pts').
    { rewrite Hk. apply (Hcov j).
      rewrite map_is_fmap. now apply list_lookup_fmap_Some_2. }
    rewrite map_is_fmap in Hin.
    apply list_elem_of_fmap in Hin as (p & E & Hin). exists p. split; [exact Hin|].
    rewrite (Hkey p), (Hkey q) by auto. now rewrite E.
Qed.

(** Beyond the [int32] range the cast merges voxels that their keys tell
    apart: with voxel size 1 the points at x = 5000000000 and x = 6000000000
    have different keys, both rows become [-2^31] in the cast, and the
    second point is dropped. *)
Remark voxel_downsample_merges_beyond_int32 :
  voxel_key (F64.of_Z 1) (ipoint 5000000000 0 0) = Some (5000000000, 0, 0)
  /\ voxel_key (F64.of_Z 1) (ipoint 6000000000 0 0) = Some (6000000000, 0, 0)
  /\ Loader.voxel_downsample [ipoint 5000000000 0 0; ipoint 6000000000 0 0]
       (None : option (list color)) (F64.of_Z 1)
     = Ok ([ipoint 5000000000 0 0], None).
Proof. repeat split; vm_compute; reflexivity. Qed.

(** C3.  Downsampling the output of [voxel_downsample] again with the same
    voxel size returns it unchanged, colours included. *)
Theorem voxel_downsample_idempotent {C}
    (points : list point) (colors : option (list C)) (v : F64.t) :
  aligned points colors ->
  exists r,
    Loader.voxel_downsample points colors v = Ok r
    /\ Loader.voxel_downsample r.1 r.2 v = Ok r.
Proof.
  intros Hal.
  destruct (voxel_downsample_spec points colors v Hal)
    as (pts' & cols' & Hrun & Hp & Hc & Hk).
  destruct (unique_rows_spec (map (Loader.voxel_index v) points)) as (_ & Hs & _).
  rewrite <- Hk in Hs.
  exists (pts', cols'). split; [exact Hrun|]. cbn [fst snd].
  unfold Loader.voxel_downsample.
  rewrite (unique_rows_sorted _ Hs). cbn [fst snd].
  rewrite length_map, take_all. cbn [mbind result_bind].
  destruct colors as [c|], cols' as [c'|]; simpl in Hc; try easy.
  replace (length pts') with (length c')
    by (rewrite (picked_length _ _ _ Hc), (picked_length _ _ _ Hp); reflexivity).
  now rewrite take_all.
Qed.

(** C7 (as amended).  The downsampling step of [load] is skipped exactly
    when the voxel size is absent or a zero; every other size, a negative
    one included, runs [voxel_downsample] with that size. *)
Theorem load_downsample_skips_zero_only {C}
    (points : list point) (colors : option (list C)) :
  (forall v, v = None \/ (exists s, v = Some (S754_zero s)) ->
     Loader.load_downsample v points colors = Ok (points, colors))
  /\ (forall x, F64.truthy x = true ->
      Loader.load_downsample (Some x) points colors
      = Loader.voxel_downsample points colors x).
Proof.
  split.
  - intros v [->|[s ->]]; reflexivity.
  - intros x Hx. unfold Loader.load_downsample. simpl. now rewrite Hx.
Qed.

(** The theorem at three points on the x axis, two of them in one voxel. *)
Lemma voxel_downsample_first_point_sorted_by_key_witness :
  aligned [dpoint 15 0 0 10; dpoint 5 0 0 10; dpoint 17 0 0 10]
          (Some [1%nat; 2%nat; 3%nat])
  /\ int32_voxels (F64.of_Z 1) [dpoint 15 0 0 10; dpoint 5 0 0 10; dpoint 17 0 0 10]
  /\ exists idx pts' cols' keys,
       Loader.voxel_downsample [dpoint 15 0 0 10; dpoint 5 0 0 10; dpoint 17 0 0 10]
         (Some [1%nat; 2%nat; 3%nat]) (F64.of_Z 1) = Ok (pts', cols')
       /\ picked [dpoint 15 0 0 10; dpoint 5 0 0 10; dpoint 17 0 0 10] idx pts'
       /\ picked_opt (Some [1%nat; 2%nat; 3%nat]) idx cols'
       /\ Forall2 (fun p k => voxel_key (F64.of_Z 1) p = Some k) pts' keys
       /\ StronglySorted row_lt keys
       /\ Forall (fun i => forall j p q,
                    (j < i)%nat ->
                    [dpoint 15 0 0 10; dpoint 5 0 0 10; dpoint 17 0 0 10] !! i = Some p ->
                    [dpoint 15 0 0 10; dpoint 5 0 0 10; dpoint 17 0 0 10] !! j = Some q ->
                    voxel_key (F64.of_Z 1) q <> voxel_key (F64.of_Z 1) p)
                 idx
       /\ (forall q, q ∈ [dpoint 15 0 0 10; dpoint 5 0 0 10; dpoint 17 0 0 10] ->
           exists p, p ∈ pts'
                     /\ voxel_key (F64.of_Z 1) p = voxel_key (F64.of_Z 1) q).
Proof.
  assert (H : aligned [dpoint 15 0 0 10; dpoint 5 0 0 10; dpoint 17 0 0 10]
                      (Some [1%nat; 2%nat; 3%nat])) by reflexivity.
  assert (H32 : int32_voxels (F64.of_Z 1)
                  [dpoint 15 0 0 10; dpoint 5 0 0 10; dpoint 17 0 0 10]).
  { repeat (constructor;
            [eexists; split; [vm_compute; reflexivity|];
             repeat split; vm_compute; discriminate|]).
    constructor. }
  split; [exact H|]. split; [exact H32|].
  exact (voxel_downsample_first_point_sorted_by_key _ _ (F64.of_Z 1) H H32).
Defined.

(** C2, as stated, fails: of the points 1.5, 0.5, 1.7 on the x axis with
    voxel size 1, the voxel of 1.5 is seen first, but the output starts with
    0.5, whose voxel key is smaller. *)
Lemma voxel_downsample_not_first_seen_order :
  Loader.voxel_downsample [dpoint 15 0 0 10; dpoint 5 0 0 10; dpoint 17 0 0 10]
    (None : option (list color)) (F64.of_Z 1)
  = Ok ([dpoint 5 0 0 10; dpoint 15 0 0 10], None)
  /\ first_seen_dedup [dpoint 15 0 0 10; dpoint 5 0 0 10; dpoint 17 0 0 10] (F64.of_Z 1)
     = [dpoint 15 0 0 10; dpoint 5 0 0 10]
  /\ Loader.voxel_downsample [dpoint 15 0 0 10; dpoint 5 0 0 10; dpoint 17 0 0 10]
       (None : option (list color)) (F64.of_Z 1)
     <> Ok (first_seen_dedup [dpoint 15 0 0 10; dpoint 5 0 0 10; dpoint 17 0 0 10]
              (F64.of_Z 1), None).
Proof.
  split; [vm_compute; reflexivity|]. split; [vm_compute; reflexivity|].
  vm_compute. discriminate.
Qed.

(** The theorem at the same three points, with colours. *)
Lemma voxel_downsample_idempotent_witness :
  aligned [dpoint 15 0 0 10; dpoint 5 0 0 10; dpoint 17 0 0 10]
          (Some [1%nat; 2%nat; 3%nat])
  /\ exists r,
       Loader.voxel_downsample [dpoint 15 0 0 10; dpoint 5 0 0 10; dpoint 17 0 0 10]
         (Some [1%nat; 2%nat; 3%nat]) (F64.of_Z 1) = Ok r
       /\ Loader.voxel_downsample r.1 r.2 (F64.of_Z 1) = Ok r.
Proof.
  assert (H : aligned [dpoint 15 0 0 10; dpoint 5 0 0 10; dpoint 17 0 0 10]
                      (Some [1%nat; 2%nat; 3%nat])) by reflexivity.
  split; [exact H|].
  exact (voxel_downsample_idempotent _ _ (F64.of_Z 1) H).
Defined.

(** The theorem at voxel size -0.0. *)
Lemma load_downsample_skips_zero_only_witness :
  (Some (S754_zero true) = None \/ exists s, Some (S754_zero true) = Some (S754_zero s))
  /\ Loader.load_downsample (Some (S754_zero true))
       [dpoint 1 0 0 10; dpoint 12 0 0 100] (None : option (list color))
     = Ok ([dpoint 1 0 0 10; dpoint 12 0 0 100], None).
Proof.
  assert (H : Some (S754_zero true) = None
              \/ exists s, Some (S754_zero true) = Some (S754_zero s))
    by (right; now exists true).
  split; [exact H|].
  exact (proj1 (load_downsample_skips_zero_only _ _) _ H).
Defined.

(** C7, as stated, fails: with voxel size -1.0 the step is not skipped;
    the points 0.1 and 0.12 fall into one voxel and only the first is kept. *)
Lemma load_downsample_runs_for_negative_size :
  Loader.load_downsample (Some (F64.of_Z (-1)))
    [dpoint 1 0 0 10; dpoint 12 0 0 100] (None : option (list color))
  = Ok ([dpoint 1 0 0 10], None)
  /\ Loader.load_downsample (Some (F64.of_Z (-1)))
       [dpoint 1 0 0 10; dpoint 12 0 0 100] (None : option (list color))
     <> Ok ([dpoint 1 0 0 10; dpoint 12 0 0 100], None).
Proof. split; [vm_compute; reflexivity|vm_compute; discriminate]. Qed.

(** * Classification colours *)

Lemma classification_color_listed cls c :
  Cityscape.CLASSIFICATION_COLORS !! cls = Some c ->
  unit_rgb c = true /\ unit_rgb (widen (Cityscape.store_f32 c)) = true.
Proof.
  intros H. apply elem_of_list_to_map_2 in H.
  repeat (apply elem_of_cons in H as [H|H];
          [injection H as -> ->; split; vm_compute; reflexivity|]).
  now apply elem_of_nil in H.
Qed.

Lemma colorize_unit cls :
  unit_rgb (Cityscape.colorize cls) = true
  /\ unit_rgb (widen (Cityscape.store_f32 (Cityscape.colorize cls))) = true.
Proof.
  unfold Cityscape.colorize.
  destruct (Cityscape.CLASSIFICATION_COLORS !! cls) as [c|] eqn:E; simpl.
  - now apply classification_color_listed with cls.
  - split; vm_compute; reflexivity.
Qed.

(** C4.  Every integer code has a colour whose components lie in [0, 1],
    also after the store into the [float32] array.  The sixteen codes of the
    table get the colours written there, code 6 the building colour
    (0.9, 0.1, 0.1); every other code, 999 among them, gets the default grey
    (0.5, 0.5, 0.5).  The colours are given by the bits of their binary64
    components ([tenth k] is the number the literal [0.k] denotes). *)
Theorem colorize_total_table_or_grey :
  (forall cls,
     unit_rgb (Cityscape.colorize cls) = true
     /\ unit_rgb (widen (Cityscape.store_f32 (Cityscape.colorize cls))) = true)
  /\ Cityscape.colorize 0 = (tenth 5, tenth 5, tenth 5)
  /\ Cityscape.colorize 1 = (tenth 3, tenth 3, tenth 3)
  /\ Cityscape.colorize 2 = (tenth 6, tenth 4, tenth 2)
  /\ Cityscape.colorize 3 = (tenth 2, tenth 6, tenth 2)
  /\ Cityscape.colorize 4 = (tenth 1, tenth 7, tenth 1)
  /\ Cityscape.colorize 5 = (tenth 0, tenth 8, tenth 0)
  /\ Cityscape.colorize 6
     = (S754_finite false 8106479329266893 (-53),
        S754_finite false 7205759403792794 (-56),
        S754_finite false 7205759403792794 (-56))
  /\ Cityscape.colorize 7 = (tenth 9, tenth 9, tenth 0)
  /\ Cityscape.colorize 9 = (tenth 0, tenth 5, tenth 9)
  /\ Cityscape.colorize 10 = (tenth 5, tenth 0, tenth 9)
  /\ Cityscape.colorize 11 = (tenth 3, tenth 3, tenth 3)
  /\ Cityscape.colorize 13 = (tenth 8, tenth 8, tenth 2)
  /\ Cityscape.colorize 14 = (tenth 9, tenth 5, tenth 0)
  /\ Cityscape.colorize 15 = (tenth 7, tenth 3, tenth 0)
  /\ Cityscape.colorize 17 = (tenth 4, tenth 4, tenth 4)
  /\ Cityscape.colorize 18 = (tenth 0, tenth 8, tenth 8)
  /\ (forall cls,
      cls ∉ [0; 1; 2; 3; 4; 5; 6; 7; 9; 10; 11; 13; 14; 15; 17; 18] ->
      Cityscape.colorize cls
      = (S754_finite false 4503599627370496 (-53),
         S754_finite false 4503599627370496 (-53),
         S754_finite false 4503599627370496 (-53)))
  /\ Cityscape.colorize 999
     = (S754_finite false 4503599627370496 (-53),
        S754_finite false 4503599627370496 (-53),
        S754_finite false 4503599627370496 (-53)).
Proof.
  split; [exact colorize_unit|].
  do 16 (split; [vm_compute; reflexivity|]).
  split; [|vm_compute; reflexivity].
  intros cls Hcls. unfold Cityscape.colorize, Cityscape.CLASSIFICATION_COLORS.
  rewrite not_elem_of_list_to_map_1; [vm_compute; reflexivity|exact Hcls].
Qed.

Lemma fill_colors_all classification : forall pre rest,
  length rest = length classification ->
  Cityscape.fill_colors (length pre) classification (pre ++ rest)
  = Ok (pre ++ map (fun cls => Cityscape.store_f32 (Cityscape.colorize cls))
                   classification).
Proof.
  induction classification as [|cls classification IH]; intros pre rest Hlen.
  - destruct rest; [reflexivity|discriminate].
  - destruct rest as [|r rest]; [discriminate|]. injection Hlen as Hlen.
    cbn [Cityscape.fill_colors].
    rewrite decide_True by (rewrite length_app; simpl; lia).
    rewrite insert_app_r_alt by lia. rewrite Nat.sub_diag. cbn [list_insert insert].
    specialize (IH (pre ++ [Cityscape.store_f32 (Cityscape.colorize cls)]) rest Hlen).
    rewrite length_app, Nat.add_1_r, <- !app_assoc in IH. exact IH.
Qed.


(** * Statistical outlier removal on fewer points than neighbours + 1 *)

Lemma add_absorbs_l x y : inf_or_nan x -> inf_or_nan (F64.add x y).
Proof.
  intros [->| ->]; [|now right].
  destruct y as [s|[]| |s m e]; simpl; unfold inf_or_nan; auto.
Qed.

Lemma add_inf_r x : inf_or_nan (F64.add x F64.inf).
Proof. destruct x as [s|[]| |s m e]; simpl; unfold inf_or_nan; auto. Qed.

Lemma foldl_add_absorbs l : forall acc,
  inf_or_nan acc -> inf_or_nan (foldl F64.add acc l).
Proof.
  induction l as [|x l IH]; intros acc H; simpl; [exact H|].
  now apply IH, add_absorbs_l.
Qed.

Lemma foldl_add_inf l : forall acc,
  F64.inf ∈ l -> inf_or_nan (foldl F64.add acc l).
Proof.
  induction l as [|x l IH]; intros acc H; simpl.
  - now apply elem_of_nil in H.
  - apply elem_of_cons in H as [<-|H]; [|now apply IH].
    apply foldl_add_absorbs, add_inf_r.
Qed.

Lemma foldl_add_all l : forall acc,
  inf_or_nan acc \/ l <> [] -> Forall inf_or_nan l ->
  inf_or_nan (foldl F64.add acc l).
Proof.
  intros acc [H|H] Hall; [now apply foldl_add_absorbs|].
  destruct Hall as [|x l Hx _]; [easy|]. simpl.
  apply foldl_add_absorbs.
  destruct Hx as [->| ->]; [apply add_inf_r|].
  destruct acc; now right.
Qed.

Lemma of_nat_signed n : signed false (F64.of_Z (Z.of_nat n)).
Proof. apply binary_normalize_nonneg. lia. Qed.

Lemma div_inf_or_nan x y :
  inf_or_nan x -> signed false y -> inf_or_nan (F64.div x y).
Proof.
  intros [->| ->] Hy; [|now right].
  destruct y as [s|s| |s m e]; simpl in *; subst; unfold inf_or_nan; auto.
Qed.

Lemma mean_inf l : F64.inf ∈ l -> inf_or_nan (Np.mean l).
Proof.
  intros H. apply div_inf_or_nan; [now apply foldl_add_inf|apply of_nat_signed].
Qed.

Lemma mean_all l : l <> [] -> Forall inf_or_nan l -> inf_or_nan (Np.mean l).
Proof.
  intros Hne H. apply div_inf_or_nan; [|apply of_nat_signed].
  apply foldl_add_all; auto.
Qed.

Lemma foldl_add_nan l : forall acc,
  acc = S754_nan \/ l <> [] -> Forall (fun x => x = S754_nan) l ->
  foldl F64.add acc l = S754_nan.
Proof.
  induction l as [|x l IH]; intros acc Hacc Hall; simpl.
  - now destruct Hacc.
  - apply Forall_cons in Hall as [-> Hall]. apply IH; [|exact Hall].
    left. now destruct acc.
Qed.

Lemma std_nan l : l <> [] -> Forall inf_or_nan l -> Np.std l = S754_nan.
Proof.
  intros Hne H. unfold Np.std. cbv zeta.
  pose proof (mean_all l Hne H) as Hm.
  set (m := Np.mean l) in *.
  match goal with
  | |- F64.sqrt (Np.mean ?dev) = _ => assert (Hdev : Np.mean dev = S754_nan)
  end.
  { unfold Np.mean, Np.sum. rewrite foldl_add_nan; [reflexivity| |].
    - right. now destruct l.
    - apply Forall_fmap. eapply Forall_impl; [exact H|].
      intros x Hx. simpl. destruct Hx as [->| ->], Hm as [->| ->]; reflexivity. }
  now rewrite Hdev.
Qed.

Lemma insert_sorted_length d l :
  length (Scipy.insert_sorted d l) = S (length l).
Proof.
  induction l as [|y l IH]; simpl; [reflexivity|].
  destruct (F64.le d y); simpl; now rewrite ?IH.
Qed.

Lemma sort_length l : length (Scipy.sort l) = length l.
Proof.
  induction l as [|x l IH]; simpl; [reflexivity|].
  now rewrite insert_sorted_length, IH.
Qed.

(** With at most [k] data points, the row of [k + 1] distances has an
    infinite entry after the first. *)
Lemma query1_row_has_inf data k x :
  (1 <= length data <= k)%nat ->
  F64.inf ∈ drop 1 (Scipy.query1 data (S k) x).
Proof.
  intros Hn. unfold Scipy.query1.
  apply list_elem_of_lookup. exists (length data - 1)%nat.
  rewrite lookup_drop, lookup_take_lt by lia.
  rewrite lookup_app_r by (rewrite sort_length, length_map; lia).
  rewrite sort_length, length_map.
  apply lookup_replicate_2. lia.
Qed.

Lemma mask_nan_threshold {A} (a : list A) (ms : list F64.t) :
  length ms = length a ->
  Np.mask_index a (map (fun m => F64.lt m S754_nan) ms) = Ok [].
Proof.
  intros Hlen.
  unfold Np.mask_index. rewrite length_map, decide_True by exact Hlen. f_equal.
  revert a Hlen. induction ms as [|m ms IH]; intros [|x a] Hlen; try easy.
  injection Hlen as Hlen. simpl.
  replace (F64.lt m S754_nan) with false by (now destruct m).
  now apply IH.
Qed.

(** C1 is contradicted by the code.  With 1 <= N <= k finite points every
    row of distances holds an infinite entry, every mean distance is
    infinite or NaN, the threshold is NaN, no comparison with it holds, and
    all N points are dropped; with N = 0 the final report divides by zero. *)
Theorem remove_outliers_drops_all_when_few {C}
    (points : list point) (colors : option (list C))
    (nb_neighbors : nat) (std_ratio : F64.t) :
  Forall (fun p => Scipy.point_finite p = true) points ->
  aligned points colors ->
  (length points <= nb_neighbors)%nat ->
  Loader.remove_outliers points colors nb_neighbors std_ratio
  = match points with
    | [] => if decide (nb_neighbors = 0%nat) then Raise IndexError
            else Raise ZeroDivisionError
    | _ :: _ => Ok ([], (fun _ => []) <$> colors)
    end.
Proof.
  intros Hfin Hal Hn. unfold Loader.remove_outliers, Scipy.query.
  assert (Hall : forallb Scipy.point_finite points = true).
  { clear -Hfin. induction Hfin; simpl; [reflexivity|]. now rewrite H, IHHfin. }
  rewrite Hall. cbn [andb mbind result_bind].
  destruct points as [|p points].
  - destruct (decide (nb_neighbors = 0%nat)); [reflexivity|].
    destruct colors as [[|c cs]|]; simpl in Hal; try discriminate; reflexivity.
  - set (pts := p :: points) in *.
    assert (Hk : nb_neighbors <> 0%nat) by (simpl in Hn; lia).
    rewrite decide_False by exact Hk.
    set (ms := map (fun row => Np.mean (drop 1 row))
                   (map (Scipy.query1 pts (S nb_neighbors)) pts)).
    assert (Hms : Forall inf_or_nan ms).
    { subst ms. apply Forall_fmap, Forall_fmap, Forall_forall. intros x _. simpl.
      apply mean_inf, query1_row_has_inf. simpl in *. lia. }
    assert (Hne : ms <> []) by (subst ms pts; discriminate).
    assert (Hlen : length ms = length pts) by (subst ms; now rewrite !length_map).
    assert (Ht : F64.add (Np.mean ms) (F64.mul std_ratio (Np.std ms)) = S754_nan).
    { rewrite (std_nan ms Hne Hms).
      replace (F64.mul std_ratio S754_nan) with S754_nan by (now destruct std_ratio).
      now destruct (Np.mean ms). }
    rewrite Ht.
    rewrite (mask_nan_threshold pts ms Hlen).
    cbn [mbind result_bind].
    destruct colors as [c|]; simpl in Hal.
    + rewrite (mask_nan_threshold c ms) by (rewrite Hlen; subst pts; simpl in *; lia).
      reflexivity.
    + reflexivity.
Qed.

(** The theorem at three points and the default 20 neighbours. *)
Lemma remove_outliers_drops_all_when_few_witness :
  Forall (fun p => Scipy.point_finite p = true)
         [ipoint 0 0 0; ipoint 1 0 0; ipoint 0 1 0]
  /\ aligned [ipoint 0 0 0; ipoint 1 0 0; ipoint 0 1 0] (None : option (list color))
  /\ (length [ipoint 0 0 0; ipoint 1 0 0; ipoint 0 1 0] <= 20)%nat
  /\ Loader.remove_outliers [ipoint 0 0 0; ipoint 1 0 0; ipoint 0 1 0]
       (None : option (list color)) 20 (F64.of_Z 2)
     = Ok ([], None).
Proof.
  assert (H1 : Forall (fun p => Scipy.point_finite p = true)
                 [ipoint 0 0 0; ipoint 1 0 0; ipoint 0 1 0])
    by (repeat constructor).
  assert (H2 : aligned [ipoint 0 0 0; ipoint 1 0 0; ipoint 0 1 0]
                 (None : option (list color))) by exact I.
  assert (H3 : (length [ipoint 0 0 0; ipoint 1 0 0; ipoint 0 1 0] <= 20)%nat)
    by (simpl; lia).
  split; [exact H1|]. split; [exact H2|]. split; [exact H3|].
  exact (remove_outliers_drops_all_when_few _ None 20 (F64.of_Z 2) H1 H2 H3).
Defined.

(** * The height colormap *)

(** The three clipped values of a normalized height that is not NaN lie
    in [0, 1], before and after the store into the [float32] array. *)
Lemma clip_unit_stored x :
  not_nan x -> valid64 x ->
  within (F64.of_Z 0) (F64.of_Z 1) (Np.clip x (F64.of_Z 0) (F64.of_Z 1)) = true
  /\ within (F64.of_Z 0) (F64.of_Z 1)
       (F32.to_f64 (F32.of_f64 (Np.clip x (F64.of_Z 0) (F64.of_Z 1)))) = true.
Proof.
  intros Hn Hv.
  assert (H : within (F64.of_Z 0) (F64.of_Z 1)
                (Np.clip x (F64.of_Z 0) (F64.of_Z 1)) = true)
    by (apply clip_within; [exact Hn|reflexivity|reflexivity]).
  split; [exact H|].
  apply store_f32_within_unit; [|exact H].
  apply clip_valid; [exact Hv|reflexivity|reflexivity].
Qed.

Lemma colormap_rgb_unit n :
  not_nan n ->
  unit_rgb (Renderer.colormap_rgb n) = true
  /\ unit_rgb (widen (Cityscape.store_f32 (Renderer.colormap_rgb n))) = true.
Proof.
  intros Hn. unfold unit_rgb, widen, Cityscape.store_f32, Renderer.colormap_rgb.
  cbv zeta. cbn [fst snd].
  set (half := F64.lit 5 10). set (k := F64.lit 15 10).
  destruct (clip_unit_stored (F64.sub (F64.mul k n) half)) as [A1 A2].
  { apply SFsub_not_nan_r; [|exact I]. apply SFmul_not_nan_l; [exact I|exact Hn]. }
  { apply sub_valid; [reflexivity|exact I]. }
  destruct (clip_unit_stored
              (F64.add (F64.mul (F64.of_Z (-2)) (F64.abs (F64.sub n half))) (F64.of_Z 1)))
    as [B1 B2].
  { apply SFadd_not_nan_r; [|exact I].
    apply SFmul_not_nan_l; [exact I|].
    apply SFabs_not_nan, SFsub_not_nan_r; [exact Hn|exact I]. }
  { apply add_valid; [reflexivity|exact I]. }
  destruct (clip_unit_stored (F64.sub (F64.mul k (F64.sub (F64.of_Z 1) n)) half))
    as [C1 C2].
  { apply SFsub_not_nan_r; [|exact I].
    apply SFmul_not_nan_l; [exact I|].
    apply SFsub_not_nan; [exact I|exact Hn]. }
  { apply sub_valid; [reflexivity|exact I]. }
  split; (apply andb_true_iff; split; [apply andb_true_iff; split|]); assumption.
Qed.

Lemma astype_f32_stored c :
  Renderer.astype_f32 (Cityscape.store_f32 c) = Cityscape.store_f32 c.
Proof.
  unfold Renderer.astype_f32, Cityscape.store_f32. cbn [fst snd].
  now rewrite !of_f64_idempotent.
Qed.

Lemma foldl_minimum_elem l : forall x, foldl Np.minimum x l ∈ x :: l.
Proof.
  induction l as [|y l IH]; intros x; simpl; [now left|].
  specialize (IH (Np.minimum x y)). unfold Np.minimum in *.
  destruct (F64.le x y || F64.isnan x).
  - apply elem_of_cons in IH as [->|IH]; [now left|now right; right].
  - now right.
Qed.

Lemma foldl_maximum_elem l : forall x, foldl Np.maximum x l ∈ x :: l.
Proof.
  induction l as [|y l IH]; intros x; simpl; [now left|].
  specialize (IH (Np.maximum x y)). unfold Np.maximum in *.
  destruct (F64.ge x y || F64.isnan x).
  - apply elem_of_cons in IH as [->|IH]; [now left|now right; right].
  - now right.
Qed.

Lemma finite_not_nan x : finite x -> not_nan x.
Proof. destruct x; simpl; unfold not_nan; easy. Qed.

Lemma normalize_heights_not_nan heights h_min h_max :
  Forall (fun h => finite h /\ valid64 h) heights ->
  h_min ∈ heights -> h_max ∈ heights ->
  finite (F64.sub h_max h_min) ->
  Forall not_nan (Renderer.normalize_heights heights h_min h_max).
Proof.
  intros Hall Hmin Hmax Hrange. unfold Renderer.normalize_heights.
  rewrite Forall_forall in Hall.
  destruct (Hall _ Hmin) as [Fmin Vmin]. destruct (Hall _ Hmax) as [Fmax Vmax].
  destruct (F64.gt h_max h_min) eqn:Hgt.
  - assert (Hnz : finite_nonzero (F64.sub h_max h_min)).
    { pose proof (SFsub_nonzero F64.prec F64.emax eq_refl h_max h_min
                    Vmax Vmin Fmax Fmin Hgt) as Hz.
      unfold F64.sub in *. destruct (SFsub F64.prec F64.emax h_max h_min); simpl in *; tauto. }
    apply Forall_fmap, Forall_forall. intros h Hh. simpl.
    apply SFdiv_not_nan; [|exact Hnz].
    apply SFsub_not_nan; [now apply Hall|now apply finite_not_nan].
  - apply Forall_fmap, Forall_forall. intros h _. discriminate.
Qed.

Section Colormap.
Import Renderer.
Variables np_cos np_sin : F64.t -> F64.t.

(** C10 (as amended).  On a non-empty cloud [height_colormap] does not
    raise and returns one colour per point, and [load_points] stores exactly
    these colours when none are given.  When [h_max > h_min] is false (all
    heights equal, or a NaN among them) nothing is divided and every colour
    is (0, 0, 1).  When the heights are finite and their range
    [h_max - h_min] does not overflow, every component of every colour lies
    in [0, 1]. *)
Theorem height_colormap_total_unit_if_range_finite
    (self : PointCloudRenderer) (pts : list point) :
  pts <> [] ->
  let heights := coords (fun p => p.2) pts in
  exists h_min h_max cols r,
    Np.amin heights = Ok h_min
    /\ Np.amax heights = Ok h_max
    /\ height_colormap heights = Ok cols
    /\ length cols = length pts
    /\ load_points np_cos np_sin self pts None = Ok r
    /\ colors r = Some cols
    /\ (F64.gt h_max h_min = false ->
        Forall (fun c => c = (F64.zero, F64.zero, F32.one)) cols)
    /\ (Forall (fun h => finite h /\ valid64 h) heights ->
        finite (F64.sub h_max h_min) ->
        Forall (fun c => unit_rgb (widen c) = true) cols).
Proof.
  intros Hne heights.
  destruct pts as [|p pts]; [easy|].
  set (h_min := foldl Np.minimum p.2 (coords (fun q => q.2) pts)).
  set (h_max := foldl Np.maximum p.2 (coords (fun q => q.2) pts)).
  set (cols := map (fun n => Cityscape.store_f32 (colormap_rgb n))
                   (normalize_heights heights h_min h_max)).
  exists h_min, h_max, cols.
  destruct (bbox_max_dim_cons p pts) as [m Hm].
  assert (Hcm : height_colormap heights = Ok cols) by reflexivity.
  eexists. split; [reflexivity|]. split; [reflexivity|]. split; [exact Hcm|].
  split; [|split; [|split; [|split]]].
  - subst cols. rewrite length_map. unfold normalize_heights.
    destruct (F64.gt _ _); subst heights; unfold coords; now rewrite !length_map.
  - unfold load_points. rewrite Hm. fold heights. rewrite Hcm.
    cbn [mbind result_bind]. reflexivity.
  - cbn [colors]. f_equal. subst cols. rewrite map_map.
    apply map_ext. intros n. apply astype_f32_stored.
  - intros Hgt. subst cols. unfold normalize_heights. rewrite Hgt.
    apply Forall_fmap, Forall_fmap, Forall_forall. intros h _.
    vm_compute. reflexivity.
  - intros Hfin Hrange. subst cols. apply Forall_fmap.
    eapply Forall_impl; [apply normalize_heights_not_nan; trivial|].
    + apply (foldl_minimum_elem (coords (fun q => q.2) pts) p.2).
    + apply (foldl_maximum_elem (coords (fun q => q.2) pts) p.2).
    + intros n Hn. now apply colormap_rgb_unit.
Qed.
End Colormap.

(** The theorem at the heights 1, 2, 3. *)
Lemma height_colormap_total_unit_if_range_finite_witness :
  [ipoint 0 0 1; ipoint 0 0 2; ipoint 0 0 3] <> []
  /\ Forall (fun h => finite h /\ valid64 h) [F64.of_Z 1; F64.of_Z 2; F64.of_Z 3]
  /\ finite (F64.sub (F64.of_Z 3) (F64.of_Z 1))
  /\ exists cols,
       Renderer.height_colormap [F64.of_Z 1; F64.of_Z 2; F64.of_Z 3] = Ok cols
       /\ Forall (fun c => unit_rgb (widen c) = true) cols.
Proof.
  assert (H : [ipoint 0 0 1; ipoint 0 0 2; ipoint 0 0 3] <> []) by discriminate.
  assert (Hf : Forall (fun h => finite h /\ valid64 h)
                 [F64.of_Z 1; F64.of_Z 2; F64.of_Z 3])
    by (repeat (constructor; [split; vm_compute; easy|]); constructor).
  assert (Hr : finite (F64.sub (F64.of_Z 3) (F64.of_Z 1))) by (vm_compute; exact I).
  split; [exact H|]. split; [exact Hf|]. split; [exact Hr|].
  destruct (height_colormap_total_unit_if_range_finite taylor_cos taylor_sin renderer0 _ H)
    as (h_min & h_max & cols & r & Hmin & Hmax & Hcm & _ & _ & _ & _ & Hunit).
  exists cols. split; [exact Hcm|].
  injection Hmin as <-. injection Hmax as <-.
  apply Hunit; [exact Hf|exact Hr].
Defined.

(** C10, as stated, fails: for the two finite heights -1e308 and 1e308
    the range overflows to infinity, the second normalized height is
    inf / inf, and the second colour is (NaN, NaN, NaN). *)
Lemma height_colormap_nan_on_overflow :
  Renderer.height_colormap [F64.of_Z (- 10 ^ 308); F64.of_Z (10 ^ 308)]
  = Ok [(F64.zero, F64.zero, F32.one); (F64.nan, F64.nan, F64.nan)]
  /\ Forall (fun h => finite h /\ valid64 h)
       [F64.of_Z (- 10 ^ 308); F64.of_Z (10 ^ 308)]
  /\ F64.sub (F64.of_Z (10 ^ 308)) (F64.of_Z (- 10 ^ 308)) = F64.inf.
Proof.
  split; [vm_compute; reflexivity|].
  split; [|vm_compute; reflexivity].
  repeat (constructor; [split; vm_compute; easy|]); constructor.
Qed.

(** * The loading pipeline: downsampling, sampling, metadata *)

Lemma picked_seq {A} (a : list A) : picked a (seq 0 (length a)) a.
Proof.
  destruct (take_in_range a (seq 0 (length a))) as (out & Hout & Hp).
  - apply Forall_seq. intros j Hj. lia.
  - rewrite take_all in Hout. now injection Hout as <-.
Qed.

Lemma picked_in_range {A} (a : list A) idx out :
  picked a idx out -> Forall (fun i => (i < length a)%nat) idx.
Proof.
  induction 1 as [|i x idx out Hx _ IH]; constructor; [|exact IH].
  eapply lookup_lt_Some, Hx.
Qed.

Lemma take_picked {A} (a : list A) idx out :
  picked a idx out -> Np.take a idx = Ok out.
Proof.
  intros Hp. destruct (take_in_range a idx (picked_in_range _ _ _ Hp)) as (out' & -> & Hp').
  f_equal. revert out' Hp'. induction Hp as [|i x idx out Hx _ IH]; intros out' Hp'.
  - now inversion Hp'.
  - inversion Hp' as [|? x' ? out'' Hx' Hp'']; subst.
    rewrite Hx in Hx'. injection Hx' as <-. f_equal. now apply IH.
Qed.

(** Picking from a picked list is picking from the original one. *)
Lemma picked_compose {A} (a b c : list A) i1 i2 :
  picked a i1 b -> picked b i2 c ->
  picked a ((fun j => default 0%nat (i1 !! j)) <$> i2) c.
Proof.
  intros H1 H2. induction H2 as [|j x i2 c Hx _ IH]; [constructor|].
  rewrite fmap_cons. constructor; [|exact IH].
  destruct (Forall2_lookup_r _ _ _ _ _ H1 Hx) as (i & Hi & Hai).
  now rewrite Hi.
Qed.

Lemma compose_nodup (i1 i2 : list nat) :
  NoDup i1 -> NoDup i2 -> Forall (fun j => (j < length i1)%nat) i2 ->
  NoDup ((fun j => default 0%nat (i1 !! j)) <$> i2).
Proof.
  intros N1 N2 Hr. apply NoDup_fmap_2_strong; [|exact N2].
  rewrite Forall_forall in Hr.
  intros j j' Hj Hj' E.
  destruct (lookup_lt_is_Some_2 i1 j (Hr _ Hj)) as [x Hx].
  destruct (lookup_lt_is_Some_2 i1 j' (Hr _ Hj')) as [x' Hx'].
  rewrite Hx, Hx' in E. simpl in E. subst x'.
  exact (NoDup_lookup i1 j j' x N1 Hx Hx').
Qed.

(** The indices [np.unique] returns are distinct, and there is one when
    the array has a row. *)
Lemma unique_indices_nodup (a : list Np.row) : NoDup (Np.unique_rows a).2.
Proof.
  destruct (unique_rows_spec a) as (F2 & Hs & _).
  revert F2 Hs. generalize (Np.unique_rows a).2 (Np.unique_rows a).1.
  intros idx ks F2. induction F2 as [|i k idx ks [Hi _] F2 IH]; intros Hs.
  - constructor.
  - apply StronglySorted_inv in Hs as [Hs Hall]. constructor; [|now apply IH].
    intros Hin. apply list_elem_of_lookup in Hin as [n Hn].
    destruct (Forall2_lookup_l _ _ _ _ _ F2 Hn) as (k' & Hk' & [Hi' _]).
    rewrite Hi in Hi'. injection Hi' as <-.
    rewrite Forall_forall in Hall.
    apply (row_lt_irrefl k), Hall. eapply list_elem_of_lookup_2, Hk'.
Qed.

Lemma unique_indices_nonempty (a : list Np.row) :
  a <> [] -> (Np.unique_rows a).2 <> [].
Proof.
  intros Ha E. destruct (unique_rows_spec a) as (F2 & _ & Hcov).
  rewrite E in F2. apply Forall2_nil_inv_l in F2.
  destruct a as [|k a]; [easy|].
  specialize (Hcov 0%nat k eq_refl). rewrite F2 in Hcov. now apply elem_of_nil in Hcov.
Qed.

Lemma picked_opt_aligned {A C} (a : list A) (c : option (list C)) idx out cout :
  picked a idx out -> picked_opt c idx cout -> aligned out cout.
Proof.
  intros Hp Hc. destruct c as [c|], cout as [cout|]; simpl in *; try easy.
  now rewrite (picked_length _ _ _ Hp), (picked_length _ _ _ Hc).
Qed.

Lemma picked_opt_compose {C} (c : option (list C)) c1 c2 i1 i2 :
  picked_opt c i1 c1 -> picked_opt c1 i2 c2 ->
  picked_opt c ((fun j => default 0%nat (i1 !! j)) <$> i2) c2.
Proof.
  destruct c as [c|], c1 as [c1|], c2 as [c2|]; simpl; try easy.
  apply picked_compose.
Qed.

Lemma picked_opt_seq {A C} (a : list A) (c : option (list C)) :
  aligned a c -> picked_opt c (seq 0 (length a)) c.
Proof.
  destruct c as [c|]; simpl; [|easy]. intros <-. apply picked_seq.
Qed.

Lemma take_opt_picked {C} (c : option (list C)) idx cout :
  picked_opt c idx cout ->
  match c with
  | Some c' => Some <$> Np.take c' idx
  | None => Ok None
  end = Ok cout.
Proof.
  destruct c as [c|], cout as [cout|]; simpl; try easy.
  intros Hp. now rewrite (take_picked _ _ _ Hp).
Qed.

(** The downsampling step selects the points and the colours at one list
    of distinct indices. *)
Lemma load_downsample_spec {C} v (points : list point) (colors : option (list C)) :
  aligned points colors ->
  exists idx pts cols,
    Loader.load_downsample v points colors = Ok (pts, cols)
    /\ picked points idx pts /\ picked_opt colors idx cols
    /\ NoDup idx /\ (points <> [] -> idx <> [])
    /\ Loader.load_downsample v points (@None (list C)) = Ok (pts, None).
Proof.
  intros Hal. unfold Loader.load_downsample.
  destruct (Loader.voxel_enabled v).
  - destruct (voxel_downsample_spec points colors (default F64.zero v) Hal)
      as (pts & cols & Hrun & Hp & Hc & _).
    eexists _, pts, cols. split; [exact Hrun|]. split; [exact Hp|]. split; [exact Hc|].
    split; [apply unique_indices_nodup|].
    split; [intros Hne; apply unique_indices_nonempty; now destruct points|].
    unfold Loader.voxel_downsample. now rewrite (take_picked _ _ _ Hp).
  - exists (seq 0 (length points)), points, colors.
    split; [reflexivity|]. split; [apply picked_seq|].
    split; [now apply picked_opt_seq|]. split; [apply NoDup_seq|].
    split; [|reflexivity].
    destruct points; [easy|discriminate].
Qed.

Section Pipeline.
Variable random_choice : nat -> nat -> list nat.

(** The sampling step does the same, and leaves at most [max_points]
    points when the limit is a positive number. *)
Lemma load_limit_spec {C} m (points : list point) (colors : option (list C)) :
  valid_choice random_choice ->
  aligned points colors ->
  exists idx pts cols,
    Loader.load_limit random_choice m points colors = Ok (pts, cols)
    /\ picked points idx pts /\ picked_opt colors idx cols
    /\ NoDup idx /\ (points <> [] -> idx <> [])
    /\ (forall n, m = Some n -> n <> 0%nat -> (length idx <= n)%nat)
    /\ Loader.load_limit random_choice m points (@None (list C)) = Ok (pts, None).
Proof.
  intros Hrc Hal. unfold Loader.load_limit.
  destruct (Loader.limit_enabled m && (default 0%nat m <? length points)%nat) eqn:E.
  - apply andb_true_iff in E as [E1 E2]. apply Nat.ltb_lt in E2.
    destruct m as [n|]; [|discriminate]. simpl in *.
    apply negb_true_iff, Nat.eqb_neq in E1.
    destruct (Hrc (length points) n) as (Hlen & Hrange & Hnd); [lia|].
    destruct (take_in_range points _ Hrange) as (pts & Htake & Hp).
    rewrite Htake.
    assert (Hc : exists cols,
               match colors with
               | Some c => Some <$> Np.take c (random_choice (length points) n)
               | None => Ok None
               end = Ok cols
               /\ picked_opt colors (random_choice (length points) n) cols).
    { destruct colors as [c|]; simpl in Hal.
      - rewrite <- Hal in Hrange.
        destruct (take_in_range c _ Hrange) as (cs & Hcs & Hcp).
        exists (Some cs). rewrite Hal in Hcs, Hcp. rewrite Hcs. now split.
      - now exists None. }
    destruct Hc as (cols & -> & Hcp).
    exists (random_choice (length points) n), pts, cols.
    repeat split; trivial.
    + intros _ E. rewrite E in Hlen. simpl in Hlen. lia.
    + intros n' [= <-] _. lia.
  - exists (seq 0 (length points)), points, colors.
    split; [reflexivity|]. split; [apply picked_seq|].
    split; [now apply picked_opt_seq|]. split; [apply NoDup_seq|].
    split; [destruct points; [easy|discriminate]|].
    split; [|reflexivity].
    intros n -> Hn. rewrite length_seq. simpl in E.
    apply andb_false_iff in E as [E|E].
    + apply negb_false_iff, Nat.eqb_eq in E. lia.
    + apply Nat.ltb_ge in E. lia.
Qed.

(** Both steps in a row, as [load] and [load_urban_las] run them. *)
Lemma sampled_spec {C} v m (points : list point) (colors : option (list C)) :
  valid_choice random_choice ->
  aligned points colors ->
  exists idx pts cols,
    (pc ← Loader.load_downsample v points colors;
     Loader.load_limit random_choice m pc.1 pc.2) = Ok (pts, cols)
    /\ picked points idx pts /\ picked_opt colors idx cols
    /\ NoDup idx /\ (points <> [] -> idx <> [])
    /\ (forall n, m = Some n -> n <> 0%nat -> (length idx <= n)%nat)
    /\ (pc ← Loader.load_downsample v points (@None (list C));
        Loader.load_limit random_choice m pc.1 pc.2) = Ok (pts, None).
Proof.
  intros Hrc Hal.
  destruct (load_downsample_spec v points colors Hal)
    as (i1 & p1 & c1 & -> & Hp1 & Hc1 & N1 & Hne1 & ->).
  cbn [mbind result_bind fst snd].
  destruct (load_limit_spec m p1 c1 Hrc (picked_opt_aligned _ _ _ _ _ Hp1 Hc1))
    as (i2 & p2 & c2 & -> & Hp2 & Hc2 & N2 & Hne2 & Hm & ->).
  exists ((fun j => default 0%nat (i1 !! j)) <$> i2), p2, c2.
  split; [reflexivity|]. split; [eapply picked_compose; eassumption|].
  split; [eapply picked_opt_compose; eassumption|].
  split.
  { apply compose_nodup; trivial.
    rewrite <- (picked_length _ _ _ Hp1). eapply picked_in_range, Hp2. }
  split.
  { intros Hne E. apply fmap_nil_inv in E. apply Hne2; [|exact E].
    intros ->. inversion Hp1 as [E1|]; subst. now apply Hne1. }
  split; [|reflexivity].
  intros n Hn Hn0. rewrite length_fmap. now apply Hm.
Qed.

(** X1.  A file without points makes [load], [load_las_file] and
    [load_urban_las] raise [ValueError], whatever the settings: the progress
    report takes the minimum of an empty column. *)
Theorem empty_file_raises_ValueError (las : LasData)
    (max_points : option nat) (downsample : option F64.t) (outliers : bool) :
  las_xyz las = [] ->
  Loader.load random_choice
    {| Loader.max_points := max_points; Loader.downsample_voxel := downsample |} las
  = Raise ValueError
  /\ Loader.load_las_file random_choice las max_points downsample outliers
     = Raise ValueError
  /\ Cityscape.load_urban_las random_choice las max_points downsample
     = Raise ValueError.
Proof.
  intros E. unfold Loader.load_las_file, Loader.load, Cityscape.load_urban_las.
  rewrite E. repeat split; reflexivity.
Qed.

(** [load] on a file with points: what it returns, with the metadata
    record written out. *)
Lemma load_picks (self : Loader.PointCloudLoader) (las : LasData) :
  valid_choice random_choice ->
  las_xyz las <> [] ->
  aligned (las_xyz las) (las_rgb las) ->
  exists idx pts cols b,
    Loader.load random_choice self las
    = Ok (pts, cols,
          {| Loader.filename := las_name las;
             Loader.num_points := length pts;
             Loader.bounds := b;
             Loader.has_colors := bool_decide (is_Some cols);
             Loader.md_las_version := las_version las |})
    /\ xyz_bounds pts = Ok b
    /\ idx <> [] /\ NoDup idx
    /\ picked (las_xyz las) idx pts
    /\ picked_opt (Loader.stored_colors las) idx cols
    /\ (forall n, Loader.max_points self = Some n -> n <> 0%nat ->
        (length idx <= n)%nat)
    /\ (pc ← Loader.load_downsample (Loader.downsample_voxel self) (las_xyz las)
               (@None (list color));
        Loader.load_limit random_choice (Loader.max_points self) pc.1 pc.2)
       = Ok (pts, None).
Proof.
  intros Hrc Hne Hal. unfold Loader.load.
  destruct (las_xyz las) as [|p0 rest] eqn:Exyz; [easy|].
  destruct (xyz_bounds_cons p0 rest) as [b0 ->]. cbn [mbind result_bind].
  assert (Hal' : aligned (p0 :: rest) (Loader.stored_colors las)).
  { unfold Loader.stored_colors. destruct (las_rgb las) as [c|]; simpl in *; [|easy].
    now rewrite length_map. }
  destruct (sampled_spec (Loader.downsample_voxel self) (Loader.max_points self)
              (p0 :: rest) (Loader.stored_colors las) Hrc Hal')
    as (idx & pts & cols & Hrun & Hp & Hc & Hnd & Hidx & Hm & Hnone).
  specialize (Hidx ltac:(discriminate)).
  destruct (Loader.load_downsample _ _ _) as [pc|e]; [|discriminate].
  cbn [mbind result_bind] in Hrun |- *. rewrite Hrun. cbn [mbind result_bind fst snd].
  destruct pts as [|q pts]; [inversion Hp; now subst|].
  destruct (xyz_bounds_cons q pts) as [b Hb]. rewrite Hb. cbn [mbind result_bind].
  exists idx, (q :: pts), cols, b. repeat split; trivial.
Qed.

(** X2.  On a file with at least one point whose colour channels are as
    long as its coordinates, [load] does not raise.  The points it returns
    are the points of the file at a non-empty list of distinct indices, the
    colours are the stored colours at the same indices, there are at most
    [max_points] of them when that is a positive number, and the metadata
    describes what is returned. *)
Theorem load_selects_points_with_their_colors
    (self : Loader.PointCloudLoader) (las : LasData) :
  valid_choice random_choice ->
  las_xyz las <> [] ->
  aligned (las_xyz las) (las_rgb las) ->
  exists idx pts cols md,
    Loader.load random_choice self las = Ok (pts, cols, md)
    /\ idx <> [] /\ NoDup idx
    /\ picked (las_xyz las) idx pts
    /\ picked_opt (Loader.stored_colors las) idx cols
    /\ (forall n, Loader.max_points self = Some n -> n <> 0%nat ->
        (length pts <= n)%nat)
    /\ Loader.num_points md = length pts
    /\ Loader.has_colors md = bool_decide (is_Some (las_rgb las))
    /\ xyz_bounds pts = Ok (Loader.bounds md)
    /\ Loader.filename md = las_name las
    /\ Loader.md_las_version md = las_version las.
Proof.
  intros Hrc Hne Hal.
  destruct (load_picks self las Hrc Hne Hal)
    as (idx & pts & cols & b & Hrun & Hb & Hidx & Hnd & Hp & Hc & Hm & _).
  eexists idx, pts, cols, _. split; [exact Hrun|].
  repeat split; trivial.
  - intros n Hn Hn0. rewrite (picked_length _ _ _ Hp). now apply Hm.
  - cbn [Loader.has_colors]. unfold Loader.stored_colors in Hc.
    destruct (las_rgb las) as [c|], cols as [cs|]; simpl in Hc; try easy.
Qed.

(** [load_urban_las] on a file with points: what it returns. *)
Lemma load_urban_las_picks (las : LasData) (max_points : option nat)
    (downsample_voxel : option F64.t) :
  valid_choice random_choice ->
  las_xyz las <> [] ->
  aligned (las_xyz las) (las_classification las) ->
  exists idx pts cols,
    Cityscape.load_urban_las random_choice las max_points downsample_voxel
    = Ok (pts, cols,
          {| Cityscape.filename := las_name las;
             Cityscape.num_points := length pts;
             Cityscape.has_classification := bool_decide (is_Some cols) |})
    /\ idx <> [] /\ NoDup idx
    /\ picked (las_xyz las) idx pts
    /\ picked_opt
         (map (fun cls => Cityscape.store_f32 (Cityscape.colorize cls))
            <$> las_classification las) idx cols
    /\ (forall n, max_points = Some n -> n <> 0%nat -> (length idx <= n)%nat)
    /\ (pc ← Loader.load_downsample downsample_voxel (las_xyz las)
               (@None (list color));
        Loader.load_limit random_choice max_points pc.1 pc.2)
       = Ok (pts, None).
Proof.
  intros Hrc Hne Hal. unfold Cityscape.load_urban_las.
  destruct (las_xyz las) as [|p0 rest] eqn:Exyz; [easy|].
  destruct (xyz_bounds_cons p0 rest) as [b0 ->]. cbn [mbind result_bind].
  set (table := map (fun cls => Cityscape.store_f32 (Cityscape.colorize cls))
                  <$> las_classification las).
  assert (Hcc : Cityscape.classification_colors las = Ok table).
  { unfold Cityscape.classification_colors, table.
    destruct (las_classification las) as [cl|]; [|reflexivity]. simpl in Hal.
    pose proof (fill_colors_all cl [] (replicate (length (las_xyz las))
                                         Cityscape.zero_color)) as E.
    cbn [length app] in E. rewrite E; [reflexivity|].
    now rewrite length_replicate, Exyz. }
  rewrite Hcc. cbn [mbind result_bind].
  assert (Hal' : aligned (p0 :: rest) table).
  { unfold table. destruct (las_classification las) as [c|]; simpl in *; [|easy].
    now rewrite length_map. }
  destruct (sampled_spec downsample_voxel max_points (p0 :: rest) table Hrc Hal')
    as (idx & pts & cols & Hrun & Hp & Hc & Hnd & Hidx & Hm & Hnone).
  specialize (Hidx ltac:(discriminate)).
  destruct (Loader.load_downsample _ _ table) as [pc|e]; [|discriminate].
  cbn [mbind result_bind] in Hrun |- *. rewrite Hrun. cbn [mbind result_bind fst snd].
  exists idx, pts, cols. repeat split; trivial.
Qed.

(** X3.  [load_urban_las] on a file with at least one point, whose
    classification (if it has one) is as long as its coordinates, does not
    raise; the points are those of the file at a non-empty list of distinct
    indices and the colours are the classification colours of the same
    points, every component in [0, 1]; without a classification there are no
    colours. *)
Theorem load_urban_las_colors_follow_points
    (las : LasData) (max_points : option nat) (downsample_voxel : option F64.t) :
  valid_choice random_choice ->
  las_xyz las <> [] ->
  aligned (las_xyz las) (las_classification las) ->
  exists idx pts cols md,
    Cityscape.load_urban_las random_choice las max_points downsample_voxel
    = Ok (pts, cols, md)
    /\ idx <> [] /\ NoDup idx
    /\ picked (las_xyz las) idx pts
    /\ picked_opt
         (map (fun cls => Cityscape.store_f32 (Cityscape.colorize cls))
            <$> las_classification las) idx cols
    /\ (forall n, max_points = Some n -> n <> 0%nat -> (length pts <= n)%nat)
    /\ (forall cs, cols = Some cs -> Forall (fun c => unit_rgb (widen c) = true) cs)
    /\ Cityscape.num_points md = length pts
    /\ Cityscape.has_classification md
       = bool_decide (is_Some (las_classification las))
    /\ Cityscape.filename md = las_name las.
Proof.
  intros Hrc Hne Hal.
  destruct (load_urban_las_picks las max_points downsample_voxel Hrc Hne Hal)
    as (idx & pts & cols & Hrun & Hidx & Hnd & Hp & Hc & Hm & _).
  eexists idx, pts, cols, _. split; [exact Hrun|].
  repeat split; trivial.
  - intros n Hn Hn0. rewrite (picked_length _ _ _ Hp). now apply Hm.
  - intros cs ->.
    destruct (las_classification las) as [cl|]; simpl in Hc; [|easy].
    clear -Hc. induction Hc as [|i c idx cs Hi _ IH]; constructor; [|exact IH].
    rewrite map_is_fmap, list_lookup_fmap in Hi.
    destruct (cl !! i) as [cls|]; [|discriminate]. injection Hi as <-.
    apply colorize_unit.
  - cbn [Cityscape.has_classification].
    destruct (las_classification las) as [c|], cols as [cs|]; simpl in Hc; try easy.
Qed.

(** X4.  The sampling step of [load], for any integer as [max_points]:
    [None], [0] (which does not mean "no points") and any limit that is not
    exceeded leave the cloud as it is, without a draw; a positive limit below
    the number of points keeps exactly that many points, those at the drawn
    indices, with their colours; a negative limit raises [ValueError],
    whatever the cloud.  On the limits that are not negative this is the step
    [load_limit] that [load] runs. *)
Theorem load_limit_draws_only_above_a_positive_limit {C}
    (points : list point) (colors : option (list C)) :
  (forall m,
     m = None \/ m = Some 0
     \/ (exists n, m = Some n /\ Z.of_nat (length points) <= n) ->
     Loader.load_limit_int random_choice m points colors = Ok (points, colors))
  /\ (forall n,
      0 < n < Z.of_nat (length points) ->
      valid_choice random_choice ->
      aligned points colors ->
      exists pts cols,
        Loader.load_limit_int random_choice (Some n) points colors = Ok (pts, cols)
        /\ Z.of_nat (length pts) = n
        /\ picked points (random_choice (length points) (Z.to_nat n)) pts
        /\ picked_opt colors (random_choice (length points) (Z.to_nat n)) cols)
  /\ (forall n,
      n < 0 ->
      Loader.load_limit_int random_choice (Some n) points colors
      = Raise ValueError)
  /\ (forall m : option nat,
      Loader.load_limit_int random_choice (Z.of_nat <$> m) points colors
      = Loader.load_limit random_choice m points colors).
Proof.
  split; [|split; [|split]].
  - intros m [->|[->|(n & -> & Hn)]]; try reflexivity.
    unfold Loader.load_limit_int. simpl.
    replace (n <? Z.of_nat (length points)) with false
      by (symmetry; apply Z.ltb_ge; exact Hn).
    now rewrite andb_false_r.
  - intros n [Hn0 Hn] Hrc Hal. unfold Loader.load_limit_int. simpl.
    replace (n =? 0) with false by (symmetry; apply Z.eqb_neq; lia).
    replace (n <? Z.of_nat (length points)) with true
      by (symmetry; apply Z.ltb_lt; lia).
    replace (n <? 0) with false by (symmetry; apply Z.ltb_ge; lia).
    simpl.
    destruct (Hrc (length points) (Z.to_nat n)) as (Hlen & Hrange & _); [lia|].
    destruct (take_in_range points _ Hrange) as (pts & -> & Hp).
    cbn [mbind result_bind].
    destruct colors as [c|]; simpl in Hal.
    + rewrite <- Hal in Hrange.
      destruct (take_in_range c _ Hrange) as (cs & Hcs & Hcp).
      rewrite Hal in Hcs, Hcp. rewrite Hcs. exists pts, (Some cs).
      repeat split; trivial.
      rewrite (picked_length _ _ _ Hp), Hlen. lia.
    + exists pts, None. repeat split; trivial.
      rewrite (picked_length _ _ _ Hp), Hlen. lia.
  - intros n Hn. unfold Loader.load_limit_int. simpl.
    replace (n =? 0) with false by (symmetry; apply Z.eqb_neq; lia).
    replace (n <? Z.of_nat (length points)) with true
      by (symmetry; apply Z.ltb_lt; lia).
    replace (n <? 0) with true by (symmetry; apply Z.ltb_lt; lia).
    reflexivity.
  - intros [n|]; [|reflexivity].
    unfold Loader.load_limit_int, Loader.load_limit, Loader.limit_enabled. simpl.
    replace (Z.of_nat n =? 0) with (n =? 0)%nat
      by (destruct n; reflexivity).
    replace (Z.of_nat n <? Z.of_nat (length points)) with (n <? length points)%nat.
    2:{ destruct (Nat.ltb_spec n (length points));
          symmetry; [apply Z.ltb_lt|apply Z.ltb_ge]; lia. }
    replace (Z.of_nat n <? 0) with false by (symmetry; apply Z.ltb_ge; lia).
    now rewrite Nat2Z.id.
Qed.

(** X22.  [load] and [load_urban_las] select the same points: on a file
    whose colour channels and classification (where present) are as long as
    its coordinates, with the same [max_points] and voxel size, either both
    raise or both return, and then they return the same point array.  Only
    the colours and the metadata differ. *)
Theorem load_and_load_urban_las_return_the_same_points
    (self : Loader.PointCloudLoader) (las : LasData) :
  valid_choice random_choice ->
  aligned (las_xyz las) (las_rgb las) ->
  aligned (las_xyz las) (las_classification las) ->
  (fun r => r.1.1) <$> Loader.load random_choice self las
  = (fun r => r.1.1)
      <$> Cityscape.load_urban_las random_choice las (Loader.max_points self)
            (Loader.downsample_voxel self).
Proof.
  intros Hrc Hrgb Hcl.
  destruct (las_xyz las) as [|p0 rest] eqn:Exyz.
  { unfold Loader.load, Cityscape.load_urban_las. now rewrite Exyz. }
  assert (Hne : las_xyz las <> []) by (now rewrite Exyz).
  rewrite <- Exyz in Hrgb, Hcl.
  destruct (load_picks self las Hrc Hne Hrgb)
    as (idx & pts & cols & b & -> & _ & _ & _ & _ & _ & _ & Hnone).
  destruct (load_urban_las_picks las (Loader.max_points self)
              (Loader.downsample_voxel self) Hrc Hne Hcl)
    as (idx' & pts' & cols' & -> & _ & _ & _ & _ & _ & Hnone').
  rewrite Hnone in Hnone'. injection Hnone' as <-. reflexivity.
Qed.
End Pipeline.

(** * Outlier removal: what is kept and when it raises *)

Lemma compress_sublist {A} (mask : list bool) : forall a : list A,
  Np.compress mask a `sublist_of` a.
Proof.
  induction mask as [|b mask IH]; intros [|x a]; simpl;
    try apply sublist_nil_l.
  destruct b; [apply sublist_skip|apply sublist_cons]; apply IH.
Qed.

Lemma compress_aligned {A C} (mask : list bool) : forall (a : list A) (c : list C),
  length c = length a ->
  length (Np.compress mask c) = length (Np.compress mask a).
Proof.
  induction mask as [|b mask IH]; intros [|x a] [|y c] Hlen; simpl; try easy.
  injection Hlen as Hlen. destruct b; simpl; [f_equal|]; now apply IH.
Qed.

Lemma forallb_finite points :
  Forall (fun p => Scipy.point_finite p = true) points ->
  forallb Scipy.point_finite points = true.
Proof. induction 1 as [|p l Hp _ IH]; simpl; [reflexivity|]. now rewrite Hp, IH. Qed.

(** X5.  On at least one point, all coordinates finite, with at least one
    neighbour asked for and colours (if any) as many as the points,
    [remove_outliers] does not raise and only removes: one boolean mask over
    the input selects the points and the colours it returns, so the result is
    a subsequence of the input in the input's order, no longer than it, with
    the colours still index-aligned. *)
Theorem remove_outliers_only_removes {C}
    (points : list point) (colors : option (list C))
    (nb_neighbors : nat) (std_ratio : F64.t) :
  Forall (fun p => Scipy.point_finite p = true) points ->
  points <> [] ->
  nb_neighbors <> 0%nat ->
  aligned points colors ->
  exists mask,
    length mask = length points
    /\ Loader.remove_outliers points colors nb_neighbors std_ratio
       = Ok (Np.compress mask points, Np.compress mask <$> colors)
    /\ Np.compress mask points `sublist_of` points
    /\ (length (Np.compress mask points) <= length points)%nat
    /\ aligned (Np.compress mask points) (Np.compress mask <$> colors).
Proof.
  intros Hfin Hne Hk Hal. unfold Loader.remove_outliers, Scipy.query.
  rewrite (forallb_finite points Hfin). cbn [andb mbind result_bind].
  rewrite decide_False by exact Hk.
  set (ms := map (fun row => Np.mean (drop 1 row))
                 (map (Scipy.query1 points (S nb_neighbors)) points)).
  set (mask := map (fun m => F64.lt m _) ms).
  assert (Hlen : length mask = length points)
    by (subst mask ms; now rewrite !length_map).
  exists mask. split; [exact Hlen|].
  split.
  - unfold Np.mask_index. rewrite decide_True by exact Hlen.
    cbn [mbind result_bind].
    destruct colors as [c|]; simpl in Hal.
    + rewrite decide_True by (now rewrite Hal). cbn [fmap result_fmap mbind result_bind].
      rewrite decide_False by (now destruct points). reflexivity.
    + cbn [mbind result_bind]. rewrite decide_False by (now destruct points).
      reflexivity.
  - split; [apply compress_sublist|].
    split; [apply sublist_length, compress_sublist|].
    destruct colors as [c|]; simpl in *; [|easy]. now apply compress_aligned.
Qed.

(** X6.  [remove_outliers] raises [ValueError] when a coordinate is NaN or
    infinite (the KD-tree rejects it); on finite points it raises [IndexError]
    when [nb_neighbors] is 0 (the distances of a one-neighbour query have no
    second axis to slice) and when the colours are not as many as the points
    (the mask does not fit them). *)
Theorem remove_outliers_raises {C}
    (points : list point) (colors : option (list C))
    (nb_neighbors : nat) (std_ratio : F64.t) :
  (Exists (fun p => Scipy.point_finite p = false) points ->
   Loader.remove_outliers points colors nb_neighbors std_ratio = Raise ValueError)
  /\ (Forall (fun p => Scipy.point_finite p = true) points ->
      nb_neighbors = 0%nat ->
      Loader.remove_outliers points colors nb_neighbors std_ratio = Raise IndexError)
  /\ (Forall (fun p => Scipy.point_finite p = true) points ->
      forall c, colors = Some c -> length c <> length points ->
      Loader.remove_outliers points colors nb_neighbors std_ratio = Raise IndexError).
Proof.
  unfold Loader.remove_outliers, Scipy.query. split; [|split].
  - intros Hex.
    assert (forallb Scipy.point_finite points = false) as ->; [|reflexivity].
    induction Hex as [p l Hp|p l _ IH]; simpl.
    + now rewrite Hp.
    + rewrite IH. apply andb_false_r.
  - intros Hfin ->. rewrite (forallb_finite points Hfin). reflexivity.
  - intros Hfin c -> Hc. rewrite (forallb_finite points Hfin).
    cbn [andb mbind result_bind].
    destruct (decide (nb_neighbors = 0%nat)); [reflexivity|].
    unfold Np.mask_index. rewrite !length_map.
    destruct (decide (length points = length points)) as [_|Hn]; [|now destruct Hn].
    cbn [mbind result_bind].
    destruct (decide (length points = length c)) as [E|_]; [now destruct Hc|].
    reflexivity.
Qed.

Section OutlierFlag.
Variable random_choice : nat -> nat -> list nat.

(** X7.  [load_las_file] with [remove_outliers=True] returns the metadata
    that [load] computed before the outliers were removed: [num_points] and
    the bounds describe the cloud [load] returned, of which the returned
    points are a subsequence, so [num_points] can exceed their number. *)
Theorem load_las_file_metadata_precedes_outlier_removal
    (las : LasData) (max_points : option nat) (downsample : option F64.t)
    (pts : list point) (cols : option (list color)) (md : Loader.Metadata) :
  Loader.load_las_file random_choice las max_points downsample true
  = Ok (pts, cols, md) ->
  exists pts0 cols0,
    Loader.load random_choice
      {| Loader.max_points := max_points; Loader.downsample_voxel := downsample |} las
    = Ok (pts0, cols0, md)
    /\ Loader.remove_outliers pts0 cols0 20 (F64.of_Z 2) = Ok (pts, cols)
    /\ pts `sublist_of` pts0
    /\ Loader.num_points md = length pts0
    /\ xyz_bounds pts0 = Ok (Loader.bounds md)
    /\ (length pts <= Loader.num_points md)%nat.
Proof.
  unfold Loader.load_las_file. intros H.
  destruct (Loader.load _ _ las) as [[[pts0 cols0] md0]|e] eqn:El; [|discriminate].
  cbn [mbind result_bind fst snd] in H.
  destruct (Loader.remove_outliers pts0 cols0 20 (F64.of_Z 2)) as [[p c]|e] eqn:Er;
    [|discriminate].
  cbn [mbind result_bind fst snd] in H. injection H as -> -> ->.
  exists pts0, cols0. split; [reflexivity|]. split; [exact Er|].
  assert (Hsub : pts `sublist_of` pts0).
  { unfold Loader.remove_outliers in Er.
    destruct (Scipy.query _ _ _) as [ds|]; [|discriminate].
    cbn [mbind result_bind] in Er.
    destruct (decide (20%nat = 0%nat)) as [E20|_]; [discriminate E20|].
    match type of Er with
    | context [Np.mask_index pts0 ?m] =>
        destruct (Np.mask_index pts0 m) as [fp|] eqn:Em; [|discriminate Er]
    end.
    cbn [mbind result_bind] in Er.
    destruct (match cols0 with Some c => _ | None => _ end); [|discriminate Er].
    cbn [mbind result_bind] in Er.
    destruct (decide (length pts0 = 0%nat)); [discriminate Er|].
    injection Er as <- _. unfold Np.mask_index in Em.
    destruct (decide _); [|discriminate Em].
    injection Em as <-. apply compress_sublist. }
  assert (Hmd : Loader.num_points md = length pts0
                /\ xyz_bounds pts0 = Ok (Loader.bounds md)).
  { unfold Loader.load in El.
    destruct (xyz_bounds (las_xyz las)); [|discriminate]. cbn [mbind result_bind] in El.
    destruct (Loader.load_downsample _ _ _) as [pc|]; [|discriminate].
    cbn [mbind result_bind] in El.
    destruct (Loader.load_limit _ _ _ _) as [pc'|]; [|discriminate].
    cbn [mbind result_bind] in El.
    destruct (xyz_bounds pc'.1) as [b|] eqn:Eb; [|discriminate].
    cbn [mbind result_bind] in El. injection El as <- _ <-. now split. }
  destruct Hmd as [Hn Hb]. repeat split; trivial.
  rewrite Hn. now apply sublist_length.
Qed.
End OutlierFlag.

(** * The renderer over whole sessions *)

Lemma clip_nan_or_within x lo hi :
  within lo hi lo = true -> within lo hi hi = true ->
  Np.clip x lo hi = S754_nan \/ within lo hi (Np.clip x lo hi) = true.
Proof.
  intros Hlo Hhi. destruct x as [s|s| |s m e]; [right|right|left; reflexivity|right];
    now apply clip_within.
Qed.

Lemma point_sizes_closed s :
  s ∈ point_sizes ->
  within (F64.of_Z 1) (F64.of_Z 10) s = true
  /\ F64.py_min (F64.add s (F64.lit 5 10)) (F64.of_Z 10) ∈ point_sizes
  /\ F64.py_max (F64.sub s (F64.lit 5 10)) (F64.of_Z 1) ∈ point_sizes.
Proof.
  intros Hs. apply list_elem_of_In in Hs. cbv in Hs.
  repeat (destruct Hs as [<-|Hs];
          [split; [vm_compute; reflexivity|];
           split; apply list_elem_of_In; vm_compute; tauto|]).
  destruct Hs.
Qed.

Section Sessions.
Import Renderer Glm.
Variables np_cos np_sin : F64.t -> F64.t.

Local Abbreviation update_position := (Renderer.update_position np_cos np_sin).
Local Abbreviation rotate := (Renderer.rotate np_cos np_sin).
Local Abbreviation zoom := (Renderer.zoom np_cos np_sin).
Local Abbreviation pan := (Renderer.pan np_cos np_sin).
Local Abbreviation new_camera := (Renderer.new_camera np_cos np_sin).
Local Abbreviation new_renderer := (Renderer.new_renderer np_cos np_sin).
Local Abbreviation load_points := (Renderer.load_points np_cos np_sin).
Local Abbreviation handle := (Renderer.handle np_cos np_sin).
Local Abbreviation poll_events := (Renderer.poll_events np_cos np_sin).
Local Abbreviation key_callback := (Renderer.key_callback np_cos np_sin).

(** What every camera method establishes or keeps. *)
Local Abbreviation camera_ok c :=
  (update_position c = c
   /\ up c = vec3_of (F64.of_Z 0) (F64.of_Z 0) (F64.of_Z 1)
   /\ rotation_speed c = F64.lit 5 10
   /\ zoom_speed c = F64.of_Z 2
   /\ pan_speed c = F64.lit 1 10
   /\ (elevation c = S754_nan
       \/ within (F64.of_Z (-89)) (F64.of_Z 89) (elevation c) = true)).

Lemma new_camera_ok : camera_ok (new_camera None None).
Proof. repeat split. right. vm_compute. reflexivity. Qed.

Lemma rotate_ok c da de : camera_ok c -> camera_ok (rotate c da de).
Proof.
  intros (_ & Hu & Hr & Hz & Hp & _). repeat split; trivial.
  cbn [Renderer.rotate Renderer.update_position elevation].
  now apply clip_nan_or_within.
Qed.

Lemma zoom_ok c delta : camera_ok c -> camera_ok (zoom c delta).
Proof. intros (_ & Hu & Hr & Hz & Hp & He). repeat split; trivial. Qed.

Lemma pan_ok c dx dy : camera_ok c -> camera_ok (pan c dx dy).
Proof. intros (_ & Hu & Hr & Hz & Hp & He). repeat split; trivial. Qed.

(** The camera after an event is the old one, or the result of one camera
    method, or a fresh one. *)
Lemma handle_camera r ev :
  camera (handle r ev).1 = camera r
  \/ (exists a b, camera (handle r ev).1 = rotate (camera r) a b)
  \/ (exists a b, camera (handle r ev).1 = pan (camera r) a b)
  \/ (exists d, camera (handle r ev).1 = zoom (camera r) d)
  \/ camera (handle r ev).1 = new_camera None None.
Proof.
  destruct ev as [cursor button action|x y|x y|key action]; simpl.
  - unfold mouse_button_callback.
    destruct (action =? PRESS); [now left|].
    destruct (action =? RELEASE); now left.
  - unfold mouse_move_callback.
    destruct (mouse_pressed r); [|now left].
    destruct (bool_decide (mouse_button r = Some MOUSE_BUTTON_LEFT)).
    { right; left. simpl. eauto. }
    destruct (bool_decide (mouse_button r = Some MOUSE_BUTTON_RIGHT)).
    { right; right; left. simpl. eauto. }
    now left.
  - right; right; right; left. simpl. eauto.
  - unfold key_callback.
    destruct ((action =? PRESS) || (action =? REPEAT)); [|now left].
    destruct (key =? KEY_ESCAPE); [now left|].
    destruct (key =? KEY_W); [right; right; right; left; simpl; eauto|].
    destruct (key =? KEY_S); [right; right; right; left; simpl; eauto|].
    destruct ((key =? KEY_EQUAL) || (key =? KEY_KP_ADD)); [now left|].
    destruct ((key =? KEY_MINUS) || (key =? KEY_KP_SUBTRACT)); [now left|].
    destruct (key =? KEY_R); [now right; right; right; right|now left].
Qed.

Lemma handle_camera_ok r ev : camera_ok (camera r) -> camera_ok (camera (handle r ev).1).
Proof.
  intros H.
  destruct (handle_camera r ev) as [->|[(a & b & ->)|[(a & b & ->)|[(d & ->)| ->]]]].
  - exact H.
  - now apply rotate_ok.
  - now apply pan_ok.
  - now apply zoom_ok.
  - apply new_camera_ok.
Qed.

Lemma load_points_camera_ok r pts cols r' :
  load_points r pts cols = Ok r' -> camera_ok (camera r) -> camera_ok (camera r').
Proof.
  unfold Renderer.load_points. intros H (_ & Hu & Hr & Hz & Hp & He).
  destruct (match cols with Some c => _ | None => _ end); [|discriminate H].
  cbn [mbind result_bind] in H.
  destruct (bbox_max_dim pts); [|discriminate H].
  cbn [mbind result_bind] in H. injection H as <-. repeat split; trivial.
Qed.

Lemma handle_point_size r ev :
  point_size r ∈ point_sizes -> point_size (handle r ev).1 ∈ point_sizes.
Proof.
  intros H. destruct (point_sizes_closed _ H) as (_ & Hup & Hdown).
  destruct ev as [cursor button action|x y|x y|key action]; simpl.
  - unfold mouse_button_callback.
    destruct (action =? PRESS); [exact H|].
    destruct (action =? RELEASE); exact H.
  - unfold mouse_move_callback.
    destruct (mouse_pressed r); [|exact H].
    destruct (bool_decide _); [exact H|]. destruct (bool_decide _); exact H.
  - exact H.
  - unfold key_callback.
    destruct ((action =? PRESS) || (action =? REPEAT)); [|exact H].
    destruct (key =? KEY_ESCAPE); [exact H|].
    destruct (key =? KEY_W); [exact H|].
    destruct (key =? KEY_S); [exact H|].
    destruct ((key =? KEY_EQUAL) || (key =? KEY_KP_ADD)); [exact Hup|].
    destruct ((key =? KEY_MINUS) || (key =? KEY_KP_SUBTRACT)); [exact Hdown|].
    destruct (key =? KEY_R); exact H.
Qed.

Lemma load_points_frame r pts cols r' :
  load_points r pts cols = Ok r' ->
  point_size r' = point_size r
  /\ window_should_close r' = window_should_close r
  /\ mouse_pressed r' = mouse_pressed r
  /\ mouse_button r' = mouse_button r
  /\ azimuth (camera r') = azimuth (camera r)
  /\ elevation (camera r') = elevation (camera r)
  /\ points r' = Some (map astype_f32 pts)
  /\ exists cs, colors r' = Some (map astype_f32 cs) /\ (forall c, cols = Some c -> cs = c).
Proof.
  unfold Renderer.load_points. intros H.
  destruct (match cols with Some c => _ | None => _ end) as [cs|] eqn:E;
    [|discriminate H].
  cbn [mbind result_bind] in H.
  destruct (bbox_max_dim pts); [|discriminate H].
  cbn [mbind result_bind] in H. injection H as <-. repeat split.
  exists cs. split; [reflexivity|]. intros c ->. now injection E as <-.
Qed.

(** From a size of the list the [+] and [-] keys go one step of 0.5 up or
    down the list, and stay at its two ends. *)
Lemma point_sizes_steps s :
  s ∈ point_sizes ->
  exists k,
    2 <= k <= 20 /\ s = F64.lit k 2
    /\ F64.py_min (F64.add s (F64.lit 5 10)) (F64.of_Z 10)
       = F64.lit (Z.min (k + 1) 20) 2
    /\ F64.py_max (F64.sub s (F64.lit 5 10)) (F64.of_Z 1)
       = F64.lit (Z.max (k - 1) 2) 2.
Proof.
  intros Hs. unfold point_sizes in Hs.
  apply list_elem_of_fmap in Hs as (k & -> & Hk).
  apply elem_of_seqZ in Hk. exists k. split; [lia|]. split; [reflexivity|].
  assert (Hin : In k [2; 3; 4; 5; 6; 7; 8; 9; 10; 11; 12; 13; 14; 15; 16; 17; 18;
                      19; 20]) by (simpl; lia).
  clear Hk. simpl in Hin.
  repeat (destruct Hin as [<-|Hin]; [split; vm_compute; reflexivity|]).
  destruct Hin.
Qed.

Lemma key_callback_plus r key action :
  action = PRESS \/ action = REPEAT ->
  key = KEY_EQUAL \/ key = KEY_KP_ADD ->
  point_size (key_callback r key action).1
  = F64.py_min (F64.add (point_size r) (F64.lit 5 10)) (F64.of_Z 10).
Proof. intros [->| ->] [->| ->]; reflexivity. Qed.

Lemma key_callback_minus r key action :
  action = PRESS \/ action = REPEAT ->
  key = KEY_MINUS \/ key = KEY_KP_SUBTRACT ->
  point_size (key_callback r key action).1
  = F64.py_max (F64.sub (point_size r) (F64.lit 5 10)) (F64.of_Z 1).
Proof. intros [->| ->] [->| ->]; reflexivity. Qed.

Lemma handle_other_point_size r ev :
  match ev with
  | Key key action =>
      (action <> PRESS /\ action <> REPEAT)
      \/ key ∉ [KEY_EQUAL; KEY_KP_ADD; KEY_MINUS; KEY_KP_SUBTRACT]
  | _ => True
  end ->
  point_size (handle r ev).1 = point_size r.
Proof.
  destruct ev as [cursor button action|x y|x y|key action]; simpl; intros H.
  - unfold mouse_button_callback.
    destruct (action =? PRESS); [reflexivity|].
    destruct (action =? RELEASE); reflexivity.
  - unfold mouse_move_callback.
    destruct (mouse_pressed r); [|reflexivity].
    destruct (bool_decide _); [reflexivity|]. destruct (bool_decide _); reflexivity.
  - reflexivity.
  - unfold key_callback.
    destruct ((action =? PRESS) || (action =? REPEAT)) eqn:Ea; [|reflexivity].
    destruct H as [[H1 H2]|H].
    { apply orb_true_iff in Ea as [Ea|Ea]; apply Z.eqb_eq in Ea; contradiction. }
    destruct (key =? KEY_ESCAPE); [reflexivity|].
    destruct (key =? KEY_W); [reflexivity|].
    destruct (key =? KEY_S); [reflexivity|].
    destruct ((key =? KEY_EQUAL) || (key =? KEY_KP_ADD)) eqn:Ep.
    { exfalso. apply H. apply orb_true_iff in Ep as [Ep|Ep]; apply Z.eqb_eq in Ep;
        subst key; set_solver. }
    destruct ((key =? KEY_MINUS) || (key =? KEY_KP_SUBTRACT)) eqn:Em.
    { exfalso. apply H. apply orb_true_iff in Em as [Em|Em]; apply Z.eqb_eq in Em;
        subst key; set_solver. }
    destruct (key =? KEY_R); reflexivity.
Qed.

(** X8.  In every state the renderer reaches from its constructor by input
    events and successful [load_points] calls (the assignment of
    [--point-size] by [main] is not such a step) the point size is k/2 for
    an integer k from 2 to 20: one of 1.0, 1.5, ..., 10.0, hence within
    [1, 10].  A press or repeat of [+] makes it (k+1)/2 and leaves 10.0 as
    it is, a press or repeat of [-] makes it (k-1)/2 and leaves 1.0 as it
    is, and every other event leaves the size alone. *)
Theorem point_size_stays_between_1_and_10 (r : PointCloudRenderer) :
  reachable np_cos np_sin r ->
  point_size r ∈ point_sizes
  /\ within (F64.of_Z 1) (F64.of_Z 10) (point_size r) = true
  /\ (exists k,
        2 <= k <= 20 /\ point_size r = F64.lit k 2
        /\ (forall key action,
              action = PRESS \/ action = REPEAT ->
              key = KEY_EQUAL \/ key = KEY_KP_ADD ->
              point_size (key_callback r key action).1
              = F64.lit (Z.min (k + 1) 20) 2)
        /\ (forall key action,
              action = PRESS \/ action = REPEAT ->
              key = KEY_MINUS \/ key = KEY_KP_SUBTRACT ->
              point_size (key_callback r key action).1
              = F64.lit (Z.max (k - 1) 2) 2))
  /\ (forall key action,
        action = PRESS \/ action = REPEAT ->
        key = KEY_EQUAL \/ key = KEY_KP_ADD ->
        point_size r = F64.of_Z 10 ->
        point_size (key_callback r key action).1 = F64.of_Z 10)
  /\ (forall key action,
        action = PRESS \/ action = REPEAT ->
        key = KEY_MINUS \/ key = KEY_KP_SUBTRACT ->
        point_size r = F64.of_Z 1 ->
        point_size (key_callback r key action).1 = F64.of_Z 1)
  /\ (forall ev,
        match ev with
        | Key key action =>
            (action <> PRESS /\ action <> REPEAT)
            \/ key ∉ [KEY_EQUAL; KEY_KP_ADD; KEY_MINUS; KEY_KP_SUBTRACT]
        | _ => True
        end ->
        point_size (handle r ev).1 = point_size r).
Proof.
  intros Hr.
  assert (H : point_size r ∈ point_sizes).
  { induction Hr as [w h|r ev _ IH|r pts cols r' _ IH Hload].
    - apply list_elem_of_In. vm_compute. tauto.
    - now apply handle_point_size.
    - destruct (load_points_frame _ _ _ _ Hload) as (-> & _). exact IH. }
  split; [exact H|]. split; [apply point_sizes_closed, H|].
  split; [|split; [|split]].
  - destruct (point_sizes_steps _ H) as (k & Hk & Hs & Hup & Hdown).
    exists k. split; [exact Hk|]. split; [exact Hs|]. split.
    + intros key action Ha Hkey. now rewrite key_callback_plus.
    + intros key action Ha Hkey. now rewrite key_callback_minus.
  - intros key action Ha Hkey Hs. rewrite key_callback_plus by assumption.
    rewrite Hs. vm_compute. reflexivity.
  - intros key action Ha Hkey Hs. rewrite key_callback_minus by assumption.
    rewrite Hs. vm_compute. reflexivity.
  - apply handle_other_point_size.
Qed.

(** X9.  In every reachable state the camera position is the one
    [update_position] computes from target, distance, azimuth and elevation;
    the up vector is (0, 0, 1) and the three speeds are 0.5, 2.0 and 0.1, as
    the constructor set them; the elevation is within [-89, 89] or NaN. *)
Theorem camera_stays_on_its_orbit (r : PointCloudRenderer) :
  reachable np_cos np_sin r ->
  update_position (camera r) = camera r
  /\ up (camera r) = vec3_of (F64.of_Z 0) (F64.of_Z 0) (F64.of_Z 1)
  /\ rotation_speed (camera r) = F64.lit 5 10
  /\ zoom_speed (camera r) = F64.of_Z 2
  /\ pan_speed (camera r) = F64.lit 1 10
  /\ (elevation (camera r) = S754_nan
      \/ within (F64.of_Z (-89)) (F64.of_Z 89) (elevation (camera r)) = true).
Proof.
  induction 1 as [w h|r ev _ IH|r pts cols r' _ IH Hload].
  - apply new_camera_ok.
  - now apply handle_camera_ok.
  - now apply (load_points_camera_ok r pts cols r').
Qed.

Lemma handle_should_close r ev :
  window_should_close (handle r ev).1 = window_should_close r || is_escape ev.
Proof.
  destruct ev as [cursor button action|x y|x y|key action]; simpl;
    try (now rewrite orb_false_r).
  - unfold mouse_button_callback.
    destruct (action =? PRESS); [now rewrite orb_false_r|].
    destruct (action =? RELEASE); now rewrite orb_false_r.
  - unfold mouse_move_callback.
    destruct (mouse_pressed r); [|now rewrite orb_false_r].
    destruct (bool_decide _); [now rewrite orb_false_r|].
    destruct (bool_decide _); now rewrite orb_false_r.
  - unfold key_callback.
    destruct ((action =? PRESS) || (action =? REPEAT));
      [|now rewrite andb_false_r, orb_false_r].
    rewrite andb_true_r.
    destruct (key =? KEY_ESCAPE) eqn:E; [simpl; now rewrite orb_true_r|].
    rewrite orb_false_r.
    destruct (key =? KEY_W); [reflexivity|].
    destruct (key =? KEY_S); [reflexivity|].
    destruct ((key =? KEY_EQUAL) || (key =? KEY_KP_ADD)); [reflexivity|].
    destruct ((key =? KEY_MINUS) || (key =? KEY_KP_SUBTRACT)); [reflexivity|].
    destruct (key =? KEY_R); reflexivity.
Qed.

(** X10.  After any sequence of input events the close flag is set exactly
    when it was set before or one of the events was an ESC press or repeat:
    no other key, no mouse input and no ESC release sets it, and nothing ever
    clears it. *)
Theorem close_flag_set_by_escape_only (self : PointCloudRenderer)
    (events : list event) :
  window_should_close (poll_events self events).1
  = window_should_close self || existsb is_escape events.
Proof.
  revert self. induction events as [|ev events IH]; intros self.
  - simpl. now rewrite orb_false_r.
  - cbn [Renderer.poll_events existsb].
    pose proof (handle_should_close self ev) as Hev.
    destruct (handle self ev) as [r calls] eqn:E. simpl in Hev.
    specialize (IH r).
    destruct (poll_events r events) as [r' calls'] eqn:E'. simpl in IH |- *.
    rewrite IH, Hev. now rewrite orb_assoc.
Qed.

(** X11.  Press any button at (x0, y0), move the cursor to (x1, y1),
    release: the left button makes exactly one [rotate] call with
    (x1 - x0, -(y1 - y0)), the right button exactly one [pan] call with
    (-(x1 - x0), y1 - y0), every other button no camera call at all; in each
    case the renderer ends with no button pressed. *)
Theorem drag_makes_at_most_one_camera_call (self : PointCloudRenderer)
    (button : Z) (x0 y0 x1 y1 : F64.t) :
  let events :=
    [MouseButton (x0, y0) button PRESS; CursorPos x1 y1;
     MouseButton (x1, y1) button RELEASE] in
  let dx := F64.sub x1 x0 in
  let dy := F64.sub y1 y0 in
  (poll_events self events).2
  = (if button =? MOUSE_BUTTON_LEFT then [CallRotate dx (F64.neg dy)]
     else if button =? MOUSE_BUTTON_RIGHT then [CallPan (F64.neg dx) dy]
     else [])
  /\ camera (poll_events self events).1
     = (if button =? MOUSE_BUTTON_LEFT then rotate (camera self) dx (F64.neg dy)
        else if button =? MOUSE_BUTTON_RIGHT then pan (camera self) (F64.neg dx) dy
        else camera self)
  /\ mouse_pressed (poll_events self events).1 = false
  /\ mouse_button (poll_events self events).1 = None.
Proof.
  cbv zeta.
  unfold Renderer.poll_events, Renderer.handle, mouse_button_callback,
    mouse_move_callback.
  cbn [Z.eqb PRESS RELEASE Pos.eqb set_mouse set_camera mouse_pressed
       last_mouse_x last_mouse_y mouse_button camera fst snd].
  destruct (Z.eqb_spec button MOUSE_BUTTON_LEFT) as [->|Hl].
  { rewrite bool_decide_eq_true_2 by reflexivity. cbn. repeat split; reflexivity. }
  rewrite bool_decide_eq_false_2 by congruence.
  destruct (Z.eqb_spec button MOUSE_BUTTON_RIGHT) as [->|Hr].
  { rewrite bool_decide_eq_true_2 by reflexivity. cbn. repeat split; reflexivity. }
  rewrite bool_decide_eq_false_2 by congruence.
  cbn. repeat split; reflexivity.
Qed.

(** X12.  [load_points] on an empty array raises [ValueError], with or
    without colours, and so does [height_colormap]: the minimum (maximum) of
    an empty column has no value. *)
Theorem load_points_empty_raises_ValueError (self : PointCloudRenderer)
    (cols : option (list color)) :
  load_points self [] cols = Raise ValueError
  /\ height_colormap [] = Raise ValueError.
Proof. split; [|reflexivity]. destruct cols; reflexivity. Qed.
End Sessions.

(** * Height colours and drawing *)

Lemma sub_self x : finite x -> F64.sub x x = F64.zero.
Proof.
  destruct x as [[|]|s| |s m e]; try easy; intros _.
  unfold F64.sub, SFsub. now rewrite Z.sub_diag.
Qed.

Lemma div_eucl_shifted m k :
  0 <= k -> Z.div_eucl (Z.shiftl (Zpos m) k) (Zpos m) = (2 ^ k, 0).
Proof.
  intros Hk. rewrite Z.shiftl_mul_pow2 by exact Hk.
  pose proof (Z.div_eucl_eq (Zpos m * 2 ^ k) (Zpos m) ltac:(easy)) as E.
  pose proof (Z.mod_pos_bound (Zpos m * 2 ^ k) (Zpos m) ltac:(easy)) as B.
  unfold Z.modulo in B.
  destruct (Z.div_eucl (Zpos m * 2 ^ k) (Zpos m)) as [q r].
  assert (Zpos m * (2 ^ k - q) = r) by lia.
  assert (2 ^ k - q = 0) by nia.
  f_equal; lia.
Qed.

(** A non-zero finite number divided by itself is exactly 1. *)
Lemma div_self x : finite_nonzero x -> F64.div x x = F64.of_Z 1.
Proof.
  destruct x as [s|s| |s m e]; try easy; intros _.
  unfold F64.div, SFdiv, SFdiv_core_binary.
  rewrite !Z.sub_diag.
  change (Z.min (fexp F64.prec F64.emax 0) 0) with (-53).
  change (0 - -53) with 53. cbv iota.
  change IntDef.Z.div_eucl with Z.div_eucl.
  rewrite (div_eucl_shifted m 53) by easy.
  replace (new_location (Zpos m) 0) with loc_Exact
    by (unfold new_location; now destruct (Z.even (Zpos m))).
  now destruct s.
Qed.

Lemma div_zero_l s y : finite_nonzero y -> is_zero (F64.div (S754_zero s) y).
Proof. now destruct y. Qed.

Lemma colormap_rgb_zero n :
  is_zero n -> Cityscape.store_f32 (Renderer.colormap_rgb n) = pure_blue.
Proof. destruct n as [[|]|s| |s m e]; try easy; intros _; vm_compute; reflexivity. Qed.

Lemma colormap_rgb_one :
  Cityscape.store_f32 (Renderer.colormap_rgb (F64.of_Z 1)) = pure_red.
Proof. vm_compute. reflexivity. Qed.

(** X13.  For finite heights whose range [h_max - h_min] is positive and
    does not overflow, [height_colormap] colours every point at the minimum
    height pure blue (0, 0, 1) and every point at the maximum height pure red
    (1, 0, 0). *)
Theorem height_colormap_lowest_blue_highest_red
    (heights : list F64.t) (h_min h_max : F64.t) :
  Forall (fun h => finite h /\ valid64 h) heights ->
  Np.amin heights = Ok h_min ->
  Np.amax heights = Ok h_max ->
  F64.gt h_max h_min = true ->
  finite (F64.sub h_max h_min) ->
  exists cols,
    Renderer.height_colormap heights = Ok cols
    /\ Forall2 (fun h c => (h = h_min -> c = pure_blue) /\ (h = h_max -> c = pure_red))
         heights cols.
Proof.
  intros Hall Hmin Hmax Hgt Hfin. unfold Renderer.height_colormap.
  rewrite Hmin, Hmax. cbn [mbind result_bind].
  eexists. split; [reflexivity|].
  unfold Renderer.normalize_heights. rewrite Hgt.
  assert (Hin : h_min ∈ heights /\ h_max ∈ heights).
  { destruct heights as [|h0 hs]; [discriminate|].
    injection Hmin as <-. injection Hmax as <-.
    split; [apply foldl_minimum_elem|apply foldl_maximum_elem]. }
  rewrite Forall_forall in Hall.
  destruct (Hall _ (proj1 Hin)) as [Fmin Vmin], (Hall _ (proj2 Hin)) as [Fmax Vmax].
  assert (Hnz : finite_nonzero (F64.sub h_max h_min)).
  { pose proof (SFsub_nonzero F64.prec F64.emax eq_refl h_max h_min
                  Vmax Vmin Fmax Fmin Hgt) as Hz.
    unfold F64.sub in *. destruct (SFsub F64.prec F64.emax h_max h_min); simpl in *; tauto. }
  rewrite !map_map. apply Forall2_fmap_r, Forall_Forall2_diag, Forall_forall.
  intros h _. split; intros ->.
  - rewrite (sub_self _ Fmin). apply colormap_rgb_zero.
    exact (div_zero_l false _ Hnz).
  - rewrite (div_self _ Hnz). apply colormap_rgb_one.
Qed.

Lemma drawn_pairs (ps : list (F32.t * F32.t * F32.t)) : forall (cs : list color) current,
  drawn current
    (flat_map (fun pc : (F32.t * F32.t * F32.t) * color =>
                 let '(point, color) := pc in
                 [Renderer.glColor3f color.1.1 color.1.2 color.2;
                  Renderer.glVertex3f point.1.1 point.1.2 point.2])
       (zip ps cs) ++ [Renderer.glEnd])
  = zip ps cs.
Proof.
  induction ps as [|[[x y] z] ps IH]; intros cs current.
  - reflexivity.
  - destruct cs as [|[[r g] b] cs]; [reflexivity|].
    cbn [zip zip_with flat_map app drawn fst snd].
    f_equal. apply IH.
Qed.

Section Drawing.
Import Renderer.
Variables np_cos np_sin : F64.t -> F64.t.

(** X14.  After a successful [load_points], [render_points] draws the
    loaded points in input order, each in its own colour whatever colour was
    current before, as [float32] values.  With [colors=None] that is every
    point; with a colour array it is as many points as the shorter of the two
    arrays has rows, since neither function compares the lengths. *)
Theorem render_points_draws_loaded_points
    (self : PointCloudRenderer) (pts : list point) (cols : option (list color))
    (r : PointCloudRenderer) :
  load_points np_cos np_sin self pts cols = Ok r ->
  exists cs,
    colors r = Some (map astype_f32 cs)
    /\ (cols = None -> height_colormap (coords (fun p => p.2) pts) = Ok cs
                       /\ length cs = length pts)
    /\ (forall c, cols = Some c -> cs = c)
    /\ (forall current,
        drawn current (render_points r)
        = zip (map astype_f32 pts) (map astype_f32 cs))
    /\ length (drawn (F64.zero, F64.zero, F64.zero) (render_points r))
       = Nat.min (length pts) (length cs).
Proof.
  unfold load_points. intros H.
  destruct (match cols with Some c => _ | None => _ end) as [cs|] eqn:E;
    [|discriminate H].
  cbn [mbind result_bind] in H.
  destruct (bbox_max_dim pts); [|discriminate H].
  cbn [mbind result_bind] in H. injection H as <-.
  exists cs. split; [reflexivity|].
  split.
  { intros ->. split; [exact E|].
    unfold height_colormap in E.
    destruct (Np.amin _); [|discriminate E]. cbn [mbind result_bind] in E.
    destruct (Np.amax _); [|discriminate E]. cbn [mbind result_bind] in E.
    injection E as <-. rewrite length_map. unfold normalize_heights, coords.
    destruct (F64.gt _ _); now rewrite !length_map. }
  split; [intros c ->; now injection E as <-|].
  unfold render_points. cbn [points colors drawn].
  split; [intros current; apply drawn_pairs|].
  now rewrite drawn_pairs, length_zip, !length_map.
Qed.
End Drawing.

(** X15.  [setup_projection] raises [ZeroDivisionError] exactly when the
    window height is 0, after it has selected and reset the projection matrix
    and before it sets the perspective; so does the first projection set up
    after [resize_callback] was given a height of 0. *)
Theorem setup_projection_needs_a_height (self : Renderer.PointCloudRenderer) (w : Z) :
  ((Renderer.setup_projection self).2 = Raise ZeroDivisionError
   <-> Renderer.height self = 0)
  /\ ((Renderer.setup_projection self).2 = Ok tt <-> Renderer.height self <> 0)
  /\ Renderer.setup_projection (Renderer.resize_callback self w 0).1
     = ([Renderer.glMatrixMode Renderer.GL_PROJECTION; Renderer.glLoadIdentity],
        Raise ZeroDivisionError)
  /\ (Renderer.resize_callback self w 0).2 = [Renderer.glViewport 0 0 w 0].
Proof.
  unfold Renderer.setup_projection.
  destruct (Z.eqb_spec (Renderer.height self) 0) as [E|E]; simpl;
    repeat split; try easy.
Qed.

(** * Downsampling and centring: sizes and edge cases *)

Lemma picked_submseteq {A} (a : list A) idx out :
  NoDup idx -> picked a idx out -> out ⊆+ a.
Proof.
  intros Hnd Hp. destruct a as [|x0 a'].
  { destruct Hp as [|i x idx out Hx _]; [apply submseteq_nil_l|discriminate]. }
  set (a := x0 :: a') in *.
  set (f := fun i => default x0 (a !! i)).
  assert (Hout : out = f <$> idx).
  { clear Hnd. induction Hp as [|i x idx out Hx _ IH]; [reflexivity|].
    rewrite fmap_cons, <- IH. unfold f. now rewrite Hx. }
  assert (Ha : a = f <$> seq 0 (length a)).
  { apply list_eq. intros i. rewrite list_lookup_fmap.
    destruct (decide (i < length a)%nat) as [Hi|Hi].
    - rewrite lookup_seq_lt by exact Hi. simpl. unfold f.
      destruct (lookup_lt_is_Some_2 a i Hi) as [y ->]. reflexivity.
    - rewrite (lookup_ge_None_2 a) by lia.
      rewrite (lookup_ge_None_2 (seq 0 (length a))) by (rewrite length_seq; lia).
      reflexivity. }
  assert (Hgoal : f <$> idx ⊆+ f <$> seq 0 (length a)).
  { apply fmap_submseteq, NoDup_submseteq; [exact Hnd|].
    intros i Hi. apply elem_of_seq. split; [lia|]. simpl.
    pose proof (picked_in_range _ _ _ Hp) as Hr. rewrite Forall_forall in Hr.
    now apply Hr. }
  rewrite <- Ha in Hgoal. now rewrite Hout.
Qed.

(** X16.  [voxel_downsample] keeps every point at most once and drops the
    rest: its output is a sub-multiset of the input (in voxel-key order), no
    longer than it, empty only for an empty input, with the colours still
    index-aligned.  If the voxel keys floor(coordinate / voxel_size) are
    integers that an [int32] holds and no two points share a key, nothing is
    dropped: the output is a permutation of the input. *)
Theorem voxel_downsample_returns_a_sub_multiset {C}
    (points : list point) (colors : option (list C)) (v : F64.t) :
  aligned points colors ->
  exists pts' cols',
    Loader.voxel_downsample points colors v = Ok (pts', cols')
    /\ pts' ⊆+ points
    /\ (length pts' <= length points)%nat
    /\ (pts' = [] <-> points = [])
    /\ aligned pts' cols'
    /\ (is_Some cols' <-> is_Some colors)
    /\ (int32_voxels v points -> NoDup (map (voxel_key v) points) ->
        pts' ≡ₚ points).
Proof.
  intros Hal.
  destruct (voxel_downsample_spec points colors v Hal)
    as (pts' & cols' & Hrun & Hp & Hc & Hk).
  pose proof (picked_submseteq _ _ _ (unique_indices_nodup _) Hp) as Hsub.
  exists pts', cols'. split; [exact Hrun|]. split; [exact Hsub|].
  split; [now apply submseteq_length|].
  split.
  { split.
    - intros ->. destruct points as [|p points]; [reflexivity|]. exfalso.
      apply (unique_indices_nonempty (map (Loader.voxel_index v) (p :: points)));
        [discriminate|].
      apply Forall2_length in Hp.
      now destruct (Np.unique_rows (map (Loader.voxel_index v) (p :: points))).2.
    - intros ->. now apply submseteq_nil_r in Hsub. }
  split; [eapply picked_opt_aligned; eassumption|].
  split.
  { destruct colors, cols'; simpl in Hc; try easy; split; eauto. }
  intros Hrange Hnd. apply submseteq_length_Permutation; [exact Hsub|].
  assert (Hkeys : map (voxel_key v) points
                  = Some <$> map (Loader.voxel_index v) points).
  { rewrite !map_is_fmap, <- list_fmap_compose. apply Forall_fmap_ext_1.
    exact (int32_voxels_key v points Hrange). }
  rewrite Hkeys in Hnd. apply NoDup_fmap_1 in Hnd.
  destruct (unique_rows_spec (map (Loader.voxel_index v) points)) as (_ & _ & Hcov).
  assert (Hle : map (Loader.voxel_index v) points
                ⊆+ (Np.unique_rows (map (Loader.voxel_index v) points)).1).
  { apply NoDup_submseteq; [exact Hnd|].
    intros k Hk'. apply list_elem_of_lookup in Hk' as [j Hj]. eapply Hcov, Hj. }
  apply submseteq_length in Hle. rewrite <- Hk, !length_map in Hle. exact Hle.
Qed.

(** X17.  [center_points] never raises and returns as many points as it
    was given; on an empty array the centre is a row of NaN.
    [normalize_points] raises [ValueError] on an empty array (the maximum of
    no elements) and on any other array returns as many points as it was
    given together with the largest absolute centred coordinate; when that is
    not greater than zero (all zero, or NaN) nothing is divided and the
    points come back centred only. *)
Theorem center_and_normalize_sizes (points : list point) :
  length (Loader.center_points points).1 = length points
  /\ Loader.center_points [] = ([], (F64.nan, F64.nan, F64.nan))
  /\ Loader.normalize_points [] = Raise ValueError
  /\ (points <> [] ->
      exists normalized max_extent,
        Loader.normalize_points points = Ok (normalized, max_extent)
        /\ length normalized = length points
        /\ Np.amax (map F64.abs (Loader.flat (Loader.center_points points).1))
           = Ok max_extent
        /\ (F64.gt max_extent (F64.of_Z 0) = false ->
            normalized = (Loader.center_points points).1)).
Proof.
  split; [unfold Loader.center_points; cbn [fst]; apply length_map|].
  split; [reflexivity|]. split; [reflexivity|].
  intros Hne. unfold Loader.normalize_points.
  destruct (Loader.center_points points) as [centered center] eqn:E.
  assert (Hlen : length centered = length points).
  { unfold Loader.center_points in E. injection E as <- _. now rewrite length_map. }
  destruct centered as [|c centered].
  { destruct points; [easy|discriminate]. }
  cbn [Loader.flat map concat app Np.amax mbind result_bind fst].
  eexists _, _. split; [reflexivity|].
  split; [destruct (F64.gt _ _); simpl in *; [rewrite length_map|]; exact Hlen|].
  split; [reflexivity|]. now intros ->.
Qed.

(** * The statements above at concrete inputs *)

Lemma draw_first_valid : valid_choice draw_first.
Proof.
  intros n m Hm. unfold draw_first. split; [apply length_seq|].
  split; [|apply NoDup_seq]. apply Forall_seq. intros j Hj. lia.
Qed.

Lemma small_tile_finite :
  Forall (fun p => Scipy.point_finite p = true) (las_xyz small_tile).
Proof. repeat (constructor; [vm_compute; reflexivity|]). constructor. Qed.

(** X1 at the empty file. *)
Lemma empty_file_raises_ValueError_witness :
  las_xyz empty_tile = []
  /\ Loader.load draw_first
       {| Loader.max_points := Some 100%nat;
          Loader.downsample_voxel := Some (F64.lit 5 100) |} empty_tile
     = Raise ValueError
  /\ Loader.load_las_file draw_first empty_tile (Some 100%nat) (Some (F64.lit 5 100)) true
     = Raise ValueError
  /\ Cityscape.load_urban_las draw_first empty_tile (Some 100%nat) (Some (F64.lit 5 100))
     = Raise ValueError.
Proof.
  split; [reflexivity|].
  exact (empty_file_raises_ValueError draw_first empty_tile (Some 100%nat)
           (Some (F64.lit 5 100)) true eq_refl).
Defined.

(** X2 at the three-point file, voxel size 0.05 and a limit of one point. *)
Lemma load_selects_points_with_their_colors_witness :
  valid_choice draw_first
  /\ las_xyz small_tile <> []
  /\ aligned (las_xyz small_tile) (las_rgb small_tile)
  /\ exists idx pts cols md,
       Loader.load draw_first
         {| Loader.max_points := Some 1%nat;
            Loader.downsample_voxel := Some (F64.lit 5 100) |} small_tile
       = Ok (pts, cols, md)
       /\ idx <> [] /\ NoDup idx
       /\ picked (las_xyz small_tile) idx pts
       /\ picked_opt (Loader.stored_colors small_tile) idx cols
       /\ (length pts <= 1)%nat
       /\ Loader.num_points md = length pts
       /\ Loader.has_colors md = true.
Proof.
  assert (H2 : las_xyz small_tile <> []) by discriminate.
  assert (H3 : aligned (las_xyz small_tile) (las_rgb small_tile)) by reflexivity.
  split; [exact draw_first_valid|]. split; [exact H2|]. split; [exact H3|].
  destruct (load_selects_points_with_their_colors draw_first
              {| Loader.max_points := Some 1%nat;
                 Loader.downsample_voxel := Some (F64.lit 5 100) |} small_tile
              draw_first_valid H2 H3)
    as (idx & pts & cols & md & Hrun & Hne & Hnd & Hp & Hc & Hm & Hn & Hh & _).
  exists idx, pts, cols, md. repeat split; trivial.
  exact (Hm 1%nat eq_refl ltac:(discriminate)).
Defined.

(** X3 at the three-point file. *)
Lemma load_urban_las_colors_follow_points_witness :
  valid_choice draw_first
  /\ las_xyz small_tile <> []
  /\ aligned (las_xyz small_tile) (las_classification small_tile)
  /\ exists idx pts cols md,
       Cityscape.load_urban_las draw_first small_tile (Some 100%nat)
         (Some (F64.lit 2 100))
       = Ok (pts, cols, md)
       /\ picked (las_xyz small_tile) idx pts
       /\ picked_opt
            (map (fun cls => Cityscape.store_f32 (Cityscape.colorize cls))
               <$> las_classification small_tile) idx cols
       /\ Cityscape.has_classification md = true.
Proof.
  assert (H2 : las_xyz small_tile <> []) by discriminate.
  assert (H3 : aligned (las_xyz small_tile) (las_classification small_tile))
    by reflexivity.
  split; [exact draw_first_valid|]. split; [exact H2|]. split; [exact H3|].
  destruct (load_urban_las_colors_follow_points draw_first small_tile
              (Some 100%nat) (Some (F64.lit 2 100)) draw_first_valid H2 H3)
    as (idx & pts & cols & md & Hrun & _ & _ & Hp & Hc & _ & _ & _ & Hh & _).
  exists idx, pts, cols, md. repeat split; trivial.
Defined.

(** X5 at three points on a line and one neighbour. *)
Lemma remove_outliers_only_removes_witness :
  Forall (fun p => Scipy.point_finite p = true) (las_xyz small_tile)
  /\ las_xyz small_tile <> []
  /\ 1%nat <> 0%nat
  /\ aligned (las_xyz small_tile) (Loader.stored_colors small_tile)
  /\ exists mask,
       length mask = 3%nat
       /\ Loader.remove_outliers (las_xyz small_tile) (Loader.stored_colors small_tile)
            1 (F64.of_Z 2)
          = Ok (Np.compress mask (las_xyz small_tile),
                Np.compress mask <$> Loader.stored_colors small_tile)
       /\ Np.compress mask (las_xyz small_tile) `sublist_of` las_xyz small_tile.
Proof.
  assert (H2 : las_xyz small_tile <> []) by discriminate.
  assert (H3 : 1%nat <> 0%nat) by discriminate.
  assert (H4 : aligned (las_xyz small_tile) (Loader.stored_colors small_tile))
    by reflexivity.
  split; [exact small_tile_finite|]. split; [exact H2|]. split; [exact H3|].
  split; [exact H4|].
  destruct (remove_outliers_only_removes (las_xyz small_tile)
              (Loader.stored_colors small_tile) 1 (F64.of_Z 2)
              small_tile_finite H2 H3 H4)
    as (mask & Hlen & Hrun & Hsub & _).
  exists mask. repeat split; trivial.
Defined.

(** X7 at the three-point file: with the default 20 neighbours every
    point is removed, and the metadata still counts three. *)
Lemma load_las_file_metadata_precedes_outlier_removal_witness :
  let md :=
    {| Loader.filename := "small.las";
       Loader.num_points := 3;
       Loader.bounds := ((F64.of_Z 0, F64.of_Z 10),
                         (F64.of_Z 0, F64.lit 1 100),
                         (F64.of_Z 0, F64.lit 1 100));
       Loader.has_colors := true;
       Loader.md_las_version := "1.2" |} in
  Loader.load_las_file draw_first small_tile None None true = Ok ([], Some [], md)
  /\ exists pts0 cols0,
       Loader.load draw_first
         {| Loader.max_points := None; Loader.downsample_voxel := None |} small_tile
       = Ok (pts0, cols0, md)
       /\ Loader.num_points md = length pts0
       /\ (length (@nil point) <= Loader.num_points md)%nat.
Proof.
  intros md.
  assert (H : Loader.load_las_file draw_first small_tile None None true
              = Ok ([], Some [], md)) by (vm_compute; reflexivity).
  split; [exact H|].
  destruct (load_las_file_metadata_precedes_outlier_removal draw_first small_tile
              None None [] (Some []) md H)
    as (pts0 & cols0 & Hl & _ & _ & Hn & _ & Hle).
  exists pts0, cols0. repeat split; trivial.
Defined.

(** X8 and X9 at a fresh renderer after one press of the [+] key. *)
Lemma point_size_stays_between_1_and_10_witness :
  let r := (Renderer.handle taylor_cos taylor_sin renderer0
              (Renderer.Key Renderer.KEY_EQUAL Renderer.PRESS)).1 in
  reachable taylor_cos taylor_sin r
  /\ Renderer.point_size r ∈ point_sizes
  /\ within (F64.of_Z 1) (F64.of_Z 10) (Renderer.point_size r) = true.
Proof.
  intros r.
  assert (H : reachable taylor_cos taylor_sin r)
    by (apply reach_event, reach_new).
  split; [exact H|].
  destruct (point_size_stays_between_1_and_10 taylor_cos taylor_sin r H)
    as (H1 & H2 & _).
  split; [exact H1|exact H2].
Defined.

Lemma camera_stays_on_its_orbit_witness :
  let r := (Renderer.handle taylor_cos taylor_sin renderer0
              (Renderer.Scroll (F64.of_Z 0) (F64.of_Z 1))).1 in
  reachable taylor_cos taylor_sin r
  /\ Renderer.update_position taylor_cos taylor_sin (Renderer.camera r)
     = Renderer.camera r
  /\ Renderer.rotation_speed (Renderer.camera r) = F64.lit 5 10.
Proof.
  intros r.
  assert (H : reachable taylor_cos taylor_sin r)
    by (apply reach_event, reach_new).
  split; [exact H|].
  destruct (camera_stays_on_its_orbit taylor_cos taylor_sin r H)
    as (H1 & _ & H2 & _).
  split; [exact H1|exact H2].
Defined.

(** X13 at the heights 1, 2, 3. *)
Lemma height_colormap_lowest_blue_highest_red_witness :
  let heights := [F64.of_Z 1; F64.of_Z 2; F64.of_Z 3] in
  Forall (fun h => finite h /\ valid64 h) heights
  /\ Np.amin heights = Ok (F64.of_Z 1)
  /\ Np.amax heights = Ok (F64.of_Z 3)
  /\ F64.gt (F64.of_Z 3) (F64.of_Z 1) = true
  /\ finite (F64.sub (F64.of_Z 3) (F64.of_Z 1))
  /\ exists cols,
       Renderer.height_colormap heights = Ok cols
       /\ Forall2 (fun h c => (h = F64.of_Z 1 -> c = pure_blue)
                              /\ (h = F64.of_Z 3 -> c = pure_red)) heights cols.
Proof.
  intros heights.
  assert (H1 : Forall (fun h => finite h /\ valid64 h) heights)
    by (repeat (constructor; [split; vm_compute; easy|]); constructor).
  assert (H2 : Np.amin heights = Ok (F64.of_Z 1)) by (vm_compute; reflexivity).
  assert (H3 : Np.amax heights = Ok (F64.of_Z 3)) by (vm_compute; reflexivity).
  assert (H4 : F64.gt (F64.of_Z 3) (F64.of_Z 1) = true) by (vm_compute; reflexivity).
  assert (H5 : finite (F64.sub (F64.of_Z 3) (F64.of_Z 1))) by (vm_compute; easy).
  repeat (split; [assumption|]).
  exact (height_colormap_lowest_blue_highest_red heights _ _ H1 H2 H3 H4 H5).
Defined.

(** X14 at the three points of the file, loaded without colours. *)
Lemma render_points_draws_loaded_points_witness :
  Renderer.load_points taylor_cos taylor_sin renderer0 (las_xyz small_tile) None
  = Ok loaded0
  /\ length (drawn (F64.zero, F64.zero, F64.zero) (Renderer.render_points loaded0))
     = 3%nat.
Proof.
  assert (H : Renderer.load_points taylor_cos taylor_sin renderer0
                (las_xyz small_tile) None = Ok loaded0)
    by (vm_compute; reflexivity).
  split; [exact H|].
  destruct (render_points_draws_loaded_points taylor_cos taylor_sin renderer0
              (las_xyz small_tile) None loaded0 H)
    as (cs & _ & Hnone & _ & _ & Hlen).
  destruct (Hnone eq_refl) as [_ Hcs].
  rewrite Hlen, Hcs. reflexivity.
Defined.

(** X16 at the three points, voxel size 0.05. *)
Lemma voxel_downsample_returns_a_sub_multiset_witness :
  aligned (las_xyz small_tile) (las_rgb small_tile)
  /\ exists pts' cols',
       Loader.voxel_downsample (las_xyz small_tile) (las_rgb small_tile) (F64.lit 5 100)
       = Ok (pts', cols')
       /\ pts' ⊆+ las_xyz small_tile
       /\ aligned pts' cols'.
Proof.
  assert (H : aligned (las_xyz small_tile) (las_rgb small_tile)) by reflexivity.
  split; [exact H|].
  destruct (voxel_downsample_returns_a_sub_multiset (las_xyz small_tile)
              (las_rgb small_tile) (F64.lit 5 100) H)
    as (pts' & cols' & Hrun & Hsub & _ & _ & Hal & _).
  exists pts', cols'. repeat split; trivial.
Defined.

(** * Which colours the two loaders return *)

Section UrbanLoader.
Variable random_choice : nat -> nat -> list nat.

(** C8 (as amended).  [load_urban_las] never reads the stored colour
    channels: its whole result is the same as for the file with its stored
    colours removed.  On a file with points and an index-aligned
    classification the colours it returns are the classification colours of
    the points it returns, whether or not the file stores colours; without a
    classification it returns no colours.  Stored colours are kept only by
    [PointCloudLoader.load], which never reads the classification: its
    result is the same as for the file with the classification removed, and
    the colours it returns are the stored colours of the points it
    returns. *)
Theorem load_urban_las_ignores_stored_colors (las : LasData)
    (max_points : option nat) (downsample_voxel : option F64.t)
    (self : Loader.PointCloudLoader) :
  Cityscape.load_urban_las random_choice las max_points downsample_voxel
  = Cityscape.load_urban_las random_choice (without_rgb las) max_points
      downsample_voxel
  /\ (valid_choice random_choice ->
      las_xyz las <> [] ->
      aligned (las_xyz las) (las_classification las) ->
      exists idx pts cols md,
        Cityscape.load_urban_las random_choice las max_points downsample_voxel
        = Ok (pts, cols, md)
        /\ picked (las_xyz las) idx pts
        /\ (forall classification,
              las_classification las = Some classification ->
              exists cs,
                cols = Some cs
                /\ picked (map (fun cls => Cityscape.store_f32 (Cityscape.colorize cls))
                             classification) idx cs)
        /\ (las_classification las = None -> cols = None))
  /\ Loader.load random_choice self las
     = Loader.load random_choice self (without_classification las)
  /\ (valid_choice random_choice ->
      las_xyz las <> [] ->
      aligned (las_xyz las) (las_rgb las) ->
      exists idx pts cols md,
        Loader.load random_choice self las = Ok (pts, cols, md)
        /\ picked (las_xyz las) idx pts
        /\ picked_opt (Loader.stored_colors las) idx cols)
  /\ (forall classification,
        las_classification las = Some classification ->
        length classification = length (las_xyz las) ->
        Cityscape.classification_colors las
        = Ok (Some (map (fun cls => Cityscape.store_f32 (Cityscape.colorize cls))
                        classification)))
  /\ (las_classification las = None ->
      Cityscape.classification_colors las = Ok None).
Proof.
  split; [reflexivity|]. split; [|split; [reflexivity|split; [|split]]].
  - intros Hrc Hne Hal.
    destruct (load_urban_las_picks random_choice las max_points downsample_voxel
                Hrc Hne Hal)
      as (idx & pts & cols & Hrun & _ & _ & Hp & Hc & _).
    eexists idx, pts, cols, _. split; [exact Hrun|]. split; [exact Hp|].
    split.
    + intros classification E. rewrite E in Hc. simpl in Hc.
      destruct cols as [cs|]; [|easy]. now exists cs.
    + intros E. rewrite E in Hc. simpl in Hc. now destruct cols.
  - intros Hrc Hne Hal.
    destruct (load_picks random_choice self las Hrc Hne Hal)
      as (idx & pts & cols & b & Hrun & _ & _ & _ & Hp & Hc & _).
    eexists idx, pts, cols, _. split; [exact Hrun|]. split; [exact Hp|exact Hc].
  - intros classification Hc Hlen. unfold Cityscape.classification_colors.
    rewrite Hc.
    pose proof (fill_colors_all classification []
                  (replicate (length (las_xyz las)) Cityscape.zero_color)) as E.
    cbn [length app] in E.
    rewrite E by (now rewrite length_replicate). reflexivity.
  - intros Hc. unfold Cityscape.classification_colors. now rewrite Hc.
Qed.
End UrbanLoader.

(** The theorem at a file with both channels. *)
Lemma load_urban_las_ignores_stored_colors_witness :
  valid_choice draw_first
  /\ las_xyz blue_building <> []
  /\ aligned (las_xyz blue_building) (las_classification blue_building)
  /\ exists idx pts cols md,
       Cityscape.load_urban_las draw_first blue_building None None
       = Ok (pts, cols, md)
       /\ picked (las_xyz blue_building) idx pts
       /\ (forall classification,
             las_classification blue_building = Some classification ->
             exists cs,
               cols = Some cs
               /\ picked (map (fun cls => Cityscape.store_f32 (Cityscape.colorize cls))
                            classification) idx cs)
       /\ (las_classification blue_building = None -> cols = None).
Proof.
  assert (H1 : las_xyz blue_building <> []) by discriminate.
  assert (H2 : aligned (las_xyz blue_building) (las_classification blue_building))
    by reflexivity.
  split; [exact draw_first_valid|]. split; [exact H1|]. split; [exact H2|].
  exact (proj1 (proj2 (load_urban_las_ignores_stored_colors draw_first blue_building
                         None None
                         {| Loader.max_points := None;
                            Loader.downsample_voxel := None |}))
           draw_first_valid H1 H2).
Defined.

(** C8, as stated, fails: for a file whose only point is stored as pure
    blue and classified as a building, [load_urban_las] returns the
    building colour, not the stored colour. *)
Lemma load_urban_las_overrides_stored_colors :
  exists r,
    Cityscape.load_urban_las draw_first blue_building None None = Ok r
    /\ r.1.2 = Some [Cityscape.store_f32 (Cityscape.rgb 9 1 1)]
    /\ Loader.stored_colors blue_building
       = Some [(F64.of_Z 0, F64.of_Z 0, F64.of_Z 1)]
    /\ r.1.2 <> Loader.stored_colors blue_building.
Proof.
  eexists. split; [vm_compute; reflexivity|].
  split; [vm_compute; reflexivity|].
  split; [vm_compute; reflexivity|].
  vm_compute. discriminate.
Qed.

(** * Normalization to the unit cube *)

(** The order of the floats that are not NaN. *)
Lemma SFleb_refl x : not_nan x -> SFleb x x = true.
Proof.
  unfold SFleb, SFcompare. destruct x as [s|[|]| |[|] m e]; try easy; intros _;
    rewrite Z.compare_refl, Pos.compare_cont_refl; reflexivity.
Qed.

Lemma SFleb_total x y :
  not_nan x -> not_nan y -> SFleb x y = false -> SFleb y x = true.
Proof.
  intros Hx Hy. unfold SFleb. rewrite (SFcompare_antisym x y).
  destruct (SFcompare x y) as [[| |]|] eqn:E; simpl; try easy.
  apply SFcompare_None in E as [E|E]; contradiction.
Qed.

Lemma SFleb_trans x y z :
  SFleb x y = true -> SFleb y z = true -> SFleb x z = true.
Proof.
  unfold SFleb, SFcompare.
  destruct x as [sx|[|]| |[|] mx ex], y as [sy|[|]| |[|] my ey],
           z as [sz|[|]| |[|] mz ez]; try easy;
    rewrite !Pos.compare_cont_spec; simpl Pos.switch_Eq;
    destruct (Z.compare_spec ex ey), (Z.compare_spec ey ez), (Z.compare_spec ex ez);
    try lia; try easy; subst;
    destruct (Pos.compare_spec mx my), (Pos.compare_spec my mz),
             (Pos.compare_spec mx mz); simpl; try easy; lia.
Qed.

Lemma maximum_upper a b :
  not_nan a -> not_nan b ->
  not_nan (Np.maximum a b)
  /\ SFleb a (Np.maximum a b) = true /\ SFleb b (Np.maximum a b) = true.
Proof.
  intros Ha Hb. unfold Np.maximum, F64.ge, F64.le.
  assert (F64.isnan a = false) as -> by (now destruct a).
  rewrite orb_false_r. destruct (SFleb b a) eqn:E.
  - split; [exact Ha|]. split; [now apply SFleb_refl|exact E].
  - split; [exact Hb|]. split; [now apply SFleb_total|now apply SFleb_refl].
Qed.

(** [a.max()] of an array without NaN is an upper bound of its elements. *)
Lemma foldl_maximum_upper l : forall a,
  not_nan a -> Forall not_nan l ->
  not_nan (foldl Np.maximum a l)
  /\ Forall (fun x => SFleb x (foldl Np.maximum a l) = true) (a :: l).
Proof.
  induction l as [|b l IH]; intros a Ha Hl.
  - split; [exact Ha|]. constructor; [now apply SFleb_refl|constructor].
  - inversion Hl as [|? ? Hb Hl']; subst.
    destruct (maximum_upper a b Ha Hb) as (Hm & Hma & Hmb).
    destruct (IH (Np.maximum a b) Hm Hl') as (Hn & Hall).
    split; [exact Hn|]. cbn [foldl].
    inversion Hall as [|? ? Hmax Hrest]; subst.
    constructor; [eapply SFleb_trans; eassumption|].
    constructor; [eapply SFleb_trans; eassumption|exact Hrest].
Qed.

(** Rounding a quotient below one: a number of magnitude at most
    [2^0], given with an exponent that leaves room for 53 digits, rounds to
    a float in [-1, 1]. *)
Lemma round_aux_small sx mx ex lx :
  0 <= mx ->
  (0 < mx -> ex <= fexp F64.prec F64.emax (Zdigits2 mx + ex)) ->
  Zdigits2 mx + ex <= 0 -> ex <= -53 ->
  within (F64.of_Z (-1)) (F64.of_Z 1)
    (binary_round_aux F64.prec F64.emax sx mx ex lx) = true.
Proof.
  intros Hm Hex Hmag Hsmall.
  destruct (Z.eq_dec mx 0) as [->|Hnz].
  - unfold binary_round_aux.
    destruct (shr_fexp_value F64.prec F64.emax 0 ex lx (Z.le_refl 0)) as [V1 V2].
    destruct (shr_fexp F64.prec F64.emax 0 ex lx) as [mrs' e']. simpl in V1, V2.
    rewrite Z.div_0_l in V1
      by (apply Z.pow_nonzero; [discriminate|apply Z.le_max_l]).
    rewrite V1.
    pose proof (round_nearest_even_bounds 0 (loc_of_shr_record mrs')) as B.
    set (m2 := round_nearest_even 0 (loc_of_shr_record mrs')) in *.
    assert (He' : -1074 <= e' <= -53).
    { rewrite V2. unfold fexp, emin, F64.prec, F64.emax. simpl Zdigits2. lia. }
    assert (Hm2 : m2 = 0 \/ m2 = 1) by lia. clearbody m2.
    destruct (shr_fexp_value F64.prec F64.emax m2 e' loc_Exact ltac:(lia)) as [W1 W2].
    destruct (shr_fexp F64.prec F64.emax m2 e' loc_Exact) as [mrs'' e''].
    simpl in W1, W2. destruct Hm2 as [->| ->].
    + rewrite Z.div_0_l in W1
        by (apply Z.pow_nonzero; [discriminate|apply Z.le_max_l]).
      rewrite W1. now destruct sx.
    + assert (Hshift : Z.max 0 (fexp F64.prec F64.emax (Zdigits2 1 + e') - e') = 0).
      { unfold fexp, emin, F64.prec, F64.emax. simpl Zdigits2. lia. }
      rewrite Hshift in W1, W2. change (1 / 2 ^ 0) with 1 in W1.
      rewrite W1, W2, Z.add_0_r.
      replace (e' <=? F64.emax - F64.prec) with true
        by (symmetry; apply Z.leb_le; unfold F64.emax, F64.prec; lia).
      change (F64.of_Z 1) with (S754_finite false 4503599627370496 (-52)).
      change (F64.of_Z (-1)) with (S754_finite true 4503599627370496 (-52)).
      unfold within, F64.le, SFleb, SFcompare.
      destruct (Z.compare_spec e' (-52)) as [E|E|E]; try (exfalso; clear -E He'; lia).
      destruct (Z.compare_spec (-52) e') as [E'|E'|E']; try (exfalso; clear -E' He'; lia).
      now destruct sx.
  - destruct (binary_round_aux_spec F64.prec F64.emax eq_refl sx mx ex lx
                ltac:(lia) (Hex ltac:(lia)))
      as [->|(m3 & e3 & -> & C & M)]; [now destruct sx|].
    unfold canonical_mantissa, fexp, emin, F64.prec, F64.emax in *.
    apply Z.eqb_eq in C.
    assert (Hmu : Zpos (digits2_pos m3) + e3 <= 1) by lia.
    replace (e3 <=? 1024 - 53) with true by (symmetry; apply Z.leb_le; lia).
    assert (Hcase : e3 < -52 \/ (e3 = -52 /\ m3 = 4503599627370496%positive)).
    { destruct (Z.le_gt_cases (Zpos (digits2_pos m3) + e3) 0) as [H0|H1];
        [left; lia|right].
      destruct M as [M|[Mp _]]; [lia|].
      assert (He3 : e3 = -52) by lia. split; [exact He3|].
      assert (HD3 : Zpos (digits2_pos m3) = 53) by lia.
      rewrite HD3 in Mp. change (2 ^ (53 - 1)) with (Zpos 4503599627370496) in Mp.
      now injection Mp. }
    clear -Hcase.
    change (F64.of_Z 1) with (S754_finite false 4503599627370496 (-52)).
    change (F64.of_Z (-1)) with (S754_finite true 4503599627370496 (-52)).
    unfold within, F64.le, SFleb, SFcompare.
    destruct Hcase as [Hlt|[-> ->]]; [|now destruct sx].
    destruct (Z.compare_spec e3 (-52)) as [E|E|E]; try (exfalso; clear -E Hlt; lia).
    destruct (Z.compare_spec (-52) e3) as [E'|E'|E']; try (exfalso; clear -E' Hlt; lia).
    now destruct sx.
Qed.

(** Two facts about the canonical form of a binary64 number. *)
Lemma valid64_digits s m e :
  valid64 (S754_finite s m e) ->
  -1074 <= e /\ Zpos (digits2_pos m) <= 53
  /\ (-1074 < e -> Zpos (digits2_pos m) = 53).
Proof.
  unfold valid64, valid_binary, bounded, canonical_mantissa, fexp, emin,
    F64.prec, F64.emax.
  intros [C _]%andb_true_iff. apply Z.eqb_eq in C. lia.
Qed.

(** Of two positive canonical numbers in lexicographic order the first
    has the smaller value and no larger magnitude. *)
Lemma canonical_lt_value mx ex mm em :
  valid64 (S754_finite false mx ex) -> valid64 (S754_finite false mm em) ->
  ex < em \/ (ex = em /\ (mx < mm)%positive) ->
  Zpos mx < Zpos mm * 2 ^ (em - ex)
  /\ Zpos (digits2_pos mx) + ex <= Zpos (digits2_pos mm) + em.
Proof.
  intros Vx Vm H.
  destruct (valid64_digits _ _ _ Vx) as (Ex & Dx & _).
  destruct (valid64_digits _ _ _ Vm) as (Em & Dm & Nm).
  pose proof (digits2_pos_bounds mx) as [Bx1 Bx2].
  pose proof (digits2_pos_bounds mm) as [Bm1 Bm2].
  destruct H as [Hlt|[-> Hlt]].
  - rewrite Nm in * by lia. split; [|lia].
    assert (Zpos mx < 2 ^ 53).
    { eapply Z.lt_le_trans; [exact Bx2|]. apply Z.pow_le_mono_r; lia. }
    assert (2 ^ 1 <= 2 ^ (em - ex)) by (apply Z.pow_le_mono_r; lia).
    change (2 ^ (53 - 1)) with (2 ^ 52) in Bm1.
    assert (E53 : 2 ^ 53 = 2 ^ 52 * 2 ^ 1) by reflexivity.
    rewrite E53 in *. clear E53.
    assert (0 < 2 ^ 52) by (apply Z.pow_pos_nonneg; lia).
    change (2 ^ 1) with 2 in *.
    generalize dependent (2 ^ 52). generalize dependent (2 ^ (em - ex)).
    intros. nia.
  - rewrite Z.sub_diag, Z.mul_1_r. apply Pos2Z.pos_lt_pos in Hlt.
    split; [exact Hlt|].
    assert (2 ^ (Zpos (digits2_pos mx) - 1) < 2 ^ Zpos (digits2_pos mm)) by lia.
    apply Z.pow_lt_mono_r_iff in H; lia.
Qed.

Lemma div_same_magnitude sx sy m e :
  F64.div (S754_finite sx m e) (S754_finite sy m e)
  = S754_finite (xorb sx sy) 4503599627370496 (-52).
Proof.
  unfold F64.div, SFdiv, SFdiv_core_binary.
  rewrite !Z.sub_diag.
  change (Z.min (fexp F64.prec F64.emax 0) 0) with (-53).
  change (0 - -53) with 53. cbv iota.
  change IntDef.Z.div_eucl with Z.div_eucl.
  rewrite (div_eucl_shifted m 53) by easy.
  replace (new_location (Zpos m) 0) with loc_Exact
    by (unfold new_location; now destruct (Z.even (Zpos m))).
  now destruct sx, sy.
Qed.

(** A number divided by a strictly larger positive one is in [-1, 1]. *)
Lemma div_strictly_smaller sx mx ex mm em :
  valid64 (S754_finite false mx ex) -> valid64 (S754_finite false mm em) ->
  ex < em \/ (ex = em /\ (mx < mm)%positive) ->
  within (F64.of_Z (-1)) (F64.of_Z 1)
    (F64.div (S754_finite sx mx ex) (S754_finite false mm em)) = true.
Proof.
  intros Vx Vm Hlt.
  destruct (canonical_lt_value _ _ _ _ Vx Vm Hlt) as [Hval Hmag].
  assert (Hee : ex <= em) by lia.
  unfold F64.div, SFdiv, SFdiv_core_binary.
  change (Zdigits2 (Zpos mx)) with (Zpos (digits2_pos mx)).
  change (Zdigits2 (Zpos mm)) with (Zpos (digits2_pos mm)).
  set (d1 := Zpos (digits2_pos mx)) in *. set (d2 := Zpos (digits2_pos mm)) in *.
  set (mu := d1 + ex - (d2 + em)).
  set (e' := Z.min (fexp F64.prec F64.emax mu) (ex - em)).
  set (s := ex - em - e').
  assert (Hfe : fexp F64.prec F64.emax mu <= -53)
    by (unfold fexp, emin, F64.prec, F64.emax; lia).
  assert (He' : e' <= -53 /\ e' <= fexp F64.prec F64.emax mu /\ 0 <= s)
    by (unfold s, e'; lia).
  destruct He' as (He1 & He2 & Hs).
  assert (Hm' : match s with
                | 0 => Zpos mx
                | Zpos _ => Z.shiftl (Zpos mx) s
                | Zneg _ => 0
                end = Zpos mx * 2 ^ s).
  { destruct s as [|p|p] eqn:Es; [simpl; lia| |lia].
    now rewrite Z.shiftl_mul_pow2. }
  rewrite Hm'. clear Hm'.
  change IntDef.Z.div_eucl with Z.div_eucl.
  destruct (Z.div_eucl (Zpos mx * 2 ^ s) (Zpos mm)) as [q r] eqn:Ediv.
  assert (Hq : q = (Zpos mx * 2 ^ s) / Zpos mm)
    by (unfold Z.div; now rewrite Ediv).
  rewrite xorb_false_r.
  pose proof (digits2_pos_bounds mx) as [Bx1 Bx2].
  pose proof (digits2_pos_bounds mm) as [Bm1 Bm2].
  fold d1 in Bx1, Bx2. fold d2 in Bm1, Bm2.
  assert (Hd1 : 0 < d1) by (unfold d1; lia).
  assert (Hd2 : 0 < d2) by (unfold d2; lia).
  assert (P2s : 0 < 2 ^ s) by (apply Z.pow_pos_nonneg; lia).
  assert (Hq0 : 0 <= q).
  { rewrite Hq. apply Z.div_pos; lia. }
  (* the quotient is below 2^(-e') *)
  assert (Hqlt : q < 2 ^ (- e')).
  { rewrite Hq. apply Z.div_lt_upper_bound; [lia|].
    replace (- e') with ((em - ex) + s) by (unfold s; lia).
    rewrite Z.pow_add_r by lia.
    generalize dependent (2 ^ (em - ex)). generalize dependent (2 ^ s).
    intros. nia. }
  apply round_aux_small; trivial.
  - (* the exponent leaves room for 53 digits *)
    intros Hqpos.
    assert (Hdig : mu <= Zdigits2 q + e').
    { destruct (Zdigits2_bounds q Hqpos) as [Dq [Bq1 Bq2]].
      destruct (Z.le_gt_cases 0 (d1 - 1 + s - d2)) as [Hk|Hk]; [|unfold mu, s in *; lia].
      assert (Hqk : 2 ^ (d1 - 1 + s - d2) <= q).
      { rewrite Hq. apply Z.div_le_lower_bound; [lia|].
        assert (E : 2 ^ (d1 - 1) * 2 ^ s = 2 ^ d2 * 2 ^ (d1 - 1 + s - d2)).
        { rewrite <- !Z.pow_add_r by lia. f_equal. lia. }
        assert (0 < 2 ^ (d1 - 1 + s - d2)) by (apply Z.pow_pos_nonneg; lia).
        generalize dependent (2 ^ (d1 - 1 + s - d2)). generalize dependent (2 ^ s).
        generalize dependent (2 ^ (d1 - 1)). generalize dependent (2 ^ d2).
        intros. nia. }
      assert (Hlt2 : 2 ^ (d1 - 1 + s - d2) < 2 ^ Zdigits2 q) by lia.
      apply Z.pow_lt_mono_r_iff in Hlt2; [|lia|lia].
      unfold mu, s in *. lia. }
    assert (Hmono : fexp F64.prec F64.emax mu
                    <= fexp F64.prec F64.emax (Zdigits2 q + e'))
      by (unfold fexp, emin, F64.prec, F64.emax; lia).
    lia.
  - (* its magnitude is at most 2^0 *)
    destruct (Z.eq_dec q 0) as [->|Hqn]; [simpl; lia|].
    destruct (Zdigits2_bounds q ltac:(lia)) as [Dq [Bq1 Bq2]].
    assert (Hlt2 : 2 ^ (Zdigits2 q - 1) < 2 ^ (- e')) by lia.
    apply Z.pow_lt_mono_r_iff in Hlt2; lia.
Qed.

Lemma div_le_one x m :
  valid64 x -> valid64 m -> finite x ->
  finite_nonzero m -> signed false m ->
  F64.le (F64.abs x) m = true ->
  within (F64.of_Z (-1)) (F64.of_Z 1) (F64.div x m) = true.
Proof.
  intros Vx Vm Fx Fm Sm Hle.
  destruct m as [| | |sm mm em]; try easy. simpl in Sm. subst sm.
  destruct x as [sx|sx| |sx mx ex]; try easy.
  unfold F64.le, F64.abs, SFabs, SFleb, SFcompare in Hle.
  rewrite Pos.compare_cont_spec in Hle. simpl Pos.switch_Eq in Hle.
  assert (Vx' : valid64 (S754_finite false mx ex)) by exact Vx.
  destruct (Z.compare_spec ex em) as [->|Hlt|Hgt]; [| |discriminate].
  - destruct (Pos.compare_spec mx mm) as [->|Hlt|Hgt]; [| |discriminate].
    + rewrite div_same_magnitude. now destruct sx.
    + apply div_strictly_smaller; auto.
  - apply div_strictly_smaller; auto.
Qed.

Lemma flat_point_div centered m :
  Loader.flat (map (fun p => Loader.point_div p m) centered)
  = map (fun c => F64.div c m) (Loader.flat centered).
Proof.
  unfold Loader.flat. induction centered as [|[[x y] z] centered IH]; [reflexivity|].
  cbn [map concat app]. unfold Loader.point_div at 1 2 3. cbn [fst snd].
  now rewrite IH.
Qed.

Lemma abs_finite_valid c :
  finite c /\ valid64 c ->
  finite (F64.abs c) /\ valid64 (F64.abs c) /\ not_nan (F64.abs c)
  /\ (is_zero (F64.abs c) \/ (finite_nonzero (F64.abs c) /\ signed false (F64.abs c))).
Proof.
  destruct c as [s|s| |s m e]; intros [Hf Hv]; try easy; simpl.
  - repeat split; try easy. now left.
  - repeat split; try easy. right. now split.
Qed.

(** X18.  [normalize_points] scales into the unit cube: for a non-empty
    array whose centred coordinates are all finite, every coordinate it
    returns is within [-1, 1], and the scale it returns is the largest
    absolute value among the centred coordinates. *)
Theorem normalize_points_within_unit_cube (points : list point) :
  points <> [] ->
  Forall (fun c => finite c /\ valid64 c)
    (Loader.flat (Loader.center_points points).1) ->
  exists normalized max_extent,
    Loader.normalize_points points = Ok (normalized, max_extent)
    /\ length normalized = length points
    /\ Forall (fun c => within (F64.of_Z (-1)) (F64.of_Z 1) c = true)
         (Loader.flat normalized)
    /\ max_extent ∈ map F64.abs (Loader.flat (Loader.center_points points).1)
    /\ Forall (fun c => F64.le (F64.abs c) max_extent = true)
         (Loader.flat (Loader.center_points points).1).
Proof.
  intros Hne Hall. unfold Loader.normalize_points.
  destruct (Loader.center_points points) as [centered center] eqn:E.
  cbn [fst] in Hall |- *. cbv beta iota.
  assert (Hlen : length centered = length points).
  { unfold Loader.center_points in E. injection E as <- _. apply length_map. }
  destruct centered as [|[[x0 y0] z0] centered].
  { destruct points; [easy|discriminate]. }
  change (Loader.flat ((x0, y0, z0) :: centered))
    with (x0 :: y0 :: z0 :: Loader.flat centered) in *.
  set (rest := y0 :: z0 :: Loader.flat centered) in *.
  assert (Habs : Forall not_nan (map F64.abs (x0 :: rest))).
  { apply Forall_fmap. eapply Forall_impl; [exact Hall|].
    intros c Hc. apply (abs_finite_valid c Hc). }
  change (map F64.abs (x0 :: rest)) with (F64.abs x0 :: map F64.abs rest) at 2.
  cbn [Np.amax mbind result_bind].
  set (M := foldl Np.maximum (F64.abs x0) (map F64.abs rest)).
  assert (HMin : M ∈ map F64.abs (x0 :: rest)) by apply foldl_maximum_elem.
  assert (Hup : Forall (fun c => F64.le (F64.abs c) M = true) (x0 :: rest)).
  { cbn [map] in Habs. apply Forall_cons in Habs as [Ha0 Hrest].
    destruct (foldl_maximum_upper _ _ Ha0 Hrest) as [_ Hu].
    change (F64.abs x0 :: map F64.abs rest) with (map F64.abs (x0 :: rest)) in Hu.
    now apply Forall_fmap in Hu. }
  assert (HM : exists c, M = F64.abs c /\ finite c /\ valid64 c).
  { rewrite map_is_fmap in HMin. apply list_elem_of_fmap in HMin as (c & -> & Hc).
    rewrite Forall_forall in Hall. exists c. split; [reflexivity|]. now apply Hall. }
  destruct HM as (cM & EM & HcM).
  destruct (abs_finite_valid cM HcM) as (FM & VM & _ & HMcase).
  rewrite <- EM in FM, VM, HMcase.
  exists (if F64.gt M (F64.of_Z 0)
          then map (fun p => Loader.point_div p M) ((x0, y0, z0) :: centered)
          else (x0, y0, z0) :: centered), M.
  split; [reflexivity|].
  split.
  { destruct (F64.gt M (F64.of_Z 0)); [now rewrite length_map|exact Hlen]. }
  split; [|split; [exact HMin|exact Hup]].
  destruct (F64.gt M (F64.of_Z 0)) eqn:Hgt.
  - rewrite flat_point_div. apply Forall_fmap.
    change (Loader.flat ((x0, y0, z0) :: centered)) with (x0 :: rest).
    destruct HMcase as [Hz|[Hnz Hs]].
    { now destruct M. }
    rewrite Forall_forall in Hall, Hup |- *. intros c Hc. simpl.
    destruct (Hall c Hc) as [Fc Vc].
    apply div_le_one; auto.
  - assert (Hz : is_zero M).
    { destruct HMcase as [Hz|[Hnz Hs]]; [exact Hz|].
      destruct M as [| | |[|] m e]; try easy. }
    change (Loader.flat ((x0, y0, z0) :: centered)) with (x0 :: rest).
    rewrite Forall_forall in Hall, Hup |- *. intros c Hc.
    specialize (Hup c Hc). destruct (Hall c Hc) as [Fc _].
    destruct M as [sM| | |]; try easy.
    destruct c as [[|]|s| |s m e]; try easy.
Qed.

(** * Stored colours are in the unit range *)

Lemma div_signed x y :
  signed false x -> finite_nonzero y -> signed false y ->
  signed false (F64.div x y).
Proof.
  unfold F64.div.
  destruct x as [sx|sx| |sx mx ex], y as [sy|sy| |sy my ey];
    simpl; try easy; intros -> _ ->; try reflexivity.
  pose proof (SFdiv_core_binary_nonneg F64.prec F64.emax mx ex my ey) as H.
  destruct (SFdiv_core_binary F64.prec F64.emax _ ex _ ey) as [[mz ez] lz].
  now apply binary_round_aux_signed.
Qed.

Lemma within_nonneg r :
  signed false r -> within (F64.of_Z (-1)) (F64.of_Z 1) r = true ->
  within (F64.of_Z 0) (F64.of_Z 1) r = true.
Proof.
  destruct r as [s|s| |s m e]; intros Hs Hw; simpl in Hs; [subst s|subst s| |subst s].
  - reflexivity.
  - vm_compute in Hw. discriminate Hw.
  - destruct Hs.
  - unfold within in *. apply andb_true_iff in Hw as [_ H]. now rewrite H.
Qed.

(** The float of a 16-bit channel value. *)
Lemma of_Z_channel c :
  0 <= c <= 65535 ->
  signed false (F64.of_Z c) /\ finite (F64.of_Z c) /\ valid64 (F64.of_Z c)
  /\ F64.le (F64.abs (F64.of_Z c)) (F64.of_Z 65535) = true.
Proof.
  intros Hc. split; [apply binary_normalize_nonneg; lia|].
  split; [|split; [apply binary_normalize_valid; reflexivity|]].
  - destruct c as [|p|p]; [exact I| |lia]. unfold F64.of_Z, binary_normalize.
    pose proof (digits2_pos_bounds p) as [B1 B2].
    assert (Hd : Zpos (digits2_pos p) <= 16).
    { assert (H : 2 ^ (Zpos (digits2_pos p) - 1) < 2 ^ 16) by (simpl (2 ^ 16); lia).
      apply Z.pow_lt_mono_r_iff in H; lia. }
    destruct (binary_round_exact F64.prec F64.emax false p 0) as (m3 & -> & _).
    { unfold fexp, emin, F64.prec, F64.emax. lia. }
    replace (fexp F64.prec F64.emax (Zpos (digits2_pos p) + 0) <=? F64.emax - F64.prec)
      with true; [exact I|].
    symmetry. apply Z.leb_le. unfold fexp, emin, F64.prec, F64.emax. lia.
  - destruct c as [|p|p]; [reflexivity| |lia]. unfold F64.of_Z, binary_normalize.
    pose proof (digits2_pos_bounds p) as [B1 B2].
    assert (Hd : Zpos (digits2_pos p) <= 16).
    { assert (H : 2 ^ (Zpos (digits2_pos p) - 1) < 2 ^ 16) by (simpl (2 ^ 16); lia).
      apply Z.pow_lt_mono_r_iff in H; lia. }
    destruct (binary_round_exact F64.prec F64.emax false p 0) as (m3 & -> & Hm3).
    { unfold fexp, emin, F64.prec, F64.emax. lia. }
    unfold fexp, emin, F64.prec, F64.emax in *.
    replace (Z.max (Zpos (digits2_pos p) + 0 - 53) (3 - 1024 - 53))
      with (Zpos (digits2_pos p) - 53) in * by lia.
    replace (Zpos (digits2_pos p) - 53 <=? 1024 - 53) with true
      by (symmetry; apply Z.leb_le; lia).
    change (binary_round 53 1024 false 65535 0)
      with (S754_finite false 9007061815787520 (-37)).
    unfold F64.le, F64.abs, SFabs, SFleb, SFcompare.
    rewrite Pos.compare_cont_spec. simpl Pos.switch_Eq.
    destruct (Z.compare_spec (Zpos (digits2_pos p) - 53) (-37)) as [E|E|E];
      [|reflexivity|exfalso; clear -E Hd; lia].
    assert (Hd16 : Zpos (digits2_pos p) = 16) by (clear -E; lia).
    rewrite Hd16 in Hm3. change (2 ^ (0 - (16 - 53))) with (2 ^ 37) in Hm3.
    destruct (Pos.compare_spec m3 9007061815787520) as [_|_|Hgt]; try reflexivity.
    exfalso. apply Pos2Z.pos_lt_pos in Hgt. rewrite Hm3 in Hgt.
    change (Zpos 9007061815787520) with (65535 * 2 ^ 37) in Hgt.
    assert (0 < 2 ^ 37) by reflexivity.
    clear -Hgt Hc H. generalize dependent (2 ^ 37). intros. nia.
Qed.

Lemma channel_within_unit c :
  0 <= c <= 65535 ->
  within (F64.of_Z 0) (F64.of_Z 1) (F64.div (F64.of_Z c) (F64.of_Z 65535)) = true.
Proof.
  intros Hc. destruct (of_Z_channel c Hc) as (Hs & Hf & Hv & Hle).
  apply within_nonneg.
  - apply div_signed; [exact Hs|exact I|reflexivity].
  - apply div_le_one; trivial; try reflexivity; exact I.
Qed.

Lemma picked_elem {A} (a : list A) idx out :
  picked a idx out -> Forall (fun x => x ∈ a) out.
Proof.
  induction 1 as [|i x idx out Hx _ IH]; constructor; [|exact IH].
  eapply list_elem_of_lookup_2, Hx.
Qed.

Section LoadColors.
Variable random_choice : nat -> nat -> list nat.

(** X19.  On a file with at least one point whose colour channels hold
    16-bit values (0 to 65535), one triple per point, the colours [load]
    returns have every component within [0, 1]. *)
Theorem load_colors_within_unit_range
    (self : Loader.PointCloudLoader) (las : LasData) (rgb : list (Z * Z * Z)) :
  valid_choice random_choice ->
  las_xyz las <> [] ->
  las_rgb las = Some rgb ->
  length rgb = length (las_xyz las) ->
  Forall (fun c => 0 <= c.1.1 <= 65535 /\ 0 <= c.1.2 <= 65535 /\ 0 <= c.2 <= 65535)
    rgb ->
  exists pts cols md,
    Loader.load random_choice self las = Ok (pts, Some cols, md)
    /\ length cols = length pts
    /\ Forall (fun c => unit_rgb c = true) cols.
Proof.
  intros Hrc Hne Hrgb Hlen Hch.
  assert (Hal : aligned (las_xyz las) (las_rgb las)) by (now rewrite Hrgb).
  destruct (load_picks random_choice self las Hrc Hne Hal)
    as (idx & pts & cols & b & Hrun & _ & _ & _ & Hp & Hc & _).
  unfold Loader.stored_colors in Hc. rewrite Hrgb in Hc.
  destruct cols as [cols|]; [|easy]. simpl in Hc.
  eexists pts, cols, _. split; [exact Hrun|].
  split; [now rewrite (picked_length _ _ _ Hc), (picked_length _ _ _ Hp)|].
  apply picked_elem in Hc. eapply Forall_impl; [exact Hc|].
  intros c Hin. rewrite map_is_fmap in Hin.
  apply list_elem_of_fmap in Hin as (z & -> & Hz).
  rewrite Forall_forall in Hch. destruct (Hch z Hz) as (H1 & H2 & H3).
  unfold unit_rgb. cbn [fst snd].
  now rewrite !channel_within_unit.
Qed.
End LoadColors.

(** X18 at the three points of the file. *)
Lemma normalize_points_within_unit_cube_witness :
  las_xyz small_tile <> []
  /\ Forall (fun c => finite c /\ valid64 c)
       (Loader.flat (Loader.center_points (las_xyz small_tile)).1)
  /\ exists normalized max_extent,
       Loader.normalize_points (las_xyz small_tile) = Ok (normalized, max_extent)
       /\ length normalized = 3%nat
       /\ Forall (fun c => within (F64.of_Z (-1)) (F64.of_Z 1) c = true)
            (Loader.flat normalized).
Proof.
  assert (H1 : las_xyz small_tile <> []) by discriminate.
  assert (H2 : Forall (fun c => finite c /\ valid64 c)
                 (Loader.flat (Loader.center_points (las_xyz small_tile)).1)).
  { let l := eval vm_compute in
        (Loader.flat (Loader.center_points (las_xyz small_tile)).1) in
    change (Forall (fun c => finite c /\ valid64 c) l).
    repeat (constructor; [split; vm_compute; easy|]). constructor. }
  split; [exact H1|]. split; [exact H2|].
  destruct (normalize_points_within_unit_cube (las_xyz small_tile) H1 H2)
    as (normalized & max_extent & Hrun & Hlen & Hall & _).
  exists normalized, max_extent. repeat split; trivial.
Defined.

(** X19 at the three-point file, whose channels are 0 or 65535. *)
Lemma load_colors_within_unit_range_witness :
  valid_choice draw_first
  /\ las_xyz small_tile <> []
  /\ las_rgb small_tile = Some [(65535, 0, 0); (0, 65535, 0); (0, 0, 65535)]
  /\ exists pts cols md,
       Loader.load draw_first
         {| Loader.max_points := None;
            Loader.downsample_voxel := Some (F64.lit 5 100) |} small_tile
       = Ok (pts, Some cols, md)
       /\ length cols = length pts
       /\ Forall (fun c => unit_rgb c = true) cols.
Proof.
  assert (H2 : las_xyz small_tile <> []) by discriminate.
  assert (H3 : las_rgb small_tile
               = Some [(65535, 0, 0); (0, 65535, 0); (0, 0, 65535)]) by reflexivity.
  split; [exact draw_first_valid|]. split; [exact H2|]. split; [exact H3|].
  apply (load_colors_within_unit_range draw_first _ small_tile _
           draw_first_valid H2 H3 eq_refl).
  repeat (constructor; [cbn [fst snd]; lia|]). constructor.
Defined.

(** X22 at the three-point file, voxel size 0.05 and a limit of one point. *)
Lemma load_and_load_urban_las_return_the_same_points_witness :
  let self := {| Loader.max_points := Some 1%nat;
                 Loader.downsample_voxel := Some (F64.lit 5 100) |} in
  valid_choice draw_first
  /\ aligned (las_xyz small_tile) (las_rgb small_tile)
  /\ aligned (las_xyz small_tile) (las_classification small_tile)
  /\ (fun r => r.1.1) <$> Loader.load draw_first self small_tile
     = (fun r => r.1.1)
         <$> Cityscape.load_urban_las draw_first small_tile (Some 1%nat)
               (Some (F64.lit 5 100)).
Proof.
  intros self.
  assert (H2 : aligned (las_xyz small_tile) (las_rgb small_tile)) by reflexivity.
  assert (H3 : aligned (las_xyz small_tile) (las_classification small_tile))
    by reflexivity.
  split; [exact draw_first_valid|]. split; [exact H2|]. split; [exact H3|].
  exact (load_and_load_urban_las_return_the_same_points draw_first self small_tile
           draw_first_valid H2 H3).
Defined.

(** * Frames and the OpenGL point size *)

Lemma gl_point_size_app a b :
  gl_point_size (a ++ b)
  = match gl_point_size b with
    | Some s => Some s
    | None => gl_point_size a
    end.
Proof. unfold gl_point_size. now rewrite omap_app, last_app. Qed.

Lemma drawn_pairs_then (ps : list (F32.t * F32.t * F32.t)) tail :
  (forall current, drawn current tail = []) ->
  forall (cs : list color) current,
  drawn current
    (flat_map (fun pc : (F32.t * F32.t * F32.t) * color =>
                 let '(point, color) := pc in
                 [Renderer.glColor3f color.1.1 color.1.2 color.2;
                  Renderer.glVertex3f point.1.1 point.1.2 point.2])
       (zip ps cs) ++ tail)
  = zip ps cs.
Proof.
  intros Htail. induction ps as [|[[x y] z] ps IH]; intros cs current.
  - apply Htail.
  - destruct cs as [|[[r g] b] cs]; [apply Htail|].
    cbn [zip zip_with flat_map app drawn fst snd].
    f_equal. apply IH.
Qed.

Lemma pairs_no_point_size (l : list ((F32.t * F32.t * F32.t) * color)) :
  omap (fun c => match c with
                 | Renderer.glPointSize size => Some size
                 | _ => None
                 end)
    (flat_map (fun pc : (F32.t * F32.t * F32.t) * color =>
                 let '(point, color) := pc in
                 [Renderer.glColor3f color.1.1 color.1.2 color.2;
                  Renderer.glVertex3f point.1.1 point.1.2 point.2]) l)
  = [].
Proof. induction l as [|[[[x y] z] [[r g] b]] l IH]; [reflexivity|exact IH]. Qed.

Section Frames.
Import Renderer.
Variable view_array : Glm.vec3 -> Glm.vec3 -> Glm.vec3 -> list F32.t.

Lemma render_no_point_size self : gl_point_size (render view_array self).1 = None.
Proof.
  unfold render, setup_projection, gl_point_size.
  destruct (height self =? 0); [reflexivity|].
  cbn [fst]. rewrite !omap_app.
  assert (omap (fun c => match c with glPointSize size => Some size | _ => None end)
            (render_points self) = []) as ->; [|reflexivity].
  unfold render_points.
  destruct (points self) as [ps|]; [|reflexivity].
  destruct (colors self) as [cs|]; [|reflexivity].
  rewrite app_comm_cons, omap_app.
  change (omap ?f (glBegin GL_POINTS :: ?l)) with (omap f l).
  now rewrite pairs_no_point_size.
Qed.

(** X20.  One frame: [render] clears the buffers, sets up the projection
    (a perspective of 45 degrees, the aspect ratio of the window, near 0.1
    and far 10000) and the view (the identity times the camera's look-at
    matrix), draws the three axes and then the loaded points, each in its
    colour, and swaps the buffers; it makes no [glPointSize] call.  With a
    window height of 0 it raises [ZeroDivisionError] right after the
    projection matrix was reset: nothing is drawn and the buffers are not
    swapped. *)
Theorem render_draws_axes_then_points (self : PointCloudRenderer) :
  (height self = 0 ->
   render view_array self
   = ([glClear 16640; glMatrixMode GL_PROJECTION; glLoadIdentity],
      Raise ZeroDivisionError))
  /\ (height self <> 0 ->
      exists calls,
        render view_array self = (calls, Ok tt)
        /\ calls
           = [glClear 16640;
              glMatrixMode GL_PROJECTION;
              glLoadIdentity;
              gluPerspective (F64.of_Z 45)
                (int_truediv (width self) (height self))
                (F64.lit 1 10) (F64.of_Z 10000);
              glMatrixMode GL_MODELVIEW;
              glLoadIdentity;
              glMultMatrixf
                (view_array (position (camera self)) (target (camera self))
                   (up (camera self)))]
             ++ render_axes (F64.of_Z 5) ++ render_points self ++ [swap_buffers]
        /\ head calls = Some (glClear 16640)
        /\ last calls = Some swap_buffers
        /\ gl_point_size calls = None
        /\ forall current,
             drawn current calls
             = axes_drawn ++ match points self, colors self with
                             | Some ps, Some cs => zip ps cs
                             | _, _ => []
                             end).
Proof.
  split.
  - intros E. unfold render, setup_projection. now rewrite E.
  - intros E. pose proof (render_no_point_size self) as Hsize.
    unfold render, setup_projection in *.
    apply Z.eqb_neq in E. rewrite E in *. cbn [fst] in Hsize.
    eexists. split; [reflexivity|]. split; [reflexivity|]. split; [reflexivity|].
    split; [|split; [exact Hsize|]].
    + rewrite !app_assoc. apply last_snoc.
    + intros current. cbn [app setup_modelview render_axes drawn].
      unfold render_points.
      destruct (points self) as [ps|]; [|reflexivity].
      destruct (colors self) as [cs|]; [|reflexivity].
      cbn [app drawn]. rewrite <- app_assoc.
      rewrite drawn_pairs_then by reflexivity. reflexivity.
Qed.
End Frames.

Section PointSize.
Import Renderer.
Variables np_cos np_sin : F64.t -> F64.t.
Variable view_array : Glm.vec3 -> Glm.vec3 -> Glm.vec3 -> list F32.t.

(** The [+] and [-] keys hand the new point size to OpenGL; no other key
    event makes an OpenGL call or changes the point size. *)
Lemma key_callback_gl_spec r key action :
  (key_callback_gl r key action = []
   /\ point_size (key_callback np_cos np_sin r key action).1 = point_size r)
  \/ key_callback_gl r key action
     = [glPointSize
          (F32.of_f64 (point_size (key_callback np_cos np_sin r key action).1))].
Proof.
  unfold key_callback_gl, key_callback.
  destruct ((action =? PRESS) || (action =? REPEAT)); [|now left].
  destruct (key =? KEY_ESCAPE); [now left|].
  destruct (key =? KEY_W); [now left|].
  destruct (key =? KEY_S); [now left|].
  destruct ((key =? KEY_EQUAL) || (key =? KEY_KP_ADD)); [now right|].
  destruct ((key =? KEY_MINUS) || (key =? KEY_KP_SUBTRACT)); [now right|].
  destruct (key =? KEY_R); now left.
Qed.

(** X21.  [main] stores [--point-size] in [renderer.point_size] but does not
    hand it to OpenGL: when [run] is entered the last [glPointSize] call is
    still the constructor's, with 2.0, and no frame changes that.  A key event
    either makes no OpenGL call and keeps [point_size], or (the [+] and [-]
    keys) calls [glPointSize] with the new [point_size]. *)
Theorem point_size_option_reaches_opengl_only_by_keys
    (width height : Z) (point_size0 : F64.t) (pts : list point)
    (cols : option (list color)) (r : PointCloudRenderer) (calls : list gl_call) :
  Main.create_and_load np_cos np_sin width height point_size0 pts cols
  = Ok (r, calls) ->
  point_size r = point_size0
  /\ gl_point_size calls = Some (F32.of_f64 (F64.of_Z 2))
  /\ gl_point_size (calls ++ (render view_array r).1)
     = Some (F32.of_f64 (F64.of_Z 2))
  /\ forall key action,
       (key_callback_gl r key action = []
        /\ point_size (key_callback np_cos np_sin r key action).1 = point_size r)
       \/ key_callback_gl r key action
          = [glPointSize
               (F32.of_f64
                  (point_size (key_callback np_cos np_sin r key action).1))].
Proof.
  unfold Main.create_and_load. intros H.
  destruct (load_points np_cos np_sin _ pts cols) as [r0|e] eqn:El; [|discriminate H].
  cbn [mbind result_bind] in H. injection H as <- <-.
  destruct (load_points_frame _ _ _ _ _ _ El) as (Hps & _).
  split; [exact Hps|]. split; [reflexivity|].
  split; [|intros key action; apply key_callback_gl_spec].
  rewrite gl_point_size_app, render_no_point_size. reflexivity.
Qed.
End PointSize.

(** X21 at the points of the three-point file and [--point-size 5]. *)
Lemma point_size_option_reaches_opengl_only_by_keys_witness :
  Main.create_and_load taylor_cos taylor_sin 1920 1080 (F64.of_Z 5)
    (las_xyz small_tile) None
  = Ok (viewed0.1, viewed0.2)
  /\ Renderer.point_size viewed0.1 = F64.of_Z 5
  /\ gl_point_size viewed0.2 = Some (F32.of_f64 (F64.of_Z 2))
  /\ gl_point_size (viewed0.2 ++ (Renderer.render identity_view viewed0.1).1)
     = Some (F32.of_f64 (F64.of_Z 2)).
Proof.
  assert (H : Main.create_and_load taylor_cos taylor_sin 1920 1080 (F64.of_Z 5)
                (las_xyz small_tile) None = Ok (viewed0.1, viewed0.2))
    by (vm_compute; reflexivity).
  split; [exact H|].
  destruct (point_size_option_reaches_opengl_only_by_keys taylor_cos taylor_sin
              identity_view 1920 1080 (F64.of_Z 5) (las_xyz small_tile) None
              viewed0.1 viewed0.2 H) as (H1 & H2 & H3 & _).
  split; [exact H1|]. split; [exact H2|exact H3].
Defined.

(** * A camera on its target *)

Lemma mul_nan_r x : F32.mul x S754_nan = S754_nan.
Proof. now destruct x. Qed.

Lemma sub_nan_r x : F32.sub x S754_nan = S754_nan.
Proof. now destruct x. Qed.

Lemma add_nan_r x : F32.add x S754_nan = S754_nan.
Proof. now destruct x. Qed.

Lemma normalize_zero_vector v : zero_vector v -> Glm.normalize v = nan_vector.
Proof.
  destruct v as [[sx|sx| |sx mx ex] [sy|sy| |sy my ey] [sz|sz| |sz mz ez]];
    intros (Hx & Hy & Hz); try easy.
  now destruct sx, sy, sz.
Qed.

Lemma minimum_same a n : foldl Np.minimum a (replicate n a) = a.
Proof.
  induction n as [|n IH]; [reflexivity|]. cbn [replicate foldl].
  replace (Np.minimum a a) with a; [exact IH|].
  unfold Np.minimum. now destruct (F64.le a a || F64.isnan a).
Qed.

Lemma maximum_same a n : foldl Np.maximum a (replicate n a) = a.
Proof.
  induction n as [|n IH]; [reflexivity|]. cbn [replicate foldl].
  replace (Np.maximum a a) with a; [exact IH|].
  unfold Np.maximum. now destruct (F64.ge a a || F64.isnan a).
Qed.

Lemma coords_replicate (axis : point -> F64.t) p n :
  coords axis (replicate n p) = replicate n (axis p).
Proof. unfold coords. induction n; simpl; congruence. Qed.

Lemma bbox_coincident p n :
  Scipy.point_finite p = true ->
  Renderer.bbox_max_dim (replicate (S n) p) = Ok F64.zero.
Proof.
  destruct p as [[x y] z]. unfold Scipy.point_finite. cbn [fst snd].
  intros [[Hx Hy]%andb_true_iff Hz]%andb_true_iff.
  unfold Renderer.bbox_max_dim, xyz_bounds, axis_bounds.
  rewrite !coords_replicate. cbn [replicate Np.amin Np.amax mbind result_bind fst snd].
  rewrite !minimum_same, !maximum_same. cbn [fst snd].
  rewrite !sub_self by (destruct x, y, z; easy).
  reflexivity.
Qed.

Lemma mul_zero_finite a b : is_zero a -> finite b -> is_zero (F64.mul a b).
Proof. now destruct a, b. Qed.

Lemma of_f64_zero a : is_zero a -> is_zero (F32.of_f64 a).
Proof. now destruct a. Qed.

(** Adding a zero and subtracting the sum leaves a zero. *)
Lemma sub_add_zero t z : finite t -> is_zero z -> is_zero (F32.sub t (F32.add t z)).
Proof.
  destruct t as [[|]| | |s m e], z as [[|]| | |]; try easy; intros _ _.
  - unfold F32.add, F32.sub, SFadd, SFsub. now rewrite Z.sub_diag.
  - unfold F32.add, F32.sub, SFadd, SFsub. now rewrite Z.sub_diag.
Qed.

Section OnTarget.
Import Renderer Glm.
Variables np_cos np_sin : F64.t -> F64.t.

(** X23.  [load_points] on a cloud whose points all coincide (a single
    point, for one) and are finite sets the camera distance to 0.0, below the
    range [zoom] keeps, and (when the cosines and sines of the two view
    angles are finite and so is the new target) leaves the camera on its
    target: [target - position] is the zero vector.  [pan] on such a camera
    turns every component of the target and of the position into NaN: it
    normalizes that vector. *)
Theorem pan_on_the_target_yields_nan :
  (forall self p n cols r,
     Scipy.point_finite p = true ->
     load_points np_cos np_sin self (replicate (S n) p) cols = Ok r ->
     distance (camera r) = F64.zero
     /\ (finite (np_cos (radians (elevation (camera self)))) ->
         finite (np_sin (radians (elevation (camera self)))) ->
         finite (np_cos (radians (azimuth (camera self)))) ->
         finite (np_sin (radians (azimuth (camera self)))) ->
         finite (vx (target (camera r))) -> finite (vy (target (camera r))) ->
         finite (vz (target (camera r))) ->
         zero_vector (sub (target (camera r)) (position (camera r)))))
  /\ (forall c delta_x delta_y,
      zero_vector (sub (target c) (position c)) ->
      target (pan np_cos np_sin c delta_x delta_y) = nan_vector
      /\ position (pan np_cos np_sin c delta_x delta_y) = nan_vector).
Proof.
  split.
  - intros self p n cols r Hp H. unfold load_points in H.
    destruct (match cols with Some c => _ | None => _ end); [|discriminate H].
    cbn [mbind result_bind] in H.
    rewrite (bbox_coincident p n Hp) in H. cbn [mbind result_bind] in H.
    injection H as <-. split; [reflexivity|].
    cbn [camera update_position target position elevation azimuth distance].
    change (F64.mul F64.zero (F64.lit 15 10)) with F64.zero.
    intros Hce Hse Hca Hsa Hx Hy Hz.
    unfold zero_vector, sub, add, vec3_of. cbn [vx vy vz] in *.
    repeat split; apply sub_add_zero; trivial;
      repeat (apply of_f64_zero || apply mul_zero_finite); trivial; exact I.
  - intros c dx dy Hz.
    assert (Ht : target (pan np_cos np_sin c dx dy) = nan_vector).
    { unfold pan. cbn [target update_position].
      rewrite (normalize_zero_vector _ Hz).
      unfold nan_vector, cross, normalize, dot, scale, add, F64.nan.
      cbn [vx vy vz].
      change (F32.mul S754_nan ?x) with S754_nan.
      rewrite ?mul_nan_r.
      change (F32.sub S754_nan ?x) with S754_nan.
      rewrite ?sub_nan_r.
      change (F32.mul S754_nan ?x) with S754_nan.
      change (F32.add S754_nan ?x) with S754_nan.
      change (F32.sqrt S754_nan) with S754_nan.
      rewrite ?mul_nan_r.
      change (F32.mul S754_nan ?x) with S754_nan.
      change (F32.sub S754_nan ?x) with S754_nan.
      change (F32.mul S754_nan ?x) with S754_nan.
      rewrite ?add_nan_r. reflexivity. }
    split; [exact Ht|].
    change (position (pan np_cos np_sin c dx dy))
      with (add (target (pan np_cos np_sin c dx dy))
              (vec3_of
                 (F64.mul (F64.mul (distance c) (np_cos (radians (elevation c))))
                    (np_cos (radians (azimuth c))))
                 (F64.mul (F64.mul (distance c) (np_cos (radians (elevation c))))
                    (np_sin (radians (azimuth c))))
                 (F64.mul (distance c) (np_sin (radians (elevation c)))))).
    rewrite Ht. reflexivity.
Qed.
End OnTarget.

(** X23 at a fresh renderer loaded with the single point (1, 2, 3): the
    camera sits on its target, and a pan leaves it at NaN. *)
Lemma pan_after_loading_one_point :
  Renderer.load_points taylor_cos taylor_sin renderer0 [ipoint 1 2 3] None
  = Ok loaded_one
  /\ Renderer.distance (Renderer.camera loaded_one) = F64.zero
  /\ zero_vector (Glm.sub (Renderer.target (Renderer.camera loaded_one))
                    (Renderer.position (Renderer.camera loaded_one)))
  /\ Renderer.target
       (Renderer.pan taylor_cos taylor_sin (Renderer.camera loaded_one)
          (F64.of_Z 10) (F64.of_Z 0))
     = nan_vector.
Proof.
  assert (H : Renderer.load_points taylor_cos taylor_sin renderer0 [ipoint 1 2 3] None
              = Ok loaded_one) by (vm_compute; reflexivity).
  assert (Hz : zero_vector (Glm.sub (Renderer.target (Renderer.camera loaded_one))
                              (Renderer.position (Renderer.camera loaded_one))))
    by (vm_compute; tauto).
  split; [exact H|].
  destruct (pan_on_the_target_yields_nan taylor_cos taylor_sin) as [H1 H2].
  split; [exact (proj1 (H1 renderer0 (ipoint 1 2 3) 0%nat None loaded_one eq_refl H))|].
  split; [exact Hz|].
  exact (proj1 (H2 (Renderer.camera loaded_one) (F64.of_Z 10) (F64.of_Z 0) Hz)).
Defined.
